(** * PodSearch: the workspace store, the workspace pages and the RAG /
      fact-verification contract they consume.

    The embedding follows the TypeScript sources:
    - [Api]       : podsearch-frontend/src/types/api.ts
    - [Store]     : podsearch-frontend/src/store/useStore.ts
    - [Workspace] : podsearch-frontend/src/app/workspace/[videoId]/page.tsx
    - [ClientApi] : client/src/types/api.ts
    - [Client]    : client/src/app/workspace/[videoId]/page.tsx
    - [StoreRest] : the rest of podsearch-frontend/src/store/useStore.ts
    - [PageRest]  : initialisation, retries and the player of both
                    workspace pages
    - [SearchPage]: the search page and the home page
    - [SavedPage] : podsearch-frontend/src/app/saved/page.tsx
    - [Backend]   : the Python service behind /api/rag and
                    /api/fact-verification, which is not part of the sources
                    at hand and is modelled from the specification. *)

From Stdlib Require Import ZArith QArith Qcanon Lia Sorted.
From stdpp Require Import base option list strings pretty gmap.

Local Open Scope string_scope.
Local Open Scope list_scope.
Local Open Scope Z_scope.

#[local] Set Warnings "-register-all".

(* ===================================================================== *)
(** * JavaScript values                                                    *)
(* ===================================================================== *)

Module JS.

(** A JavaScript [number]: the two infinities and NaN are kept apart from
    the finite values, which are taken as exact rationals. *)
Inductive number : Type :=
| NaN
| NegInfinity
| PosInfinity
| Fin (q : Qc).

Definition of_Z (z : Z) : number := Fin (Q2Qc (inject_Z z)).

(** [x < 0] *)
Definition lt0 (x : number) : bool :=
  match x with
  | NaN => false
  | NegInfinity => true
  | PosInfinity => false
  | Fin q => bool_decide (q < 0)%Qc
  end.

(** [Number.isNaN(x)] *)
Definition isNaN (x : number) : bool :=
  match x with NaN => true | _ => false end.

(** [x || 0] on an optional number: [undefined], [NaN] and [0] are falsy. *)
Definition or0 (x : option number) : number :=
  match x with
  | None => Fin 0%Qc
  | Some NaN => Fin 0%Qc
  | Some y => y
  end.

(** The values behind [any] and [Record<string, any>]. *)
Inductive any : Type :=
| Null
| Bool (b : bool)
| Num (n : number)
| Str (s : string)
| Arr (l : list any)
| Obj (l : list (string * any)).

(** [Date.now()] and [new Date()] read the clock: milliseconds since the
    epoch. *)
Definition Date := Z.

(** [n.toString()] on an integer. *)
Definition toString (n : Z) : string := pretty n.

End JS.

(* ===================================================================== *)
(** * podsearch-frontend/src/types/api.ts                                  *)
(* ===================================================================== *)

Module Api.

Record YouTubeVideo := {
  yv_id : string;
  yv_title : string;
  yv_duration : option JS.number;
  yv_view_count : option JS.number;
  yv_upload_date : option string;
  yv_uploader : option string;
  yv_description : option string;
  yv_thumbnail_url : option string;
  yv_available_languages : list string;
  yv_has_captions : bool;
  yv_url : string
}.

Record TranscriptSegment := {
  ts_text : string;
  ts_timestamp : option JS.number
}.

Record RAGSearchResult := {
  text : string;
  timestamp : option JS.number;
  segment_index : JS.number;
  relevance_score : JS.number;
  metadata : list (string * JS.any)
}.

Record RAGGenerateRequest := {
  query : string;
  top_k : Z
}.

Record RAGGenerateResponse := {
  gen_success : bool;
  gen_query : string;
  gen_video_id : string;
  answer : string;
  sources : list RAGSearchResult;
  retrieval_only : bool;
  gen_error : option string
}.

Record RAGProcessRequest := { overwrite : bool }.

Record RAGProcessResponse := {
  proc_success : bool;
  proc_video_id : string;
  chunks_stored : option Z;
  collection_name : option string;
  proc_error : option string
}.

(** type VerificationStatus = four string literals *)
Inductive VerificationStatus :=
| Verified
| PartiallyVerified
| False_
| Unclear.

(** The literal each status is on the wire. *)
Definition VerificationStatus_literal (v : VerificationStatus) : string :=
  match v with
  | Verified => "✅ Verified"
  | PartiallyVerified => "⚠️ Partially Verified"
  | False_ => "❌ False"
  | Unclear => "🔍 Unclear/Insufficient Evidence"
  end.

Inductive SourceType :=
| Wikipedia | PubMed | SemanticScholar | News | SearchEngine | Academic.

#[global] Instance SourceType_eq_dec : EqDecision SourceType.
Proof. solve_decision. Defined.

Record VerificationSource := {
  vs_title : string;
  vs_url : string;
  source_type : SourceType;
  vs_relevance_score : JS.number;
  excerpt : string;
  publication_date : option string;
  author : option string
}.

Record ClaimVerification := {
  claim : string;
  status : VerificationStatus;
  confidence : JS.number;
  explanation : string;
  cv_sources : list VerificationSource;
  verification_date : string;
  agent_reasoning : string
}.

Record FactVerificationResponse := {
  fv_success : bool;
  verifications : list ClaimVerification;
  total_claims : JS.number;
  processing_time : JS.number;
  fv_error : option string
}.

Record SearchState := {
  ss_query : string;
  results : list YouTubeVideo;
  loading : bool;
  ss_error : option string
}.

Inductive MessageType := user | assistant.

Record ChatMessage := {
  id : string;
  type : MessageType;
  content : string;
  cm_timestamp : JS.Date;
  cm_sources : option (list RAGSearchResult);
  factCheck : option (list ClaimVerification);
  isTyping : option bool
}.

Record WorkspaceState := {
  currentVideo : option YouTubeVideo;
  transcript : list TranscriptSegment;
  isProcessing : bool;
  isProcessed : bool;
  ragReady : bool;
  chatMessages : list ChatMessage;
  factChecking : bool;
  currentFactCheck : option (list ClaimVerification)
}.

End Api.

(* ===================================================================== *)
(** * podsearch-frontend/src/store/useStore.ts                             *)
(* ===================================================================== *)

Module Store.
Import Api.

Inductive Theme := light | dark.

Record PlayerState := {
  isPlaying : bool;
  currentTime : JS.number;
  duration : JS.number
}.

Record UIState := {
  theme : Theme;
  sidebarOpen : bool;
  currentPlayer : PlayerState
}.

Record SavedInsight := {
  si_id : string;
  videoId : string;
  videoTitle : string;
  si_query : string;
  si_answer : string;
  si_sources : list RAGSearchResult;
  si_factCheck : option (list ClaimVerification);
  si_timestamp : string
}.

(** The data half of [AppState]; the actions are the functions below. *)
Record AppState := {
  search : SearchState;
  workspace : WorkspaceState;
  ui : UIState;
  savedInsights : list SavedInsight
}.

Definition initialSearchState : SearchState :=
  {| ss_query := ""; results := []; loading := false; ss_error := None |}.

Definition initialWorkspaceState : WorkspaceState :=
  {| currentVideo := None; transcript := []; isProcessing := false;
     isProcessed := false; ragReady := false; chatMessages := [];
     factChecking := false; currentFactCheck := None |}.

Definition initialState : AppState :=
  {| search := initialSearchState;
     workspace := initialWorkspaceState;
     ui := {| theme := light; sidebarOpen := false;
              currentPlayer := {| isPlaying := false;
                                  currentTime := JS.Fin 0%Qc;
                                  duration := JS.Fin 0%Qc |} |};
     savedInsights := [] |}.

(** [set((state) => ({ workspace: w' }))]: zustand merges the returned
    slice into the state, every other key is kept. *)
Definition set_workspace (f : AppState → WorkspaceState) (st : AppState) : AppState :=
  {| search := search st; workspace := f st; ui := ui st;
     savedInsights := savedInsights st |}.

Definition set_savedInsights (f : AppState → list SavedInsight) (st : AppState) : AppState :=
  {| search := search st; workspace := workspace st; ui := ui st;
     savedInsights := f st |}.

(** [{ ...state.workspace, chatMessages: ms }] *)
Definition with_chatMessages (w : WorkspaceState) (ms : list ChatMessage) : WorkspaceState :=
  {| currentVideo := currentVideo w; transcript := transcript w;
     isProcessing := isProcessing w; isProcessed := isProcessed w;
     ragReady := ragReady w; chatMessages := ms;
     factChecking := factChecking w; currentFactCheck := currentFactCheck w |}.

Definition with_isProcessing (w : WorkspaceState) (b : bool) : WorkspaceState :=
  {| currentVideo := currentVideo w; transcript := transcript w;
     isProcessing := b; isProcessed := isProcessed w;
     ragReady := ragReady w; chatMessages := chatMessages w;
     factChecking := factChecking w; currentFactCheck := currentFactCheck w |}.

Definition with_isProcessed (w : WorkspaceState) (b : bool) : WorkspaceState :=
  {| currentVideo := currentVideo w; transcript := transcript w;
     isProcessing := isProcessing w; isProcessed := b;
     ragReady := ragReady w; chatMessages := chatMessages w;
     factChecking := factChecking w; currentFactCheck := currentFactCheck w |}.

Definition with_ragReady (w : WorkspaceState) (b : bool) : WorkspaceState :=
  {| currentVideo := currentVideo w; transcript := transcript w;
     isProcessing := isProcessing w; isProcessed := isProcessed w;
     ragReady := b; chatMessages := chatMessages w;
     factChecking := factChecking w; currentFactCheck := currentFactCheck w |}.

Definition with_transcript (w : WorkspaceState) (t : list TranscriptSegment) : WorkspaceState :=
  {| currentVideo := currentVideo w; transcript := t;
     isProcessing := isProcessing w; isProcessed := isProcessed w;
     ragReady := ragReady w; chatMessages := chatMessages w;
     factChecking := factChecking w; currentFactCheck := currentFactCheck w |}.

Definition with_factChecking (w : WorkspaceState) (b : bool) : WorkspaceState :=
  {| currentVideo := currentVideo w; transcript := transcript w;
     isProcessing := isProcessing w; isProcessed := isProcessed w;
     ragReady := ragReady w; chatMessages := chatMessages w;
     factChecking := b; currentFactCheck := currentFactCheck w |}.

Definition with_currentFactCheck (w : WorkspaceState)
    (c : option (list ClaimVerification)) : WorkspaceState :=
  {| currentVideo := currentVideo w; transcript := transcript w;
     isProcessing := isProcessing w; isProcessed := isProcessed w;
     ragReady := ragReady w; chatMessages := chatMessages w;
     factChecking := factChecking w; currentFactCheck := c |}.

Definition setTranscript (t : list TranscriptSegment) : AppState → AppState :=
  set_workspace (λ state, with_transcript (workspace state) t).
Definition setIsProcessing (b : bool) : AppState → AppState :=
  set_workspace (λ state, with_isProcessing (workspace state) b).
Definition setIsProcessed (b : bool) : AppState → AppState :=
  set_workspace (λ state, with_isProcessed (workspace state) b).
Definition setRagReady (b : bool) : AppState → AppState :=
  set_workspace (λ state, with_ragReady (workspace state) b).
Definition setFactChecking (b : bool) : AppState → AppState :=
  set_workspace (λ state, with_factChecking (workspace state) b).
Definition setCurrentFactCheck (c : option (list ClaimVerification)) : AppState → AppState :=
  set_workspace (λ state, with_currentFactCheck (workspace state) c).

(** [Omit<ChatMessage, 'id' | 'timestamp'>] *)
Record NewMessage := {
  nm_type : MessageType;
  nm_content : string;
  nm_sources : option (list RAGSearchResult);
  nm_factCheck : option (list ClaimVerification);
  nm_isTyping : option bool
}.

(** [Partial<ChatMessage>]: [None] is a key the object literal does not
    have.  For the three optional members a key can also be present and
    hold [undefined], which is [Some None]. *)
Record MessageUpdates := {
  u_id : option string;
  u_type : option MessageType;
  u_content : option string;
  u_timestamp : option JS.Date;
  u_sources : option (option (list RAGSearchResult));
  u_factCheck : option (option (list ClaimVerification));
  u_isTyping : option (option bool)
}.

Definition no_updates : MessageUpdates :=
  {| u_id := None; u_type := None; u_content := None; u_timestamp := None;
     u_sources := None; u_factCheck := None; u_isTyping := None |}.

(** One key of [{ ...a, ...b }]: the right operand wins where it has it. *)
Definition spread {A} (old : A) (upd : option A) : A := default old upd.

(** [{ ...m, ...updates }] *)
Definition merge_message (m : ChatMessage) (updates : MessageUpdates) : ChatMessage :=
  {| id := spread (id m) (u_id updates);
     type := spread (type m) (u_type updates);
     content := spread (content m) (u_content updates);
     cm_timestamp := spread (cm_timestamp m) (u_timestamp updates);
     cm_sources := spread (cm_sources m) (u_sources updates);
     factCheck := spread (factCheck m) (u_factCheck updates);
     isTyping := spread (isTyping m) (u_isTyping updates) |}.

(** [addChatMessage]; [now] is what [Date.now()] returns and [date] what
    [new Date()] returns. *)
Definition addChatMessage (message : NewMessage) (now date : JS.Date)
    : AppState → AppState :=
  let newMessage :=
    {| id := JS.toString now;
       type := nm_type message;
       content := nm_content message;
       cm_timestamp := date;
       cm_sources := nm_sources message;
       factCheck := nm_factCheck message;
       isTyping := nm_isTyping message |} in
  set_workspace (λ state,
    with_chatMessages (workspace state)
      (chatMessages (workspace state) ++ [newMessage])).

(** [updateLastMessage] *)
Definition updateLastMessage (updates : MessageUpdates) : AppState → AppState :=
  set_workspace (λ state,
    let messages := chatMessages (workspace state) in
    let messages :=
      if (0 <? length messages)%nat then
        match messages !! (length messages - 1)%nat with
        | Some lastm =>
            <[(length messages - 1)%nat := merge_message lastm updates]> messages
        | None => messages
        end
      else messages in
    with_chatMessages (workspace state) messages).

Definition clearChat : AppState → AppState :=
  set_workspace (λ state, with_chatMessages (workspace state) []).

(** [Omit<SavedInsight, 'id' | 'timestamp'>] *)
Record NewInsight := {
  ni_videoId : string;
  ni_videoTitle : string;
  ni_query : string;
  ni_answer : string;
  ni_sources : list RAGSearchResult;
  ni_factCheck : option (list ClaimVerification)
}.

Definition mkInsight (insight : NewInsight) (id iso : string) : SavedInsight :=
  {| si_id := id;
     videoId := ni_videoId insight;
     videoTitle := ni_videoTitle insight;
     si_query := ni_query insight;
     si_answer := ni_answer insight;
     si_sources := ni_sources insight;
     si_factCheck := ni_factCheck insight;
     si_timestamp := iso |}.

(** [addSavedInsight]; [now] is [Date.now()] and [iso] is
    [new Date().toISOString()]. *)
Definition addSavedInsight (insight : NewInsight) (now : JS.Date) (iso : string)
    : AppState → AppState :=
  let newInsight := mkInsight insight (JS.toString now) iso in
  set_savedInsights (λ state, newInsight :: savedInsights state).

(** [addSavedInsight] called once for each of [adds], in that order. *)
Definition addSavedInsights (adds : list (NewInsight * JS.Date * string))
    (st : AppState) : AppState :=
  foldl (λ s a, addSavedInsight a.1.1 a.1.2 a.2 s) st adds.

(** [removeSavedInsight] *)
Definition removeSavedInsight (id : string) : AppState → AppState :=
  set_savedInsights (λ state,
    filter (λ insight, si_id insight ≠ id) (savedInsights state)).

Definition clearSavedInsights : AppState → AppState :=
  set_savedInsights (λ _, []).

End Store.

(* ===================================================================== *)
(** * Handlers as event traces                                             *)
(* ===================================================================== *)

(** The page handlers are [async] functions whose only outputs are calls:
    to the store actions, to [toast], to the API layer, to the player and to
    the component's own [useState] setters.  A handler is embedded as the
    trace of those calls together with how it ends.  What the awaited API
    calls answer is an input of the handler. *)

Module Eff.

(** What a [catch (error)] sees: [error.message] and
    [error.response?.status]. *)
Record Error := {
  message : string;
  response_status : option Z
}.

(** [new Error(msg)] *)
Definition new_Error (msg : string) : Error :=
  {| message := msg; response_status := None |}.

Inductive Result (A : Type) :=
| Ok (a : A)
| Throw (e : Error).
Arguments Ok {A} a.
Arguments Throw {A} e.

(** An awaited promise either resolves or rejects. *)
Inductive Reply (A : Type) :=
| Resolved (a : A)
| Rejected (e : Error).
Arguments Resolved {A} a.
Arguments Rejected {A} e.

Section Trace.
Context {Ev : Type}.

Definition M (A : Type) : Type := list Ev * Result A.

Definition ret {A} (a : A) : M A := ([], Ok a).

Definition bind {A B} (m : M A) (k : A → M B) : M B :=
  match m with
  | (t, Ok a) => let '(t', r) := k a in (t ++ t', r)
  | (t, Throw e) => (t, Throw e)
  end.

Definition emit (e : Ev) : M unit := ([e], Ok tt).

Definition throw {A} (e : Error) : M A := ([], Throw e).

(** [try { m } catch (error) { h error }] *)
Definition try_catch {A} (m : M A) (h : Error → M A) : M A :=
  match m with
  | (t, Ok a) => (t, Ok a)
  | (t, Throw e) => let '(t', r) := h e in (t ++ t', r)
  end.

(** [try { m } finally { f }] *)
Definition finally {A} (m : M A) (f : M unit) : M A :=
  let '(t, r) := m in
  match f with
  | (t', Ok _) => (t ++ t', r)
  | (t', Throw e) => (t ++ t', Throw e)
  end.

(** [await call], the call being logged as [e]. *)
Definition await {A} (e : Ev) (reply : Reply A) : M A :=
  match reply with
  | Resolved a => ([e], Ok a)
  | Rejected err => ([e], Throw err)
  end.

Definition trace {A} (m : M A) : list Ev := m.1.
Definition result {A} (m : M A) : Result A := m.2.
Definition returns {A} (m : M A) : bool :=
  match m.2 with Ok _ => true | Throw _ => false end.
End Trace.

Arguments M Ev A : clear implicits.

End Eff.

#[global] Instance M_ret {Ev} : MRet (Eff.M Ev) := λ A, Eff.ret.
#[global] Instance M_bind {Ev} : MBind (Eff.M Ev) := λ A B k m, Eff.bind m k.

(** [s.includes(needle)] *)
Fixpoint includes (needle hay : string) : bool :=
  if String.prefix needle hay then true
  else match hay with
       | EmptyString => false
       | String _ hay' => includes needle hay'
       end.

(** [o?.includes(needle)] used as a condition: [undefined] is falsy. *)
Definition opt_includes (needle : string) (o : option string) : bool :=
  match o with
  | Some s => includes needle s
  | None => false
  end.

(** [o || d] on an optional string: [undefined] and [''] are falsy. *)
Definition or_string (o : option string) (d : string) : string :=
  match o with
  | Some EmptyString => d
  | Some s => s
  | None => d
  end.

(* ===================================================================== *)
(** * client/src/types/api.ts: the verification types                     *)
(* ===================================================================== *)

Module ClientApi.

Record VerificationSource := {
  url : string;
  domain : string;
  title : option string;
  published_at : option string;
  snippet : string;
  screenshot_b64 : option string;
  url_with_text_fragment : option string;
  similarity : JS.number;
  entailment_score : option JS.number
}.

Record ClaimVerification := {
  cv_text : string;
  verdict : string;
  cv_confidence : JS.number;
  cv_sources : list VerificationSource
}.

Record VerifyResponse := {
  vr_success : bool;
  vr_claim : string;
  result : option ClaimVerification;
  vr_error : option string
}.


End ClientApi.

(* ===================================================================== *)
(** * Events of the two workspace pages                                    *)
(* ===================================================================== *)

Module Page.
Import Api Store.

(** The store actions a page obtains from [useWorkspaceActions]. *)
Inductive Action :=
| SetTranscript (t : list TranscriptSegment)
| SetIsProcessing (b : bool)
| SetIsProcessed (b : bool)
| SetRagReady (b : bool)
| AddChatMessage (m : NewMessage)
| UpdateLastMessage (u : MessageUpdates)
| SetFactChecking (b : bool)
| SetCurrentFactCheck (c : option (list ClaimVerification)).

Inductive ToastKind := success | error.

(** An object literal handed to the API layer: its keys in order. *)
Definition object := list (string * JS.any).


(** The calls into [@/lib/api]. *)
Inductive ApiCall :=
| GetTranscript (videoId : string)
| ProcessTranscript (videoId : string) (req : RAGProcessRequest)
| GenerateResponse (videoId : string) (req : RAGGenerateRequest)
| VerifyClaims (req : object)
| VerifyClaim (req : object).

Inductive Event :=
| Act (a : Action)
| Toast (k : ToastKind) (msg : string)
| Call (c : ApiCall)
| SetChatInput (s : string)
| SetRetryAttempts (n : Z)
| SeekTo (t : JS.number)
| SetPendingSeek (t : option JS.number)
| SetTimeout (ms : Z) (callback : list Event)
| SetMessageSelection (messageId : string) (verifying : bool)
    (result : option ClientApi.ClaimVerification).

(** [GET transcript] answers with [TranscriptWithTimestampsResponse];
    [segments] may be missing at run time, which the page checks for, and
    of [metadata] the page reads [metadata?.error] only. *)
Record TranscriptWithTimestampsResponse := {
  tr_success : bool;
  tr_video_id : string;
  segments : option (list TranscriptSegment);
  metadata_error : option string
}.

(** What the API layer answers; each handler awaits each call once. *)
Record Net := {
  getTranscript : string → Eff.Reply TranscriptWithTimestampsResponse;
  processTranscript : string → RAGProcessRequest → Eff.Reply RAGProcessResponse;
  generateResponse : string → RAGGenerateRequest → Eff.Reply RAGGenerateResponse;
  verifyClaims : object → Eff.Reply FactVerificationResponse;
  verifyClaim : object → Eff.Reply ClientApi.VerifyResponse
}.

(** The API layer of a backend that is down: every call rejects. *)
Definition offline : Net :=
  {| getTranscript := λ _, Eff.Rejected (Eff.new_Error "Network Error");
     processTranscript := λ _ _, Eff.Rejected (Eff.new_Error "Network Error");
     generateResponse := λ _ _, Eff.Rejected (Eff.new_Error "Network Error");
     verifyClaims := λ _, Eff.Rejected (Eff.new_Error "Network Error");
     verifyClaim := λ _, Eff.Rejected (Eff.new_Error "Network Error") |}.

(** The API layer of a backend that is up: the calls of the RAG and of the
    fact verification service resolve with what the service answers. *)
Definition served (transcript : TranscriptWithTimestampsResponse)
    (process : string → RAGProcessRequest → RAGProcessResponse)
    (generate : string → RAGGenerateRequest → RAGGenerateResponse)
    (verify : object → FactVerificationResponse) : Net :=
  {| getTranscript := λ _, Eff.Resolved transcript;
     processTranscript := λ v r, Eff.Resolved (process v r);
     generateResponse := λ v r, Eff.Resolved (generate v r);
     verifyClaims := λ r, Eff.Resolved (verify r);
     verifyClaim := λ _, Eff.Rejected (Eff.new_Error "Network Error") |}.

(** The message the pages write into the chat for an answer. *)
Definition answered (r : RAGGenerateResponse) : Action :=
  UpdateLastMessage
    {| u_id := None; u_type := None; u_content := Some (answer r);
       u_timestamp := None; u_sources := Some (Some (sources r));
       u_factCheck := None; u_isTyping := Some (Some false) |}.

Definition act (a : Action) : Eff.M Event unit := Eff.emit (Act a).
Definition toast (k : ToastKind) (msg : string) : Eff.M Event unit :=
  Eff.emit (Toast k msg).

(** Running the store actions of a trace on the store of
    podsearch-frontend.  [addChatMessage] reads the clock twice
    ([Date.now()], then [new Date()]); [clock n] is the [n]-th reading. *)
Definition step (clock : nat → JS.Date) (s : AppState * nat) (a : Action)
    : AppState * nat :=
  let '(st, n) := s in
  match a with
  | SetTranscript t => (setTranscript t st, n)
  | SetIsProcessing b => (setIsProcessing b st, n)
  | SetIsProcessed b => (setIsProcessed b st, n)
  | SetRagReady b => (setRagReady b st, n)
  | AddChatMessage m => (addChatMessage m (clock n) (clock (S n)) st, S (S n))
  | UpdateLastMessage u => (updateLastMessage u st, n)
  | SetFactChecking b => (setFactChecking b st, n)
  | SetCurrentFactCheck c => (setCurrentFactCheck c st, n)
  end.

Definition actions (t : list Event) : list Action :=
  omap (λ e, match e with Act a => Some a | _ => None end) t.

Definition calls (t : list Event) : list ApiCall :=
  omap (λ e, match e with Call c => Some c | _ => None end) t.

Definition run_store (clock : nat → JS.Date) (t : list Event) (st : AppState)
    : AppState :=
  (foldl (step clock) (st, 0%nat) (actions t)).1.

End Page.

(* ===================================================================== *)
(** * podsearch-frontend/src/app/workspace/[videoId]/page.tsx              *)
(* ===================================================================== *)

Module Workspace.
Import Api Store Page.

Section Handlers.
(** [String.prototype.trim] *)
Variable trim : string → string.
Variable net : Net.
Variable videoId : string.

Definition processTranscriptForRAG : Eff.M Event unit :=
  Eff.finally
    (Eff.try_catch
       (act (SetIsProcessing true);;
        transcriptResponse ← Eff.await (Call (GetTranscript videoId))
                               (getTranscript net videoId);
        if negb (tr_success transcriptResponse) then
          Eff.throw (Eff.new_Error
            (or_string (metadata_error transcriptResponse)
                       "Failed to extract transcript"))
        else
        match segments transcriptResponse with
        | None | Some [] =>
            Eff.throw (Eff.new_Error "No transcript segments found")
        | Some segs =>
            act (SetTranscript segs);;
            ragResponse ← Eff.await
              (Call (ProcessTranscript videoId {| overwrite := false |}))
              (processTranscript net videoId {| overwrite := false |});
            if proc_success ragResponse then
              act (SetRagReady true);;
              act (SetIsProcessed true);;
              toast success "Video processed successfully!"
            else if opt_includes "already processed" (proc_error ragResponse) then
              act (SetRagReady true);;
              act (SetIsProcessed true);;
              toast success "Video is ready for chat!"
            else
              Eff.throw (Eff.new_Error
                (or_string (proc_error ragResponse)
                           "Failed to process transcript"))
        end)
       (λ error,
          (if bool_decide (Eff.response_status error = Some 404) then
             toast Page.error "Video transcript not found"
           else if includes "transcript" (Eff.message error) then
             toast Page.error ("Transcript error: " +:+ Eff.message error)
           else
             toast Page.error "Failed to process video for AI search");;
          act (SetRagReady false);;
          act (SetIsProcessed false);;
          Eff.throw error))
    (act (SetIsProcessing false)).

Definition factCheckRequest (answer : string) (ragResponse : RAGGenerateResponse)
    : object :=
  [ ("claims", JS.Arr [JS.Str answer]);
    ("video_id", JS.Str videoId);
    ("context", JS.Str (String.concat " " (text <$> sources ragResponse)));
    ("search_depth", JS.Num (JS.of_Z 3));
    ("include_academic", JS.Bool true);
    ("include_news", JS.Bool true) ].

Definition factCheckResponse (answer : string) (ragResponse : RAGGenerateResponse)
    : Eff.M Event unit :=
  Eff.finally
    (Eff.try_catch
       (act (SetFactChecking true);;
        let req := factCheckRequest answer ragResponse in
        factCheckResponse ← Eff.await (Call (VerifyClaims req))
                              (verifyClaims net req);
        if fv_success factCheckResponse
           && (0 <? length (verifications factCheckResponse))%nat then
          act (SetCurrentFactCheck (Some (verifications factCheckResponse)));;
          act (UpdateLastMessage
                 {| u_id := None; u_type := None; u_content := None;
                    u_timestamp := None; u_sources := None;
                    u_factCheck := Some (Some (verifications factCheckResponse));
                    u_isTyping := None |})
        else mret tt)
       (λ _, mret tt))
    (act (SetFactChecking false)).

Definition generateRequest (userMessage : string) : RAGGenerateRequest :=
  {| query := userMessage; top_k := 100 |}.

(** [handleChatSubmit]; [chatInput] is the component's input state and
    [workspace] the store slice of the render the handler belongs to. *)
Definition handleChatSubmit (chatInput : string) (workspace : WorkspaceState)
    : Eff.M Event unit :=
  if bool_decide (trim chatInput = "") || negb (ragReady workspace) then mret tt
  else
    let userMessage := trim chatInput in
    Eff.emit (SetChatInput "");;
    act (AddChatMessage {| nm_type := user; nm_content := userMessage;
                           nm_sources := None; nm_factCheck := None;
                           nm_isTyping := None |});;
    act (AddChatMessage {| nm_type := assistant; nm_content := "";
                           nm_sources := None; nm_factCheck := None;
                           nm_isTyping := Some true |});;
    Eff.try_catch
      (ragResponse ← Eff.await
         (Call (GenerateResponse videoId (generateRequest userMessage)))
         (generateResponse net videoId (generateRequest userMessage));
       if gen_success ragResponse then
         act (UpdateLastMessage
                {| u_id := None; u_type := None;
                   u_content := Some (answer ragResponse);
                   u_timestamp := None;
                   u_sources := Some (Some (sources ragResponse));
                   u_factCheck := None;
                   u_isTyping := Some (Some false) |});;
         if bool_decide (answer ragResponse = "") then mret tt
         else factCheckResponse (answer ragResponse) ragResponse
       else
         Eff.throw (Eff.new_Error
           (or_string (gen_error ragResponse) "Failed to generate response")))
      (λ _,
         act (UpdateLastMessage
                {| u_id := None; u_type := None;
                   u_content := Some "Sorry, I encountered an error while processing your question. Please try again.";
                   u_timestamp := None; u_sources := None;
                   u_factCheck := None;
                   u_isTyping := Some (Some false) |});;
         toast Page.error "Failed to get response").

(** [jumpToTimestamp]; [player] tells whether [playerRef.current] is set. *)
Definition jumpToTimestamp (player : bool) (timestamp : JS.number)
    : Eff.M Event unit :=
  if player then Eff.emit (SeekTo timestamp) else mret tt.

End Handlers.








End Workspace.

(* ===================================================================== *)
(** * client/src/types/api.ts, client/src/app/workspace/[videoId]/page.tsx *)
(* ===================================================================== *)

Module Client.
Import Api Store Page.

(** The class of the verdict badge. *)
Definition verdictBadgeClass (verdict : string) : string :=
  if bool_decide (verdict = "Supported") then "fact-check-verified"
  else if bool_decide (verdict = "Contradicted") then "fact-check-error"
  else "fact-check-unclear".

(** The object [handleVerify] hands to [verifyApi.verifyClaim]. *)
Definition verifyRequest (selection_text : string) : object :=
  [ ("claim_text", JS.Str selection_text);
    ("max_sources", JS.Num (JS.of_Z 3)) ].

(** An entry of [messageSelections]. *)
Record Selection := {
  sel_text : string;
  verifying : bool;
  sel_result : option ClientApi.ClaimVerification
}.

(** [handleVerify]; [selection] is [messageSelections[messageId]]. *)
Definition handleVerify (net : Net) (messageId : string)
    (selection : option Selection) : Eff.M Event unit :=
  match selection with
  | None => mret tt
  | Some sel =>
      if bool_decide (sel_text sel = "") || verifying sel then mret tt
      else
        Eff.emit (SetMessageSelection messageId true None);;
        Eff.try_catch
          (res ← Eff.await (Call (VerifyClaim (verifyRequest (sel_text sel))))
                   (verifyClaim net (verifyRequest (sel_text sel)));
           if ClientApi.vr_success res then
             Eff.emit (SetMessageSelection messageId false (ClientApi.result res));;
             toast success "Claim verified!"
           else
             Eff.throw (Eff.new_Error
               (or_string (ClientApi.vr_error res) "Verification failed")))
          (λ e,
             toast Page.error (or_string (Some (Eff.message e)) "Verification failed");;
             Eff.emit (SetMessageSelection messageId false None))
  end.

Section Handlers.
Variable trim : string → string.
Variable net : Net.
Variable videoId : string.

Definition processTranscriptForRAG : Eff.M Event unit :=
  Eff.finally
    (Eff.try_catch
       (act (SetIsProcessing true);;
        transcriptResponse ← Eff.await (Call (GetTranscript videoId))
                               (getTranscript net videoId);
        if negb (tr_success transcriptResponse) then
          Eff.throw (Eff.new_Error
            (or_string (metadata_error transcriptResponse)
                       "Failed to extract transcript"))
        else
        match segments transcriptResponse with
        | None | Some [] =>
            Eff.throw (Eff.new_Error "No transcript segments found")
        | Some segs =>
            act (SetTranscript segs);;
            ragResponse ← Eff.await
              (Call (ProcessTranscript videoId {| overwrite := false |}))
              (processTranscript net videoId {| overwrite := false |});
            if proc_success ragResponse then
              act (SetRagReady true);;
              act (SetIsProcessed true);;
              Eff.emit (SetRetryAttempts 0);;
              toast success "Video processed successfully!"
            else if opt_includes "Video already processed" (proc_error ragResponse) then
              act (SetRagReady true);;
              act (SetIsProcessed true);;
              Eff.emit (SetRetryAttempts 0);;
              toast success "Video is ready for chat!"
            else
              Eff.throw (Eff.new_Error
                (or_string (proc_error ragResponse)
                           "Failed to process transcript"))
        end)
       (λ error,
          act (SetRagReady false);;
          act (SetIsProcessed false);;
          Eff.throw error))
    (act (SetIsProcessing false)).

Definition generateRequest (userMessage : string) : RAGGenerateRequest :=
  {| query := userMessage; top_k := 100 |}.

Definition handleChatSubmit (chatInput : string) (workspace : WorkspaceState)
    : Eff.M Event unit :=
  if bool_decide (trim chatInput = "") || negb (ragReady workspace)
     || isProcessing workspace then mret tt
  else
    let userMessage := trim chatInput in
    Eff.emit (SetChatInput "");;
    act (AddChatMessage {| nm_type := user; nm_content := userMessage;
                           nm_sources := None; nm_factCheck := None;
                           nm_isTyping := None |});;
    act (AddChatMessage {| nm_type := assistant; nm_content := "";
                           nm_sources := None; nm_factCheck := None;
                           nm_isTyping := Some true |});;
    Eff.try_catch
      (ragResponse ← Eff.await
         (Call (GenerateResponse videoId (generateRequest userMessage)))
         (generateResponse net videoId (generateRequest userMessage));
       if gen_success ragResponse then
         act (UpdateLastMessage
                {| u_id := None; u_type := None;
                   u_content := Some (answer ragResponse);
                   u_timestamp := None;
                   u_sources := Some (Some (sources ragResponse));
                   u_factCheck := None;
                   u_isTyping := Some (Some false) |})
       else
         Eff.throw (Eff.new_Error
           (or_string (gen_error ragResponse) "Failed to generate response")))
      (λ _,
         act (UpdateLastMessage
                {| u_id := None; u_type := None;
                   u_content := Some "Sorry, I encountered an error while processing your question. Please try again.";
                   u_timestamp := None; u_sources := None;
                   u_factCheck := None;
                   u_isTyping := Some (Some false) |});;
         toast Page.error "Failed to get response").
End Handlers.

(** ** [jumpToTimestamp] *)

(** [playerRef.current]: nothing, or a player whose [seekTo] is a function
    and, when called, returns or throws. *)
Inductive PlayerRef :=
| NoPlayer
| Player (seekTo_throws : bool).

(** [trySeek]: the events and the boolean it returns. *)
Definition trySeek (playerRef : PlayerRef) (timestamp : JS.number)
    : list Event * bool :=
  match playerRef with
  | Player false => ([SeekTo timestamp], true)
  | Player true => ([SeekTo timestamp], false)
  | NoPlayer => ([], false)
  end.

(** [playerReady] is the value the render captured; the timer's callback
    reads that same captured value. *)
Definition jumpToTimestamp (playerReady : bool) (playerRef : PlayerRef)
    (timestamp : JS.number) : list Event :=
  if JS.lt0 timestamp || JS.isNaN timestamp then []
  else if playerReady then
    let '(evs, ok) := trySeek playerRef timestamp in
    if ok then evs else evs ++ [SetPendingSeek (Some timestamp)]
  else
    [ SetPendingSeek (Some timestamp);
      SetTimeout 500 (if playerReady then (trySeek playerRef timestamp).1 else []) ].

(** Every [seekTo] a trace asks for, those of timer callbacks included. *)
Fixpoint seeks_of (e : Event) : list JS.number :=
  match e with
  | SeekTo x => [x]
  | SetTimeout _ callback =>
      (fix go (l : list Event) : list JS.number :=
         match l with
         | [] => []
         | e' :: l' => seeks_of e' ++ go l'
         end) callback
  | _ => []
  end.

Definition seeks (t : list Event) : list JS.number := t ≫= seeks_of.

(** ** [renderAnswer] *)

(** The answer text is a JavaScript string: UTF-16 code units. *)
Definition jsstring := list N.

Definition is_digit (c : N) : bool := ((48 <=? c) && (c <=? 57))%N.

(** [\s]: WhiteSpace and LineTerminator of ECMAScript. *)
Definition is_space (c : N) : bool :=
  ((c =? 9) || (c =? 10) || (c =? 11) || (c =? 12) || (c =? 13) || (c =? 32)
   || (c =? 160) || (c =? 5760) || ((8192 <=? c) && (c <=? 8202))
   || (c =? 8232) || (c =? 8233) || (c =? 8239) || (c =? 8287)
   || (c =? 12288) || (c =? 65279))%N.

Inductive Bracket := Square | Round.

Definition opening (b : Bracket) : N :=
  match b with Square => 91 | Round => 40 end%N.
Definition closing (b : Bracket) : N :=
  match b with Square => 93 | Round => 41 end%N.
Definition colon : N := 58%N.

(** *** The regular expression *)

(** The constructs the pattern of [renderAnswer] is written with.  A
    character class comes with its quantifier: [\d{1,2}] is
    [Cls is_digit 1 (Some 2)] and [\s*] is [Cls is_space 0 None]. *)
Inductive regex :=
| Chr (c : N)
| Cls (p : N → bool) (lo : nat) (hi : option nat)
| Cat (r1 r2 : regex)
| Alt (r1 r2 : regex)
| Opt (r : regex)
| Cap (n : nat) (r : regex).

(** The capture groups by number; a group that took no part is [None]. *)
Definition Captures := nat → option jsstring.

Definition no_captures : Captures := λ _, None.

Definition capture (n : nat) (x : jsstring) (caps : Captures) : Captures :=
  λ i, if (i =? n)%nat then Some x else caps i.

(** A greedy quantified class: take a character of the class while the
    upper bound allows, and give characters back one by one when what
    follows does not match. *)
Fixpoint repeat_class {R} (p : N → bool) (lo : nat) (hi : option nat)
    (s : jsstring) (k : jsstring → option R) : option R :=
  let stop := if (lo =? 0)%nat then k s else None in
  match s with
  | c :: s' =>
      if p c && match hi with Some O => false | _ => true end then
        match repeat_class p (pred lo) (pred <$> hi) s' k with
        | Some r => Some r
        | None => stop
        end
      else stop
  | [] => stop
  end.

(** Backtracking matching anchored at the head of [s]; [k] is what has to
    match afterwards. *)
Fixpoint run {R} (r : regex) (s : jsstring) (caps : Captures)
    (k : jsstring → Captures → option R) : option R :=
  match r with
  | Chr c =>
      match s with
      | c' :: s' => if (c' =? c)%N then k s' caps else None
      | [] => None
      end
  | Cls p lo hi => repeat_class p lo hi s (λ s', k s' caps)
  | Cat r1 r2 => run r1 s caps (λ s' caps', run r2 s' caps' k)
  | Alt r1 r2 =>
      match run r1 s caps k with
      | Some x => Some x
      | None => run r2 s caps k
      end
  | Opt r1 =>
      match run r1 s caps k with
      | Some x => Some x
      | None => k s caps
      end
  | Cap n r1 =>
      run r1 s caps
        (λ s' caps', k s' (capture n (take (length s - length s') s) caps'))
  end.

Definition spaces_star : regex := Cls is_space 0 None.
Definition digits_upto (hi : nat) : regex := Cls is_digit 1 (Some hi).

(** One alternative of the pattern: the opening bracket, [\s*], the
    optional [(\d{1,2}):], then [(\d{1,3}):(\d{1,2})], [\s*] and the closing
    bracket; [g1], [g2] and [g3] number its three groups. *)
Definition bracketed (open close : N) (g1 g2 g3 : nat) : regex :=
  Cat (Chr open)
   (Cat spaces_star
    (Cat (Opt (Cat (Cap g1 (digits_upto 2)) (Chr colon)))
     (Cat (Cap g2 (digits_upto 3))
      (Cat (Chr colon)
       (Cat (Cap g3 (digits_upto 2))
        (Cat spaces_star (Chr close))))))).

(** The pattern of [renderAnswer]: square brackets, or round ones. *)
Definition pattern : regex :=
  Alt (bracketed 91 93 1 2 3) (bracketed 40 41 4 5 6).

(** [a ?? b] *)
Definition nullish {A} (a b : option A) : option A :=
  match a with Some x => Some x | None => b end.

(** The capture groups of one match: [match[1] ?? match[4]],
    [match[2] ?? match[5]], [match[3] ?? match[6]]. *)
Record Groups := {
  hoursRaw : option jsstring;
  minutesRaw : jsstring;
  secondsRaw : jsstring
}.

Definition groups_of (caps : Captures) : Groups :=
  {| hoursRaw := nullish (caps 1%nat) (caps 4%nat);
     minutesRaw := default [] (nullish (caps 2%nat) (caps 5%nat));
     secondsRaw := default [] (nullish (caps 3%nat) (caps 6%nat)) |}.

(** The pattern anchored at the head of [s]: the groups and what is left
    after the match. *)
Definition exec_here (s : jsstring) : option (Groups * jsstring) :=
  run pattern s no_captures (λ rest caps, Some (groups_of caps, rest)).

(** *** The pattern, determinised *)

(** What follows is the same pattern written without backtracking: every
    quantified class of the pattern is followed by a character outside the
    class, so that giving characters back never lets a match through. *)

(** [\s*]: what is left after the white space. *)
Fixpoint skip_spaces (s : jsstring) : jsstring :=
  match s with
  | c :: s' => if is_space c then skip_spaces s' else s
  | [] => []
  end.

(** At most [hi] leading digits and what follows them. *)
Fixpoint take_digits (hi : nat) (s : jsstring) : jsstring * jsstring :=
  match hi, s with
  | S hi', c :: s' =>
      if is_digit c then
        let '(ds, rest) := take_digits hi' s' in (c :: ds, rest)
      else ([], s)
  | _, _ => ([], s)
  end.

(** [(\d{1,hi})]: the group and what follows it. *)
Definition digits (hi : nat) (s : jsstring) : option (jsstring * jsstring) :=
  match take_digits hi s with
  | ([], _) => None
  | r => Some r
  end.

(** One literal character. *)
Definition expect (c : N) (s : jsstring) : option jsstring :=
  match s with
  | c' :: s' => if (c' =? c)%N then Some s' else None
  | [] => None
  end.

(** [(\d{1,2}):(\d{1,3}):(\d{1,2})\s*close], the optional group taken. *)
Definition with_hours (b : Bracket) (s : jsstring) : option (Groups * jsstring) :=
  '(h, s) ← digits 2 s;
  s ← expect colon s;
  '(m, s) ← digits 3 s;
  s ← expect colon s;
  '(sec, s) ← digits 2 s;
  s ← expect (closing b) (skip_spaces s);
  Some ({| hoursRaw := Some h; minutesRaw := m; secondsRaw := sec |}, s).

(** [(\d{1,3}):(\d{1,2})\s*close], the optional group skipped. *)
Definition without_hours (b : Bracket) (s : jsstring) : option (Groups * jsstring) :=
  '(m, s) ← digits 3 s;
  s ← expect colon s;
  '(sec, s) ← digits 2 s;
  s ← expect (closing b) (skip_spaces s);
  Some ({| hoursRaw := None; minutesRaw := m; secondsRaw := sec |}, s).

(** One alternative of the pattern, anchored at the head of [s]; the
    greedy optional group is tried first. *)
Definition alternative (b : Bracket) (s : jsstring) : option (Groups * jsstring) :=
  s ← expect (opening b) s;
  let s := skip_spaces s in
  match with_hours b s with
  | Some r => Some r
  | None => without_hours b s
  end.

(** The whole pattern anchored at the head of [s]. *)
Definition match_here (s : jsstring) : option (Groups * jsstring) :=
  match alternative Square s with
  | Some r => Some r
  | None => alternative Round s
  end.

(** [parseInt(raw, 10)] on a run of digits. *)
Definition parseInt (raw : jsstring) : Z :=
  foldl (λ acc c, acc * 10 + (Z.of_N c - 48)) 0 raw.

(** A non-empty string is truthy. *)
Definition truthy (raw : option jsstring) : bool :=
  match raw with
  | Some (_ :: _) => true
  | _ => false
  end.

(** [pad2] *)
Definition pad2 (n : Z) : string :=
  let d := JS.toString n in
  if (String.length d <? 2)%nat then "0" +:+ d else d.

(** The three numbers after the carry of minutes into hours. *)
Definition clock_of (g : Groups) : Z * Z * Z :=
  let hours := if truthy (hoursRaw g) then parseInt (default [] (hoursRaw g)) else 0 in
  let minutes := parseInt (minutesRaw g) in
  let seconds := parseInt (secondsRaw g) in
  if negb (truthy (hoursRaw g)) && bool_decide (60 ≤ minutes)%Z then
    (minutes `div` 60, minutes `mod` 60, seconds)
  else (hours, minutes, seconds).

Definition totalSeconds (g : Groups) : Z :=
  let '(hours, minutes, seconds) := clock_of g in
  hours * 3600 + minutes * 60 + seconds.

Definition label (g : Groups) : string :=
  let '(hours, minutes, seconds) := clock_of g in
  if bool_decide (0 < hours)%Z then
    "[" +:+ JS.toString hours +:+ ":" +:+ pad2 minutes +:+ ":" +:+ pad2 seconds +:+ "]"
  else
    "[" +:+ JS.toString minutes +:+ ":" +:+ pad2 seconds +:+ "]".

(** What [renderAnswer] pushes on [parts]: a slice of the text, or the
    clickable span with the position it was found at, the seconds its
    handlers pass to [jumpToTimestamp], and its label. *)
Inductive Part :=
| Text (slice : jsstring)
| Link (startIndex : nat) (seconds : Z) (lbl : string).

(** The slice between [lastIndex] and the match, kept in reverse. *)
Definition flush (pending : jsstring) : list Part :=
  match pending with
  | [] => []
  | _ => [Text (reverse pending)]
  end.

(** The [while ((match = regex.exec(text)) !== null)] loop.  [s] is the
    text from [index] on; [inside] counts the code units of the current
    match still to step over; [pending] is the text since [lastIndex]. *)
Fixpoint scan (s : jsstring) (index inside : nat) (pending : jsstring) : list Part :=
  match s with
  | [] => flush pending
  | c :: s' =>
      match inside with
      | S inside' => scan s' (S index) inside' pending
      | O =>
          match exec_here s with
          | Some (g, rest) =>
              flush pending
              ++ Link index (totalSeconds g) (label g)
              :: scan s' (S index) (length s - length rest - 1) []
          | None => scan s' (S index) 0 (c :: pending)
          end
      end
  end.

Definition renderAnswer (text : jsstring) : list Part := scan text 0 0 [].

(** The part of an alternative after the optional group:
    [(\d{1,3}):(\d{1,2})\s*close] with its groups numbered [g2] and [g3]. *)
Definition minutes_on (b : Bracket) (g2 g3 : nat) : regex :=
  Cat (Cap g2 (digits_upto 3))
   (Cat (Chr colon)
    (Cat (Cap g3 (digits_upto 2))
     (Cat spaces_star (Chr (closing b))))).

(** A run of [lo] to [hi] digits. *)
Definition digit_run (lo hi : nat) (ds : jsstring) : Prop :=
  Forall (λ c, is_digit c = true) ds ∧ (lo ≤ length ds ≤ hi)%nat.

Definition spaces (ws : jsstring) : Prop := Forall (λ c, is_space c = true) ws.

(** The text of a timestamp token: [\[ H:MM:SS \]], [( H:MM:SS )],
    [\[ M:SS \]] or [( M:SS )], white space allowed inside the brackets. *)
Definition hours_part (g : Groups) : jsstring :=
  match hoursRaw g with Some h => h ++ [colon] | None => [] end.

Definition token (b : Bracket) (ws1 : jsstring) (g : Groups) (ws2 : jsstring)
    : jsstring :=
  opening b :: ws1
  ++ hours_part g ++ minutesRaw g ++ colon :: secondsRaw g
  ++ ws2 ++ [closing b].

Definition token_groups (g : Groups) : Prop :=
  match hoursRaw g with Some h => digit_run 1 2 h | None => True end
  ∧ digit_run 1 3 (minutesRaw g)
  ∧ digit_run 1 2 (secondsRaw g).

(** Text that does not start with a digit, and text that does not start
    with white space. *)
Definition stops_digits (r : jsstring) : Prop :=
  match r with c :: _ => is_digit c = false | [] => True end.

Definition stops_spaces (r : jsstring) : Prop :=
  match r with c :: _ => is_space c = false | [] => True end.

(** The numbers a token denotes; no hours part counts as zero hours. *)
Definition H (g : Groups) : Z := from_option parseInt 0 (hoursRaw g).
Definition M (g : Groups) : Z := parseInt (minutesRaw g).
Definition S_ (g : Groups) : Z := parseInt (secondsRaw g).

(** The click handler of a source button: [jumpToTimestamp(source.timestamp || 0)]. *)
Definition source_click (playerReady : bool) (playerRef : PlayerRef)
    (source : RAGSearchResult) : list Event :=
  jumpToTimestamp playerReady playerRef (JS.or0 (timestamp source)).

(** The click handler of a span. *)
Definition click (playerReady : bool) (playerRef : PlayerRef) (p : Part) : list Event :=
  match p with
  | Link _ secs _ => jumpToTimestamp playerReady playerRef (JS.of_Z secs)
  | Text _ => []
  end.

End Client.

(* ===================================================================== *)
(** * The backend, from the specification                                  *)
(* ===================================================================== *)

(** The service behind [ragApi] and [factVerificationApi] is written in
    Python and its sources are not at hand (only its two README files are).
    Its operations are modelled from the specification, sections 3, 4, 6 and
    7; what the specification leaves to external collaborators (the
    embedding model, the retriever's ranking, the generative model, the
    confidence formula) is a parameter. *)

Module Backend.
Import Api.

Record TranscriptChunk := {
  chunk_text : string;
  start_timestamp : JS.number;
  source_segment_index : Z
}.

Section Rag.
(** An embedding vector, and the embedding model, which may be
    unavailable. *)
Variable Embedding : Type.
Variable embed : string → option Embedding.

Record VideoCollection := {
  entries : list (Embedding * TranscriptChunk);
  last_updated : JS.Date
}.

(** Collections by name; a video has a collection or has none. *)
#[local] Abbreviation Index := (gmap string VideoCollection).

(** Modelled from the spec: the collection naming convention of
    section 6, "deterministic, derived only from video_id"; the README
    gives [transcript_{video_id}]. *)
Definition collection_of (video_id : string) : string :=
  "transcript_" +:+ video_id.

Inductive ProcessOutcome :=
| Stored (n : nat)
| AlreadyProcessed
| EmbeddingBackendError.

(** One embedding per chunk; all of them or none. *)
Definition embed_all (chunks : list TranscriptChunk)
    : option (list (Embedding * TranscriptChunk)) :=
  mapM (λ c, e ← embed (chunk_text c); Some (e, c)) chunks.

(** Embeds [chunks] and writes them as the collection of [video_id], all
    of them or none; an empty chunk set changes nothing. *)
Definition rebuild (now : JS.Date) (index : Index) (video_id : string)
    (chunks : list TranscriptChunk) : Index * ProcessOutcome :=
  match chunks with
  | [] => (index, Stored 0)
  | _ =>
      match embed_all chunks with
      | Some es =>
          (<[collection_of video_id :=
               {| entries := es; last_updated := now |}]> index,
           Stored (length es))
      | None => (index, EmbeddingBackendError)
      end
  end.

(** Modelled from the spec: the Embedding Indexer's
    [process(video_id, chunks, overwrite)] of section 4.2, which is
    missing from the sources. *)
Definition process (now : JS.Date) (index : Index) (video_id : string)
    (chunks : list TranscriptChunk) (overwrite : bool)
    : Index * ProcessOutcome :=
  match index !! collection_of video_id with
  | Some _ =>
      if overwrite then rebuild now index video_id chunks
      else (index, AlreadyProcessed)
  | None => rebuild now index video_id chunks
  end.

(** Modelled from the spec: the body of the answer to
    [POST /process/{video_id}] of section 6, with the taxonomy of
    section 7, where "already processed" is "treated as success, not
    failure". *)
Definition process_response (video_id : string) (o : ProcessOutcome)
    : RAGProcessResponse :=
  match o with
  | Stored n =>
      {| proc_success := true; proc_video_id := video_id;
         chunks_stored := Some (Z.of_nat n);
         collection_name := Some (collection_of video_id);
         proc_error := None |}
  | AlreadyProcessed =>
      {| proc_success := true; proc_video_id := video_id;
         chunks_stored := None;
         collection_name := Some (collection_of video_id);
         proc_error := None |}
  | EmbeddingBackendError =>
      {| proc_success := false; proc_video_id := video_id;
         chunks_stored := None; collection_name := None;
         proc_error := Some "EmbeddingBackendError" |}
  end.

(** Modelled from the spec: [POST /process/{video_id}] with body
    [{overwrite}] of section 6; [chunks_of] is the Chunker run on the
    transcript the service holds for the video. *)
Definition process_endpoint (now : JS.Date) (index : Index)
    (chunks_of : string → list TranscriptChunk)
    (video_id : string) (req : RAGProcessRequest)
    : Index * RAGProcessResponse :=
  let '(index', o) :=
    process now index video_id (chunks_of video_id) (overwrite req) in
  (index', process_response video_id o).

(** The Retriever answers with ranked results or [CollectionNotFound]. *)
Inductive Retrieval :=
| Found (rs : list RAGSearchResult)
| CollectionNotFound.

(** Asking the generative model ends in an answer, an error or a
    timeout. *)
Inductive Generation :=
| Answer (text : string)
| BackendError
| Timeout.

Variable search : Index → string → string → Z → Retrieval.
Variable build_prompt : string → list RAGSearchResult → string.
Variable fallback_answer : list RAGSearchResult → string.

(** Modelled from the spec: the Answer Generator's
    [generate(video_id, query, top_k)] of section 4.4, which is missing
    from the sources.  [llm] is the generative backend, if one is
    configured. *)
Definition generate (llm : option (string → Generation)) (index : Index)
    (video_id query : string) (top_k : Z) : RAGGenerateResponse :=
  match search index video_id query top_k with
  | CollectionNotFound =>
      {| gen_success := false; gen_query := query; gen_video_id := video_id;
         answer := ""; sources := []; retrieval_only := false;
         gen_error := Some "NotProcessedError" |}
  | Found rs =>
      let retrieval_only_answer :=
        {| gen_success := true; gen_query := query; gen_video_id := video_id;
           answer := fallback_answer rs; sources := rs;
           retrieval_only := true; gen_error := None |} in
      match llm with
      | None => retrieval_only_answer
      | Some ask =>
          match ask (build_prompt query rs) with
          | Answer a =>
              {| gen_success := true; gen_query := query;
                 gen_video_id := video_id; answer := a; sources := rs;
                 retrieval_only := false; gen_error := None |}
          | BackendError | Timeout => retrieval_only_answer
          end
      end
  end.

(** Modelled from the spec: [POST /generate/{video_id}] with body
    [{query, top_k}] of section 6. *)
Definition generate_endpoint (llm : option (string → Generation))
    (index : Index) (video_id : string) (req : RAGGenerateRequest)
    : RAGGenerateResponse :=
  generate llm index video_id (query req) (top_k req).

(** No generative backend, or one that fails on this prompt. *)
Definition generation_down (llm : option (string → Generation))
    (prompt : string) : bool :=
  match llm with
  | None => true
  | Some ask =>
      match ask prompt with
      | Answer _ => false
      | BackendError | Timeout => true
      end
  end.
End Rag.

(** ** Scoring *)

Inductive Stance := Supports | Contradicts | Neutral.

#[global] Instance Stance_eq_dec : EqDecision Stance.
Proof. solve_decision. Defined.

(** One collected source with its scores for the claim at hand. *)
Record Evidence := {
  ev_source : VerificationSource;
  relevance : Qc;
  stance : Stance
}.

Definition clamp01 (q : Qc) : Qc :=
  if bool_decide (q < 0)%Qc then 0%Qc
  else if bool_decide (1 < q)%Qc then 1%Qc
  else q.

Definition sum (l : list Qc) : Qc := foldr Qcplus 0%Qc l.

Section Scoring.
(** The relevance threshold, the weight that counts as strong support,
    the fixed confidence of an [Unclear] verdict, and the confidence
    formula before clamping (mean relevance, number of source types,
    consistency). *)
Variable threshold : Qc.
Variable strong : Qc.
Variable unclear_floor : Qc.
Variable confidence_formula : Qc → nat → Qc → Qc.

(** Section 4.6 gives two answers for usable evidence of which no source
    above the threshold supports or contradicts the claim: the last arm of
    the verdict rule ("otherwise Unclear"), and the tie-break (the two
    weights are both zero, hence equal: Partially Verified).  It does not
    say which prevails; [silence_is_a_tie] says that the tie-break does. *)
Variable silence_is_a_tie : bool.

(** A source is usable when it came back with an excerpt. *)
Definition usable (evidence : list Evidence) : list Evidence :=
  filter (λ e, excerpt (ev_source e) ≠ "") evidence.

(** The sources that vote: those above the relevance threshold. *)
Definition voting (evidence : list Evidence) : list Evidence :=
  filter (λ e, (threshold ≤ relevance e)%Qc) (usable evidence).

(** The weight of the voting sources of one stance. *)
Definition weight (s : Stance) (evidence : list Evidence) : Qc :=
  sum (relevance <$> filter (λ e, stance e = s) (voting evidence)).


Definition mean (l : list Qc) : Qc :=
  match l with
  | [] => 0%Qc
  | _ => (sum l / Q2Qc (inject_Z (Z.of_nat (length l))))%Qc
  end.

(** The stance with the larger weight. *)
Definition prevailing (evidence : list Evidence) : Stance :=
  if bool_decide (weight Contradicts evidence < weight Supports evidence)%Qc
  then Supports
  else if bool_decide (weight Supports evidence < weight Contradicts evidence)%Qc
  then Contradicts
  else Neutral.

(** How many kinds of source side with the prevailing stance. *)
Definition agreeing_types (evidence : list Evidence) : nat :=
  length (remove_dups
    (source_type ∘ ev_source <$>
       filter (λ e, stance e = prevailing evidence) (voting evidence))).

(** The share of the voting weight that is on the prevailing side. *)
Definition consistency (evidence : list Evidence) : Qc :=
  let s := weight Supports evidence in
  let c := weight Contradicts evidence in
  if bool_decide (s + c = 0)%Qc then 0%Qc
  else if bool_decide (c < s)%Qc then (s / (s + c))%Qc
  else (c / (s + c))%Qc.

(** Modelled from the spec: the confidence of section 4.6, "a function
    of (mean relevance of sources used, number of independent source
    types agreeing, consistency of their stances) clamped to [0,1]",
    and the fixed floor when nothing usable was found. *)
Definition confidence_of (evidence : list Evidence) : Qc :=
  match usable evidence with
  | [] => unclear_floor
  | _ =>
      clamp01 (confidence_formula
                 (mean (relevance <$> voting evidence))
                 (agreeing_types evidence)
                 (consistency evidence))
  end.

Variable explain : VerificationStatus → list Evidence → string.
Variable reasoning_trace : list Evidence → string.

End Scoring.


End Backend.

(* ===================================================================== *)
(** * podsearch-frontend/src/store/useStore.ts: the other actions         *)
(* ===================================================================== *)

Module StoreRest.
Import Api Store.

(** [set((state) => ({ search: s' }))] and [set((state) => ({ ui: u' }))] *)
Definition set_search (f : AppState → SearchState) (st : AppState) : AppState :=
  {| search := f st; workspace := workspace st; ui := ui st;
     savedInsights := savedInsights st |}.

Definition set_ui (f : AppState → UIState) (st : AppState) : AppState :=
  {| search := search st; workspace := workspace st; ui := f st;
     savedInsights := savedInsights st |}.

Definition setSearchQuery (query : string) : AppState → AppState :=
  set_search (λ state,
    {| ss_query := query; results := results (search state);
       loading := loading (search state); ss_error := ss_error (search state) |}).

Definition setSearchResults (rs : list YouTubeVideo) : AppState → AppState :=
  set_search (λ state,
    {| ss_query := ss_query (search state); results := rs;
       loading := loading (search state); ss_error := ss_error (search state) |}).

Definition setSearchLoading (b : bool) : AppState → AppState :=
  set_search (λ state,
    {| ss_query := ss_query (search state); results := results (search state);
       loading := b; ss_error := ss_error (search state) |}).

Definition setSearchError (e : option string) : AppState → AppState :=
  set_search (λ state,
    {| ss_query := ss_query (search state); results := results (search state);
       loading := loading (search state); ss_error := e |}).

Definition clearSearch : AppState → AppState :=
  set_search (λ _, initialSearchState).

Definition setCurrentVideo (v : option YouTubeVideo) : AppState → AppState :=
  set_workspace (λ state,
    {| currentVideo := v; transcript := transcript (workspace state);
       isProcessing := isProcessing (workspace state);
       isProcessed := isProcessed (workspace state);
       ragReady := ragReady (workspace state);
       chatMessages := chatMessages (workspace state);
       factChecking := factChecking (workspace state);
       currentFactCheck := currentFactCheck (workspace state) |}).

Definition clearWorkspace : AppState → AppState :=
  set_workspace (λ _, initialWorkspaceState).

Definition setTheme (t : Theme) : AppState → AppState :=
  set_ui (λ state,
    {| theme := t; sidebarOpen := sidebarOpen (ui state);
       currentPlayer := currentPlayer (ui state) |}).

Definition setSidebarOpen (b : bool) : AppState → AppState :=
  set_ui (λ state,
    {| theme := theme (ui state); sidebarOpen := b;
       currentPlayer := currentPlayer (ui state) |}).

(** [Partial<AppState['ui']['currentPlayer']>] *)
Record PlayerUpdates := {
  p_isPlaying : option bool;
  p_currentTime : option JS.number;
  p_duration : option JS.number
}.

(** [{ ...p, ...playerState }] *)
Definition merge_player (p : PlayerState) (u : PlayerUpdates) : PlayerState :=
  {| isPlaying := spread (isPlaying p) (p_isPlaying u);
     currentTime := spread (currentTime p) (p_currentTime u);
     duration := spread (duration p) (p_duration u) |}.

Definition setPlayerState (u : PlayerUpdates) : AppState → AppState :=
  set_ui (λ state,
    {| theme := theme (ui state); sidebarOpen := sidebarOpen (ui state);
       currentPlayer := merge_player (currentPlayer (ui state)) u |}).

(** What [persist] writes to storage: [partialize]. *)
Record Persisted := {
  stored_savedInsights : list SavedInsight;
  stored_theme : Theme
}.

Definition partialize (state : AppState) : Persisted :=
  {| stored_savedInsights := savedInsights state;
     stored_theme := theme (ui state) |}.

(** The actions of the store, each with its arguments and the clock
    readings it makes. *)
Inductive StoreAction :=
| SetSearchQuery (query : string)
| SetSearchResults (rs : list YouTubeVideo)
| SetSearchLoading (b : bool)
| SetSearchError (e : option string)
| ClearSearch
| SetCurrentVideo (v : option YouTubeVideo)
| SetTranscript (t : list TranscriptSegment)
| SetIsProcessing (b : bool)
| SetIsProcessed (b : bool)
| SetRagReady (b : bool)
| AddChatMessage (m : NewMessage) (now date : JS.Date)
| UpdateLastMessage (u : MessageUpdates)
| ClearChat
| SetFactChecking (b : bool)
| SetCurrentFactCheck (c : option (list ClaimVerification))
| ClearWorkspace
| SetTheme (t : Theme)
| SetSidebarOpen (b : bool)
| SetPlayerState (u : PlayerUpdates)
| AddSavedInsight (i : NewInsight) (now : JS.Date) (iso : string)
| RemoveSavedInsight (id : string)
| ClearSavedInsights.

Definition dispatch (a : StoreAction) : AppState → AppState :=
  match a with
  | SetSearchQuery q => setSearchQuery q
  | SetSearchResults rs => setSearchResults rs
  | SetSearchLoading b => setSearchLoading b
  | SetSearchError e => setSearchError e
  | ClearSearch => clearSearch
  | SetCurrentVideo v => setCurrentVideo v
  | SetTranscript t => setTranscript t
  | SetIsProcessing b => setIsProcessing b
  | SetIsProcessed b => setIsProcessed b
  | SetRagReady b => setRagReady b
  | AddChatMessage m now date => addChatMessage m now date
  | UpdateLastMessage u => updateLastMessage u
  | ClearChat => clearChat
  | SetFactChecking b => setFactChecking b
  | SetCurrentFactCheck c => setCurrentFactCheck c
  | ClearWorkspace => clearWorkspace
  | SetTheme t => setTheme t
  | SetSidebarOpen b => setSidebarOpen b
  | SetPlayerState u => setPlayerState u
  | AddSavedInsight i now iso => addSavedInsight i now iso
  | RemoveSavedInsight id => removeSavedInsight id
  | ClearSavedInsights => clearSavedInsights
  end.

(** The four top-level keys of the state. *)
Inductive Slice := SearchSlice | WorkspaceSlice | UiSlice | SavedSlice.

#[global] Instance Slice_eq_dec : EqDecision Slice.
Proof. solve_decision. Defined.

(** The key of the object an action hands to [set]. *)
Definition slice_of (a : StoreAction) : Slice :=
  match a with
  | SetSearchQuery _ | SetSearchResults _ | SetSearchLoading _
  | SetSearchError _ | ClearSearch => SearchSlice
  | SetCurrentVideo _ | SetTranscript _ | SetIsProcessing _ | SetIsProcessed _
  | SetRagReady _ | AddChatMessage _ _ _ | UpdateLastMessage _ | ClearChat
  | SetFactChecking _ | SetCurrentFactCheck _ | ClearWorkspace => WorkspaceSlice
  | SetTheme _ | SetSidebarOpen _ | SetPlayerState _ => UiSlice
  | AddSavedInsight _ _ _ | RemoveSavedInsight _ | ClearSavedInsights => SavedSlice
  end.

(** [{ ...u1, ...u2 }] on two [Partial<ChatMessage>]. *)
Definition merge_updates (u1 u2 : MessageUpdates) : MessageUpdates :=
  {| u_id := spread (u_id u1) (Some <$> u_id u2);
     u_type := spread (u_type u1) (Some <$> u_type u2);
     u_content := spread (u_content u1) (Some <$> u_content u2);
     u_timestamp := spread (u_timestamp u1) (Some <$> u_timestamp u2);
     u_sources := spread (u_sources u1) (Some <$> u_sources u2);
     u_factCheck := spread (u_factCheck u1) (Some <$> u_factCheck u2);
     u_isTyping := spread (u_isTyping u1) (Some <$> u_isTyping u2) |}.

End StoreRest.

(* ===================================================================== *)
(** * The workspace pages: initialisation, retries and the player          *)
(* ===================================================================== *)

Module PageRest.
Import Api Store StoreRest Page.

(** The calls of the pages beyond those of [Page.Event]: the store action
    [setCurrentVideo], the [useState] setters of the components, and
    [setTimeout] with what its callback does when it fires. *)
Inductive Local :=
| Ev (e : Event)
| SetCurrentVideo (v : option YouTubeVideo)
| SetIsInitializing (b : bool)
| SetIsLoading (b : bool)
| SetInitializationError (e : option string)
| SetHasInitialized (b : bool)
| IncRetryAttempts
| SetPlayerReady (b : bool)
| After (ms : Z) (callback : list Local).

(** A handler of [Page] called from one of the handlers below. *)
Definition lift {A} (m : Eff.M Event A) : Eff.M Local A := (Ev <$> m.1, m.2).

(** What [localStorage.getItem('recentSearchResults')] and [JSON.parse]
    give: no item (or the empty string, which is as falsy), something that
    makes the [try] block throw (storage that cannot be read, text that is
    not JSON, a value without [find]), or a list of videos. *)
Inductive Recent :=
| NoItem
| Unreadable
| Results (vs : list YouTubeVideo).

(** The placeholder [fetchVideoData] builds. *)
Definition placeholder (videoId : string) : YouTubeVideo :=
  {| yv_id := videoId;
     yv_title := "Loading...";
     yv_duration := Some (JS.of_Z 0);
     yv_view_count := Some (JS.of_Z 0);
     yv_upload_date := Some "";
     yv_uploader := Some "";
     yv_description := Some "";
     yv_thumbnail_url :=
       Some ("https://img.youtube.com/vi/" +:+ videoId +:+ "/maxresdefault.jpg");
     yv_available_languages := [];
     yv_has_captions := true;
     yv_url := "https://www.youtube.com/watch?v=" +:+ videoId |}.

(** [fetchVideoData], the same in both pages; [None] is its [null]. *)
Definition fetchVideoData (videoId : string) (recent : Recent)
    : option YouTubeVideo :=
  match recent with
  | Unreadable => None
  | NoItem => Some (placeholder videoId)
  | Results results =>
      match list_find (λ v, yv_id v = videoId) results with
      | Some (_, foundVideo) => Some foundVideo
      | None => Some (placeholder videoId)
      end
  end.

(** [initializeWorkspace] of podsearch-frontend; [isInitializing] is the
    value of the render the handler belongs to.  [retryProcessing] is the
    same call. *)
Definition initializeWorkspace (net : Net) (videoId : string) (recent : Recent)
    (isInitializing : bool) : Eff.M Local unit :=
  if isInitializing then mret tt
  else
    Eff.finally
      (Eff.try_catch
         (Eff.emit (SetIsInitializing true);;
          Eff.emit (SetIsLoading true);;
          match fetchVideoData videoId recent with
          | None => Eff.throw (Eff.new_Error "Failed to fetch video data")
          | Some videoData =>
              Eff.emit (SetCurrentVideo (Some videoData));;
              lift (Workspace.processTranscriptForRAG net videoId)
          end)
         (λ _,
            Eff.emit (Ev (Toast Page.error "Failed to initialize workspace"));;
            Eff.emit (SetCurrentVideo None);;
            Eff.emit (Ev (Act (SetRagReady false)));;
            Eff.emit (Ev (Act (SetIsProcessed false)))))
      (Eff.emit (SetIsInitializing false);;
       Eff.emit (SetIsLoading false)).

(** [retryTranscriptProcessing] of the client *)
Definition retryTranscriptProcessing (net : Net) (videoId : string)
    : Eff.M Local unit :=
  Eff.try_catch (lift (Client.processTranscriptForRAG net videoId))
    (λ _, mret tt).

(** [manualRetry] of the client *)
Definition manualRetry (net : Net) (videoId : string) : Eff.M Local unit :=
  Eff.emit (Ev (SetRetryAttempts 0));;
  retryTranscriptProcessing net videoId.

(** The callback [initializeWorkspace] of the client hands to
    [setTimeout]; [workspace] is the store slice of the render that ran
    [initializeWorkspace], and [later] what the API layer answers when the
    timer fires. *)
Definition retry_callback (later : Net) (videoId : string)
    (workspace : WorkspaceState) : list Local :=
  if negb (ragReady workspace) && negb (isProcessing workspace) then
    IncRetryAttempts :: Eff.trace (retryTranscriptProcessing later videoId)
  else [].

(** [initializeWorkspace] of the client; [isInitializing], [retryAttempts]
    and [workspace] are the values of the render the handler belongs to. *)
Definition initializeWorkspace_client (net later : Net) (videoId : string)
    (recent : Recent) (isInitializing : bool) (retryAttempts : Z)
    (workspace : WorkspaceState) : Eff.M Local unit :=
  if isInitializing then mret tt
  else
    Eff.finally
      (Eff.try_catch
         (Eff.emit (SetIsInitializing true);;
          Eff.emit (SetIsLoading true);;
          Eff.emit (SetInitializationError None);;
          match fetchVideoData videoId recent with
          | None => Eff.throw (Eff.new_Error "Failed to fetch video data")
          | Some videoData =>
              Eff.emit (SetCurrentVideo (Some videoData));;
              Eff.emit (SetHasInitialized true);;
              Eff.try_catch
                (lift (Client.processTranscriptForRAG net videoId))
                (λ _,
                   Eff.emit (Ev (Act (SetRagReady false)));;
                   Eff.emit (Ev (Act (SetIsProcessed false)));;
                   if bool_decide (retryAttempts < 3) then
                     Eff.emit (After (2000 * (retryAttempts + 1))
                                 (retry_callback later videoId workspace))
                   else mret tt)
          end)
         (λ error,
            Eff.emit (SetInitializationError
                        (Some (or_string (Some (Eff.message error))
                                 "Failed to initialize workspace")));;
            Eff.emit (Ev (Toast Page.error "Could not load video information"));;
            Eff.emit (Ev (Act (SetRagReady false)));;
            Eff.emit (Ev (Act (SetIsProcessed false)));;
            Eff.emit (SetHasInitialized true)))
      (Eff.emit (SetIsInitializing false);;
       Eff.emit (SetIsLoading false)).

(** [onReady] of the player in the client. *)
Definition onReady (pendingSeek : option JS.number) (playerRef : Client.PlayerRef)
    : list Local :=
  SetPlayerReady true
  :: match pendingSeek with
     | Some t =>
         match playerRef with
         | Client.Player _ => [Ev (SeekTo t)]
         | Client.NoPlayer => []
         end
         ++ [Ev (SetPendingSeek None)]
     | None => []
     end.

(** What a page shows: the store and the [useState] cells of the
    component; [reads] counts the clock readings made so far. *)
Record View := {
  store : AppState;
  reads : nat;
  isInitializing : bool;
  isLoading : bool;
  initializationError : option string;
  hasInitialized : bool;
  retryAttempts : Z;
  pendingSeek : option JS.number;
  playerReady : bool;
  seeked : list JS.number
}.

(** One call applied to the view.  A timer changes nothing when it is set. *)
Definition apply_local (clock : nat → JS.Date) (v : View) (e : Local) : View :=
  let with_store s n :=
    {| store := s; reads := n; isInitializing := isInitializing v;
       isLoading := isLoading v; initializationError := initializationError v;
       hasInitialized := hasInitialized v; retryAttempts := retryAttempts v;
       pendingSeek := pendingSeek v; playerReady := playerReady v;
       seeked := seeked v |} in
  match e with
  | Ev (Act a) =>
      let '(s, n) := step clock (store v, reads v) a in with_store s n
  | Ev (SetRetryAttempts n) =>
      {| store := store v; reads := reads v; isInitializing := isInitializing v;
         isLoading := isLoading v; initializationError := initializationError v;
         hasInitialized := hasInitialized v; retryAttempts := n;
         pendingSeek := pendingSeek v; playerReady := playerReady v;
         seeked := seeked v |}
  | Ev (SetPendingSeek p) =>
      {| store := store v; reads := reads v; isInitializing := isInitializing v;
         isLoading := isLoading v; initializationError := initializationError v;
         hasInitialized := hasInitialized v; retryAttempts := retryAttempts v;
         pendingSeek := p; playerReady := playerReady v; seeked := seeked v |}
  | Ev (SeekTo t) =>
      {| store := store v; reads := reads v; isInitializing := isInitializing v;
         isLoading := isLoading v; initializationError := initializationError v;
         hasInitialized := hasInitialized v; retryAttempts := retryAttempts v;
         pendingSeek := pendingSeek v; playerReady := playerReady v;
         seeked := seeked v ++ [t] |}
  | Ev _ => v
  | SetCurrentVideo c => with_store (setCurrentVideo c (store v)) (reads v)
  | SetIsInitializing b =>
      {| store := store v; reads := reads v; isInitializing := b;
         isLoading := isLoading v; initializationError := initializationError v;
         hasInitialized := hasInitialized v; retryAttempts := retryAttempts v;
         pendingSeek := pendingSeek v; playerReady := playerReady v;
         seeked := seeked v |}
  | SetIsLoading b =>
      {| store := store v; reads := reads v; isInitializing := isInitializing v;
         isLoading := b; initializationError := initializationError v;
         hasInitialized := hasInitialized v; retryAttempts := retryAttempts v;
         pendingSeek := pendingSeek v; playerReady := playerReady v;
         seeked := seeked v |}
  | SetInitializationError err =>
      {| store := store v; reads := reads v; isInitializing := isInitializing v;
         isLoading := isLoading v; initializationError := err;
         hasInitialized := hasInitialized v; retryAttempts := retryAttempts v;
         pendingSeek := pendingSeek v; playerReady := playerReady v;
         seeked := seeked v |}
  | SetHasInitialized b =>
      {| store := store v; reads := reads v; isInitializing := isInitializing v;
         isLoading := isLoading v; initializationError := initializationError v;
         hasInitialized := b; retryAttempts := retryAttempts v;
         pendingSeek := pendingSeek v; playerReady := playerReady v;
         seeked := seeked v |}
  | IncRetryAttempts =>
      {| store := store v; reads := reads v; isInitializing := isInitializing v;
         isLoading := isLoading v; initializationError := initializationError v;
         hasInitialized := hasInitialized v; retryAttempts := retryAttempts v + 1;
         pendingSeek := pendingSeek v; playerReady := playerReady v;
         seeked := seeked v |}
  | SetPlayerReady b =>
      {| store := store v; reads := reads v; isInitializing := isInitializing v;
         isLoading := isLoading v; initializationError := initializationError v;
         hasInitialized := hasInitialized v; retryAttempts := retryAttempts v;
         pendingSeek := pendingSeek v; playerReady := b; seeked := seeked v |}
  | After _ _ => v
  end.

Definition run_view (clock : nat → JS.Date) (t : list Local) (v : View) : View :=
  foldl (apply_local clock) v t.

(** The timers a trace sets. *)
Definition timers (t : list Local) : list (Z * list Local) :=
  omap (λ e, match e with After ms cb => Some (ms, cb) | _ => None end) t.

(** ** [messageSelections] of the client *)

(** A value of [messageSelections]; the spread of a missing entry leaves
    [text] undefined. *)
Record Entry := {
  e_text : option string;
  e_verifying : bool;
  e_result : option ClientApi.ClaimVerification
}.

Abbreviation Selections := (gmap string Entry).


(** [onMouseUp] of an answer; [sel] is [window.getSelection?.()?.toString()
    || ''] and [trim] is [String.prototype.trim]. *)
Definition onMouseUp (trim : string → string) (sel : string)
    (messageId : string) (prev : Selections) : Selections :=
  let selectedText := trim sel in
  if bool_decide (selectedText = "") then prev
  else <[messageId := {| e_text := Some selectedText;
                         e_verifying := false;
                         e_result := None |}]> prev.

(** The [Clear] button. *)
Definition clearSelection (messageId : string) (prev : Selections)
    : Selections :=
  delete messageId prev.

(** [messageSelections[messageId]] as [handleVerify] reads it: a [text]
    that is undefined is as falsy as the empty one. *)
Definition selection_of (selections : Selections) (messageId : string)
    : option Client.Selection :=
  (λ e, {| Client.sel_text := default "" (e_text e);
           Client.verifying := e_verifying e;
           Client.sel_result := e_result e |}) <$> selections !! messageId.


(** ** What [renderAnswer] returns *)

(** The [startIndex] of the spans, in the order of [parts]. *)
Definition link_starts (parts : list Client.Part) : list nat :=
  omap (λ p, match p with
             | Client.Link startIndex _ _ => Some startIndex
             | Client.Text _ => None
             end) parts.

(** The code units of a string of ASCII characters. *)
Definition code_units (s : string) : Client.jsstring :=
  Ascii.N_of_ascii <$> String.list_ascii_of_string s.

(** Whether [n.toString()] and [pad2 n] are runs of digits that
    [parseInt] reads back as [n], of the lengths the pattern allows. *)
Definition prints_back (n : Z) : bool :=
  let shown := code_units (JS.toString n) in
  let padded := code_units (Client.pad2 n) in
  forallb Client.is_digit shown && forallb Client.is_digit padded
  && bool_decide (Client.parseInt shown = n)
  && bool_decide (Client.parseInt padded = n)
  && bool_decide (1 ≤ length shown ≤ 3)%nat
  && bool_decide (2 ≤ length padded ≤ 3)%nat
  && (bool_decide (100 ≤ n)
      || bool_decide (length shown ≤ 2)%nat && bool_decide (length padded = 2%nat)).

(** ** The verification service as the client sees it *)

(** The API layer of a client of which only [verifyApi.verifyClaim] is up,
    answering every request with [reply]. *)
Definition verifying (reply : Eff.Reply ClientApi.VerifyResponse) : Net :=
  {| getTranscript := getTranscript offline;
     processTranscript := processTranscript offline;
     generateResponse := generateResponse offline;
     verifyClaims := verifyClaims offline;
     verifyClaim := λ _, reply |}.





(** ** What else happens while a handler awaits *)

(** The store actions that leave [workspace.chatMessages] as it is. *)
Definition keeps_chat (a : StoreAction) : bool :=
  match a with
  | StoreRest.AddChatMessage _ _ _ | StoreRest.UpdateLastMessage _
  | StoreRest.ClearChat | StoreRest.ClearWorkspace => false
  | _ => true
  end.

(** One event of a handler applied to the store, other code running
    while the handler awaits: [during c] are the store actions that
    other handlers dispatch between the call [c] and its reply. *)
Definition step_during (clock : nat → JS.Date)
    (during : ApiCall → list StoreAction) (s : AppState * nat) (e : Event)
    : AppState * nat :=
  match e with
  | Act a => step clock s a
  | Call c => (foldl (λ st a, dispatch a st) s.1 (during c), s.2)
  | _ => s
  end.

Definition run_store_during (clock : nat → JS.Date)
    (during : ApiCall → list StoreAction) (t : list Event) (st : AppState)
    : AppState :=
  (foldl (step_during clock during) (st, 0%nat) t).1.

(** The toasts of a trace. *)
Definition toasts (t : list Event) : list (ToastKind * string) :=
  omap (λ e, match e with Toast k msg => Some (k, msg) | _ => None end) t.

End PageRest.

(* ===================================================================== *)
(** * The search page, the home page and the page of saved insights       *)
(* ===================================================================== *)

(** Arithmetic and comparison of [number], as the search page uses them. *)
Module Num.
Import JS.

(** [x - y] *)
Definition sub (x y : number) : number :=
  match x, y with
  | NaN, _ | _, NaN => NaN
  | PosInfinity, PosInfinity | NegInfinity, NegInfinity => NaN
  | PosInfinity, _ => PosInfinity
  | NegInfinity, _ => NegInfinity
  | Fin _, PosInfinity => NegInfinity
  | Fin _, NegInfinity => PosInfinity
  | Fin a, Fin b => Fin (a - b)%Qc
  end.

(** [x < y] *)
Definition ltb (x y : number) : bool :=
  match x, y with
  | NaN, _ | _, NaN => false
  | _, NegInfinity => false
  | NegInfinity, _ => true
  | PosInfinity, _ => false
  | Fin _, PosInfinity => true
  | Fin a, Fin b => bool_decide (a < b)%Qc
  end.

(** [x >= y] *)
Definition geb (x y : number) : bool :=
  match x, y with
  | NaN, _ | _, NaN => false
  | _, _ => negb (ltb x y)
  end.

Definition finite (x : number) : Prop :=
  match x with Fin _ => True | _ => False end.

#[global] Instance number_eq_dec : EqDecision number.
Proof. solve_decision. Defined.

(** [Array.prototype.sort(compare)].  The sort is stable, and for a
    comparator that orders the elements consistently its result is
    determined; it is computed here by insertion.  An element moves
    behind another only when [compare] of the two is positive. *)
Fixpoint sort_insert {A} (compare : A → A → number) (x : A) (l : list A)
    : list A :=
  match l with
  | [] => [x]
  | y :: l' =>
      if ltb (of_Z 0) (compare x y) then y :: sort_insert compare x l'
      else x :: l
  end.

Definition sort {A} (compare : A → A → number) (l : list A) : list A :=
  foldr (sort_insert compare) [] l.

(** By its [key], [a] is not to come after [b]. *)
Definition not_below {A} (key : A → number) (a b : A) : Prop :=
  ltb (key a) (key b) = false.

End Num.

Module SearchPage.
Import Api Store StoreRest.

(** What the search page and the home page do, in order. *)
Inductive Event :=
| Do (a : StoreAction)
| Toast (k : Page.ToastKind) (msg : string)
| SearchVideos (query : string) (max_results : Z)
| SetIsSearching (b : bool)
| SetImporting (id : option string)
| Push (path : string).

(** [YouTubeSearchResponse] *)
Record YouTubeSearchResponse := {
  sr_results : list YouTubeVideo;
  sr_query : string
}.

Section Handlers.
(** [String.prototype.trim] and [youtubeApi.searchVideos] *)
Variable trim : string → string.
Variable searchVideos : string → Z → Eff.Reply YouTubeSearchResponse.

(** [handleSearch] of the search page *)
Definition handleSearch (query : string) : Eff.M Event unit :=
  if bool_decide (trim query = "") then
    Eff.emit (Toast Page.error "Please enter a search query")
  else
    Eff.emit (Do (SetSearchLoading true));;
    Eff.emit (Do (SetSearchError None));;
    Eff.emit (Do (SetSearchQuery query));;
    Eff.finally
      (Eff.try_catch
         (results ← Eff.await (SearchVideos query 20) (searchVideos query 20);
          Eff.emit (Do (SetSearchResults (sr_results results))))
         (λ _,
            Eff.emit (Do (SetSearchError (Some "Failed to search. Please try again.")));;
            Eff.emit (Toast Page.error "Search failed. Please try again.")))
      (Eff.emit (Do (SetSearchLoading false))).

(** [handleSearch] of the home page *)
Definition handleSearch_home (query : string) : Eff.M Event unit :=
  if bool_decide (trim query = "") then
    Eff.emit (Toast Page.error "Please enter a search query")
  else
    Eff.emit (SetIsSearching true);;
    Eff.emit (Do (SetSearchLoading true));;
    Eff.emit (Do (SetSearchQuery query));;
    Eff.finally
      (Eff.try_catch
         (results ← Eff.await (SearchVideos query 10) (searchVideos query 10);
          Eff.emit (Do (SetSearchResults (sr_results results)));;
          Eff.emit (Push "/search"))
         (λ _, Eff.emit (Toast Page.error "Failed to search. Please try again.")))
      (Eff.emit (SetIsSearching false);;
       Eff.emit (Do (SetSearchLoading false))).
End Handlers.

(** The store after the actions of a trace. *)
Definition run_store (t : list Event) (st : AppState) : AppState :=
  foldl (λ s e, match e with Do a => dispatch a s | _ => s end) st t.

Definition requests (t : list Event) : list (string * Z) :=
  omap (λ e, match e with SearchVideos q n => Some (q, n) | _ => None end) t.

Definition pushes (t : list Event) : list string :=
  omap (λ e, match e with Push p => Some p | _ => None end) t.

Definition toasts (t : list Event) : list (Page.ToastKind * string) :=
  omap (λ e, match e with Toast k msg => Some (k, msg) | _ => None end) t.

Section Results.
(** [new Date(s).getTime()]: the time value of a date string, [NaN] when
    it is not a date. *)
Variable Date_getTime : string → JS.number.

(** [new Date(video.upload_date || 0).getTime()] *)
Definition uploaded (video : YouTubeVideo) : JS.number :=
  match yv_upload_date video with
  | None | Some "" => JS.of_Z 0
  | Some s => Date_getTime s
  end.

(** The callback of [filtered.filter] *)
Definition in_duration (filterBy : string) (video : YouTubeVideo) : bool :=
  let duration := JS.or0 (yv_duration video) in
  if bool_decide (filterBy = "short") then Num.ltb duration (JS.of_Z 600)
  else if bool_decide (filterBy = "medium") then
    Num.geb duration (JS.of_Z 600) && Num.ltb duration (JS.of_Z 1800)
  else if bool_decide (filterBy = "long") then Num.geb duration (JS.of_Z 1800)
  else true.

(** The callback of [filtered.sort] *)
Definition compare (sortBy : string) (a b : YouTubeVideo) : JS.number :=
  if bool_decide (sortBy = "upload_date") then Num.sub (uploaded b) (uploaded a)
  else if bool_decide (sortBy = "view_count") then
    Num.sub (JS.or0 (yv_view_count b)) (JS.or0 (yv_view_count a))
  else if bool_decide (sortBy = "duration") then
    Num.sub (JS.or0 (yv_duration b)) (JS.or0 (yv_duration a))
  else JS.of_Z 0.

Definition getFilteredAndSortedResults (results : list YouTubeVideo)
    (filterBy sortBy : string) : list YouTubeVideo :=
  let filtered :=
    if bool_decide (filterBy ≠ "all") then
      filter (λ video, in_duration filterBy video = true) results
    else results in
  Num.sort (compare sortBy) filtered.

(** The number [compare] goes by. *)
Definition sort_key (sortBy : string) (video : YouTubeVideo) : JS.number :=
  if bool_decide (sortBy = "upload_date") then uploaded video
  else if bool_decide (sortBy = "view_count") then JS.or0 (yv_view_count video)
  else if bool_decide (sortBy = "duration") then JS.or0 (yv_duration video)
  else JS.of_Z 0.
End Results.

End SearchPage.

Module SavedPage.
Import Api Store.

(** [formatTimeAgo]; [now] and [date] are the time values of [new Date()]
    and of a [date] that is valid. *)
Definition formatTimeAgo (now date : JS.Date) : string :=
  let diff := now - date in
  let minutes := diff `div` 60000 in
  let hours := diff `div` 3600000 in
  let days := diff `div` 86400000 in
  if bool_decide (minutes < 60) then JS.toString minutes +:+ "m ago"
  else if bool_decide (hours < 24) then JS.toString hours +:+ "h ago"
  else JS.toString days +:+ "d ago".

Inductive FilterBy := all | verified | unverified.

#[global] Instance FilterBy_eq_dec : EqDecision FilterBy.
Proof. solve_decision. Defined.

#[global] Instance VerificationStatus_eq_dec : EqDecision VerificationStatus.
Proof. solve_decision. Defined.

Section Filter.
(** [String.prototype.toLowerCase] *)
Variable toLowerCase : string → string.

(** The callback of [savedInsights.filter] *)
Definition shown (searchQuery : string) (filterBy : FilterBy)
    (insight : SavedInsight) : bool :=
  let matchesSearch :=
    let searchLower := toLowerCase searchQuery in
    includes searchLower (toLowerCase (si_query insight))
    || includes searchLower (toLowerCase (si_answer insight))
    || includes searchLower (toLowerCase (videoTitle insight)) in
  if negb (bool_decide (searchQuery = "")) && negb matchesSearch then false
  else if bool_decide (filterBy ≠ all) then
    match si_factCheck insight with
    | None | Some [] => bool_decide (filterBy = unverified)
    | Some facts =>
        let hasVerified :=
          existsb (λ fact, bool_decide (status fact = Verified)) facts in
        if bool_decide (filterBy = verified) then hasVerified
        else negb hasVerified
    end
  else true.

Definition filteredInsights (savedInsights : list SavedInsight)
    (searchQuery : string) (filterBy : FilterBy) : list SavedInsight :=
  filter (λ insight, shown searchQuery filterBy insight = true) savedInsights.
End Filter.

End SavedPage.

(* ===================================================================== *)
(** * The store: chat messages and saved insights                          *)
(* ===================================================================== *)

Section StoreFacts.
Import Api Store.

Lemma set_workspace_id (st : AppState) : set_workspace workspace st = st.
Proof. by destruct st. Qed.

Lemma with_chatMessages_id (w : WorkspaceState) :
  with_chatMessages w (chatMessages w) = w.
Proof. by destruct w. Qed.

Lemma merge_no_updates (m : ChatMessage) : merge_message m no_updates = m.
Proof. by destruct m. Qed.

(** The assignment [messages[messages.length - 1] = x] on a list that ends
    in [lastm]. *)
Lemma insert_last {A} (init : list A) (lastm x : A) :
  <[(length (init ++ [lastm]) - 1)%nat := x]> (init ++ [lastm]) = init ++ [x].
Proof.
  rewrite length_app; simpl.
  replace (length init + 1 - 1)%nat with (length init + 0)%nat by lia.
  by rewrite insert_app_r.
Qed.

Lemma lookup_last {A} (init : list A) (lastm : A) :
  (init ++ [lastm]) !! (length (init ++ [lastm]) - 1)%nat = Some lastm.
Proof.
  rewrite length_app; simpl.
  replace (length init + 1 - 1)%nat with (length init) by lia.
  by apply list_lookup_middle.
Qed.

Lemma updateLastMessage_empty (updates : MessageUpdates) (st : AppState) :
  chatMessages (workspace st) = [] → updateLastMessage updates st = st.
Proof.
  intros Hnil. unfold updateLastMessage, set_workspace.
  rewrite Hnil; simpl. rewrite <- Hnil, with_chatMessages_id.
  by destruct st.
Qed.

Lemma updateLastMessage_snoc (updates : MessageUpdates) (st : AppState)
    (init : list ChatMessage) (lastm : ChatMessage) :
  chatMessages (workspace st) = init ++ [lastm] →
  updateLastMessage updates st
  = set_workspace (λ s, with_chatMessages (workspace s)
                          (init ++ [merge_message lastm updates])) st.
Proof.
  intros Hm. unfold updateLastMessage, set_workspace. simpl.
  rewrite Hm, lookup_last, insert_last.
  replace (0 <? length (init ++ [lastm]))%nat with true; [done|].
  symmetry. apply Nat.ltb_lt. rewrite length_app; simpl; lia.
Qed.

(** C8. [addChatMessage] appends exactly one message and keeps the
    existing ones; [updateLastMessage] on an empty chat leaves the store
    as it is, and otherwise merges the updates into the last message only:
    the earlier messages, the other members of [workspace] and the other
    members of the store stay as they were. *)
Theorem chat_messages_frame :
  (∀ (message : NewMessage) (now date : JS.Date) (st : AppState),
      ∃ newMessage,
        addChatMessage message now date st
        = set_workspace (λ s, with_chatMessages (workspace s)
                                (chatMessages (workspace s) ++ [newMessage])) st
        ∧ chatMessages (workspace (addChatMessage message now date st))
          = chatMessages (workspace st) ++ [newMessage]
        ∧ length (chatMessages (workspace (addChatMessage message now date st)))
          = S (length (chatMessages (workspace st)))
        ∧ id newMessage = JS.toString now
        ∧ type newMessage = nm_type message
        ∧ content newMessage = nm_content message)
  ∧ (∀ (updates : MessageUpdates) (st : AppState),
      chatMessages (workspace st) = [] →
      updateLastMessage updates st = st)
  ∧ (∀ (updates : MessageUpdates) (st : AppState) init lastm,
      chatMessages (workspace st) = init ++ [lastm] →
      let st' := updateLastMessage updates st in
      chatMessages (workspace st') = init ++ [merge_message lastm updates]
      ∧ (∀ i, (i < length init)%nat →
              chatMessages (workspace st') !! i = chatMessages (workspace st) !! i)
      ∧ length (chatMessages (workspace st')) = length (chatMessages (workspace st))
      ∧ currentVideo (workspace st') = currentVideo (workspace st)
      ∧ transcript (workspace st') = transcript (workspace st)
      ∧ isProcessing (workspace st') = isProcessing (workspace st)
      ∧ isProcessed (workspace st') = isProcessed (workspace st)
      ∧ ragReady (workspace st') = ragReady (workspace st)
      ∧ factChecking (workspace st') = factChecking (workspace st)
      ∧ currentFactCheck (workspace st') = currentFactCheck (workspace st)
      ∧ search st' = search st
      ∧ ui st' = ui st
      ∧ savedInsights st' = savedInsights st).
Proof.
  split; [|split].
  - intros message now date st. eexists. split; [reflexivity|].
    repeat split; simpl. rewrite length_app; simpl; lia.
  - apply updateLastMessage_empty.
  - intros updates st init lastm Hm st'. subst st'.
    rewrite (updateLastMessage_snoc _ _ _ _ Hm). simpl.
    repeat split.
    + intros i Hi. rewrite Hm, !lookup_app_l by done. done.
    + rewrite Hm, !length_app. done.
Qed.

Lemma chat_messages_frame_witness :
  updateLastMessage no_updates initialState = initialState
  ∧ chatMessages (workspace
      (updateLastMessage
         {| u_id := None; u_type := None; u_content := Some "hi";
            u_timestamp := None; u_sources := None; u_factCheck := None;
            u_isTyping := Some (Some false) |}
         (addChatMessage
            {| nm_type := assistant; nm_content := ""; nm_sources := None;
               nm_factCheck := None; nm_isTyping := Some true |}
            5 6 initialState)))
    = [] ++ [ {| id := "5"; type := assistant; content := "hi";
                 cm_timestamp := 6; cm_sources := None; factCheck := None;
                 isTyping := Some false |} ].
Proof.
  split.
  - apply (proj1 (proj2 chat_messages_frame)). reflexivity.
  - apply (proj2 (proj2 chat_messages_frame)
             {| u_id := None; u_type := None; u_content := Some "hi";
                u_timestamp := None; u_sources := None; u_factCheck := None;
                u_isTyping := Some (Some false) |}
             (addChatMessage
                {| nm_type := assistant; nm_content := ""; nm_sources := None;
                   nm_factCheck := None; nm_isTyping := Some true |}
                5 6 initialState)
             []
             {| id := "5"; type := assistant; content := "";
                cm_timestamp := 6; cm_sources := None; factCheck := None;
                isTyping := Some true |}).
    reflexivity.
Defined.

Lemma addSavedInsights_newest_first adds st :
  savedInsights (addSavedInsights adds st)
  = reverse ((λ a, mkInsight a.1.1 (JS.toString a.1.2) a.2) <$> adds)
    ++ savedInsights st.
Proof.
  revert st. induction adds as [|a adds IH]; intros st; [done|].
  unfold addSavedInsights in *. simpl. rewrite IH. simpl.
  rewrite reverse_cons, <- app_assoc. done.
Qed.

Lemma filter_other_ids (id : string) (l : list SavedInsight) :
  id ∉ si_id <$> l → filter (λ insight, si_id insight ≠ id) l = l.
Proof.
  induction l as [|x l IH]; [done|]. rewrite fmap_cons, not_elem_of_cons.
  intros [Hx Hl]. rewrite filter_cons_True by done. by rewrite IH.
Qed.

(** C9. [addSavedInsight] puts the new insight in front, so after any run
    of additions the list reads newest first; [removeSavedInsight id]
    keeps exactly the insights whose id is not [id], in the order they had;
    and with pairwise distinct ids, removing the insight just added gives
    back the store from before the addition. *)
Theorem saved_insights_order_and_round_trip :
  (∀ insight now iso st,
      savedInsights (addSavedInsight insight now iso st)
      = mkInsight insight (JS.toString now) iso :: savedInsights st)
  ∧ (∀ adds st,
      savedInsights (addSavedInsights adds st)
      = reverse ((λ a, mkInsight a.1.1 (JS.toString a.1.2) a.2) <$> adds)
        ++ savedInsights st)
  ∧ (∀ id st,
      savedInsights (removeSavedInsight id st)
      = filter (λ insight, si_id insight ≠ id) (savedInsights st)
      ∧ (∀ x, x ∈ savedInsights (removeSavedInsight id st)
              ↔ x ∈ savedInsights st ∧ si_id x ≠ id)
      ∧ sublist (savedInsights (removeSavedInsight id st)) (savedInsights st))
  ∧ (∀ insight now iso st,
      NoDup (si_id <$> savedInsights (addSavedInsight insight now iso st)) →
      removeSavedInsight (JS.toString now) (addSavedInsight insight now iso st)
      = st).
Proof.
  split; [done|]. split; [apply addSavedInsights_newest_first|]. split.
  - intros id st. split; [done|]. split.
    + intros x. simpl. rewrite list_elem_of_filter. tauto.
    + apply sublist_filter.
  - intros insight now iso st Hnd. simpl in Hnd.
    apply NoDup_cons in Hnd as [Hfresh _].
    unfold removeSavedInsight, set_savedInsights. simpl.
    rewrite filter_cons_False by (simpl; tauto).
    rewrite filter_other_ids by done. by destruct st.
Qed.

Lemma saved_insights_order_and_round_trip_witness :
  removeSavedInsight (JS.toString 1700000000000)
    (addSavedInsight
       {| ni_videoId := "v1"; ni_videoTitle := "t"; ni_query := "q";
          ni_answer := "a"; ni_sources := []; ni_factCheck := None |}
       1700000000000 "2023-11-14T22:13:20.000Z" initialState)
  = initialState.
Proof.
  apply (proj2 (proj2 (proj2 saved_insights_order_and_round_trip))).
  simpl. apply NoDup_singleton.
Defined.

(** Two insights saved within the same millisecond get the same id, and
    removing one of them removes both. *)
Example same_millisecond_ids :
  let i := {| ni_videoId := "v1"; ni_videoTitle := "t"; ni_query := "q";
              ni_answer := "a"; ni_sources := []; ni_factCheck := None |} in
  savedInsights
    (removeSavedInsight (JS.toString 7)
       (addSavedInsight i 7 "x" (addSavedInsight i 7 "y" initialState)))
  = [].
Proof. reflexivity. Qed.

End StoreFacts.

(* ===================================================================== *)
(** * Timestamps in an answer                                              *)
(* ===================================================================== *)

Section Timestamps.
Import Client.

(** Boolean tests on code units, as facts [lia] can use. *)
Ltac unbool :=
  repeat match goal with
  | H : (_ && _) = true |- _ => apply andb_prop in H as [? ?]
  | H : (_ || _) = true |- _ => apply orb_prop in H as [?|?]
  | H : (_ <=? _)%N = true |- _ => apply N.leb_le in H
  | H : (_ =? _)%N = true |- _ => apply N.eqb_eq in H
  end.

Lemma is_digit_not_colon c : is_digit c = true → (c =? colon)%N = false.
Proof.
  unfold is_digit, colon. intros Hd. apply N.eqb_neq. unbool. lia.
Qed.

Lemma is_space_not_digit c : is_space c = true → is_digit c = false.
Proof.
  unfold is_space, is_digit. intros Hs.
  destruct ((48 <=? c)%N && (c <=? 57)%N) eqn:Hd; [|done].
  exfalso. unbool; lia.
Qed.

Lemma is_space_not_colon c : is_space c = true → (c =? colon)%N = false.
Proof.
  unfold is_space, colon. intros Hs. apply N.eqb_neq. intros ->. done.
Qed.

Lemma closing_not_space b : is_space (closing b) = false.
Proof. by destruct b. Qed.

Lemma closing_not_digit b : is_digit (closing b) = false.
Proof. by destruct b. Qed.

Lemma closing_not_colon b : (closing b =? colon)%N = false.
Proof. by destruct b. Qed.

Lemma skip_spaces_app ws r :
  spaces ws → stops_spaces r → skip_spaces (ws ++ r) = r.
Proof.
  intros Hws Hr. induction Hws as [|c ws Hc _ IH]; simpl.
  - destruct r as [|c r]; [done|]. simpl in *. by rewrite Hr.
  - by rewrite Hc.
Qed.

Lemma skip_spaces_spec s :
  ∃ ws, s = ws ++ skip_spaces s ∧ spaces ws.
Proof.
  induction s as [|c s [ws [Hs Hws]]]; simpl.
  - exists []. split; [done | constructor].
  - destruct (is_space c) eqn:Hc.
    + exists (c :: ws). split; [by rewrite <- app_comm_cons, <- Hs|].
      by constructor.
    + exists []. split; [done | constructor].
Qed.

Lemma take_digits_app hi ds r :
  Forall (λ c, is_digit c = true) ds → (length ds ≤ hi)%nat → stops_digits r →
  take_digits hi (ds ++ r) = (ds, r).
Proof.
  intros Hds. revert hi. induction Hds as [|c ds Hc _ IH]; intros hi Hlen Hr; simpl.
  - destruct hi, r as [|c r]; try done. simpl in *. by rewrite Hr.
  - destruct hi as [|hi]; simpl in Hlen; [lia|]. simpl.
    rewrite Hc, IH by (done || lia). done.
Qed.

Lemma take_digits_spec hi s ds rest :
  take_digits hi s = (ds, rest) →
  Forall (λ c, is_digit c = true) ds ∧ (length ds ≤ hi)%nat ∧ s = ds ++ rest.
Proof.
  revert s ds rest. induction hi as [|hi IH]; intros s ds rest; simpl.
  - destruct s; intros [= <- <-]; repeat split; simpl; auto.
  - destruct s as [|c s]; [intros [= <- <-]; repeat split; simpl; auto; lia|].
    destruct (is_digit c) eqn:Hc.
    + destruct (take_digits hi s) as [ds' rest'] eqn:Ht.
      intros [= <- <-]. destruct (IH _ _ _ Ht) as (Hd & Hl & ->).
      repeat split; [by constructor | simpl; lia].
    + intros [= <- <-]. repeat split; simpl; auto. lia.
Qed.

Lemma digits_app lo hi ds r :
  digit_run (S lo) hi ds → stops_digits r → digits hi (ds ++ r) = Some (ds, r).
Proof.
  intros [Hds Hlen] Hr. unfold digits.
  rewrite take_digits_app by (done || lia).
  destruct ds; [simpl in Hlen; lia | done].
Qed.

Lemma digits_spec hi s ds rest :
  digits hi s = Some (ds, rest) → digit_run 1 hi ds ∧ s = ds ++ rest.
Proof.
  unfold digits. destruct (take_digits hi s) as [ds' rest'] eqn:Ht.
  destruct (take_digits_spec _ _ _ _ Ht) as (Hd & Hl & ->).
  destruct ds' as [|c ds']; [done|]. intros [= <- <-].
  repeat split; auto. simpl. lia.
Qed.

Lemma expect_spec c s rest : expect c s = Some rest → s = c :: rest.
Proof.
  destruct s as [|c' s]; [done|]. simpl.
  destruct (c' =? c)%N eqn:Hc; [|done]. apply N.eqb_eq in Hc as ->.
  by intros [= ->].
Qed.

Lemma expect_cons c s : expect c (c :: s) = Some s.
Proof. simpl. by rewrite N.eqb_refl. Qed.

Lemma is_digit_not_space c : is_digit c = true → is_space c = false.
Proof.
  intros Hd. destruct (is_space c) eqn:Hs; [|done].
  apply is_space_not_digit in Hs. congruence.
Qed.

(** White space and then the closing bracket: no digit and no colon at
    the head. *)
Lemma tail_stops_digits b ws2 rest :
  spaces ws2 → stops_digits (ws2 ++ closing b :: rest).
Proof.
  intros [|c ws Hc _]; simpl; [apply closing_not_digit|].
  by apply is_space_not_digit.
Qed.

Lemma tail_no_colon b ws2 rest :
  spaces ws2 → expect colon (ws2 ++ closing b :: rest) = None.
Proof.
  intros [|c ws Hc _]; simpl.
  - by rewrite closing_not_colon.
  - by rewrite is_space_not_colon.
Qed.

Lemma with_hours_token b h m sec ws2 rest :
  digit_run 1 2 h → digit_run 1 3 m → digit_run 1 2 sec → spaces ws2 →
  with_hours b (h ++ colon :: m ++ colon :: sec ++ ws2 ++ closing b :: rest)
  = Some ({| hoursRaw := Some h; minutesRaw := m; secondsRaw := sec |}, rest).
Proof.
  intros Hh Hm Hs Hws. unfold with_hours.
  rewrite (digits_app 0) by (done || by simpl). simpl. rewrite ?N.eqb_refl.
  rewrite (digits_app 0) by (done || by simpl). simpl. rewrite ?N.eqb_refl.
  rewrite (digits_app 0) by (done || by apply tail_stops_digits). simpl.
  rewrite skip_spaces_app by (done || apply closing_not_space).
  by rewrite expect_cons.
Qed.

Lemma without_hours_token b m sec ws2 rest :
  digit_run 1 3 m → digit_run 1 2 sec → spaces ws2 →
  without_hours b (m ++ colon :: sec ++ ws2 ++ closing b :: rest)
  = Some ({| hoursRaw := None; minutesRaw := m; secondsRaw := sec |}, rest).
Proof.
  intros Hm Hs Hws. unfold without_hours.
  rewrite (digits_app 0) by (done || by simpl). simpl. rewrite ?N.eqb_refl.
  rewrite (digits_app 0) by (done || by apply tail_stops_digits). simpl.
  rewrite skip_spaces_app by (done || apply closing_not_space).
  by rewrite expect_cons.
Qed.

(** With two groups only, the optional hours group cannot be taken. *)
Lemma with_hours_two_groups b m sec ws2 rest :
  digit_run 1 3 m → digit_run 1 2 sec → spaces ws2 →
  with_hours b (m ++ colon :: sec ++ ws2 ++ closing b :: rest) = None.
Proof.
  intros [Hm Hlm] Hs Hws. unfold with_hours.
  destruct (decide (length m ≤ 2)%nat) as [Hle|Hgt].
  - rewrite (digits_app 0) by first [by (split; [|lia]) | by simpl].
    simpl. rewrite ?N.eqb_refl.
    rewrite (digits_app 0) by
      (by (destruct Hs; split; [|lia]) || by apply tail_stops_digits).
    simpl. by rewrite tail_no_colon.
  - destruct m as [|d1 [|d2 [|d3 [|? ?]]]]; simpl in *; try lia.
    apply Forall_cons in Hm as [H1 Hm]. apply Forall_cons in Hm as [H2 Hm].
    apply Forall_cons in Hm as [H3 _].
    unfold digits. simpl. rewrite H1, H2. simpl.
    by rewrite (is_digit_not_colon d3).
Qed.

Lemma token_app b ws1 g ws2 rest :
  token b ws1 g ws2 ++ rest
  = opening b :: ws1 ++ hours_part g ++ minutesRaw g ++ colon :: secondsRaw g
    ++ ws2 ++ closing b :: rest.
Proof.
  unfold token. rewrite <- app_comm_cons. f_equal.
  rewrite <- !app_assoc. do 2 f_equal. rewrite <- app_comm_cons.
  by rewrite <- !app_assoc.
Qed.

(** Every token of the four forms is matched, with these groups. *)
Lemma match_here_token b ws1 g ws2 rest :
  token_groups g → spaces ws1 → spaces ws2 →
  match_here (token b ws1 g ws2 ++ rest) = Some (g, rest).
Proof.
  intros (Hh & Hm & Hs) Hw1 Hw2. rewrite token_app.
  assert (alternative b
            (opening b :: ws1 ++ hours_part g ++ minutesRaw g ++
             colon :: secondsRaw g ++ ws2 ++ closing b :: rest)
          = Some (g, rest)) as Halt.
  { unfold alternative. rewrite expect_cons. simpl.
    destruct g as [[h|] m sec]; unfold hours_part in *; simpl in *.
    - rewrite skip_spaces_app; [| done |].
      + rewrite <- app_assoc. simpl. by rewrite with_hours_token.
      + destruct Hh as [Hd Hl]. destruct Hd as [|c h' Hc _]; simpl in *; [lia|].
        by apply is_digit_not_space.
    - rewrite skip_spaces_app; [| done |].
      + rewrite with_hours_two_groups by done. by apply without_hours_token.
      + destruct Hm as [Hd Hl]. destruct Hd as [|c m' Hc _]; simpl in *; [lia|].
        by apply is_digit_not_space. }
  unfold match_here. destruct b; [by rewrite Halt|].
  by destruct (alternative Square _) eqn:Hsq; [|exact Halt].
Qed.

Lemma with_hours_spec b s g rest :
  with_hours b s = Some (g, rest) →
  ∃ ws2, token_groups g ∧ spaces ws2 ∧ is_Some (hoursRaw g)
         ∧ s = hours_part g ++ minutesRaw g ++ colon :: secondsRaw g
               ++ ws2 ++ closing b :: rest.
Proof.
  unfold with_hours. intros Hw.
  destruct (digits 2 s) as [[h s1]|] eqn:E1; simpl in Hw; [|done].
  destruct (expect colon s1) as [s2|] eqn:E2; simpl in Hw; [|done].
  destruct (digits 3 s2) as [[m s3]|] eqn:E3; simpl in Hw; [|done].
  destruct (expect colon s3) as [s4|] eqn:E4; simpl in Hw; [|done].
  destruct (digits 2 s4) as [[sec s5]|] eqn:E5; simpl in Hw; [|done].
  destruct (expect (closing b) (skip_spaces s5)) as [s6|] eqn:E6;
    simpl in Hw; [|done].
  injection Hw as <- <-.
  apply digits_spec in E1 as [Hh ->], E3 as [Hm ->], E5 as [Hs ->].
  apply expect_spec in E2 as ->, E4 as ->, E6.
  destruct (skip_spaces_spec s5) as (ws2 & Hs5 & Hws2).
  exists ws2. unfold token_groups, hours_part; simpl.
  split; [done|]. split; [done|]. split; [by eexists|].
  rewrite Hs5 at 1. rewrite E6, <- !app_assoc. done.
Qed.

Lemma without_hours_spec b s g rest :
  without_hours b s = Some (g, rest) →
  ∃ ws2, token_groups g ∧ spaces ws2 ∧ hoursRaw g = None
         ∧ s = hours_part g ++ minutesRaw g ++ colon :: secondsRaw g
               ++ ws2 ++ closing b :: rest.
Proof.
  unfold without_hours. intros Hw.
  destruct (digits 3 s) as [[m s3]|] eqn:E3; simpl in Hw; [|done].
  destruct (expect colon s3) as [s4|] eqn:E4; simpl in Hw; [|done].
  destruct (digits 2 s4) as [[sec s5]|] eqn:E5; simpl in Hw; [|done].
  destruct (expect (closing b) (skip_spaces s5)) as [s6|] eqn:E6;
    simpl in Hw; [|done].
  injection Hw as <- <-.
  apply digits_spec in E3 as [Hm ->], E5 as [Hs ->].
  apply expect_spec in E4 as ->, E6.
  destruct (skip_spaces_spec s5) as (ws2 & Hs5 & Hws2).
  exists ws2. unfold token_groups, hours_part; simpl.
  split; [done|]. split; [done|]. split; [done|].
  rewrite Hs5 at 1. rewrite E6. done.
Qed.

Lemma alternative_spec b s g rest :
  alternative b s = Some (g, rest) →
  ∃ ws1 ws2, token_groups g ∧ spaces ws1 ∧ spaces ws2
             ∧ s = token b ws1 g ws2 ++ rest.
Proof.
  unfold alternative. intros Ha.
  destruct (expect (opening b) s) as [s1|] eqn:E1; simpl in Ha; [|done].
  apply expect_spec in E1 as ->.
  destruct (skip_spaces_spec s1) as (ws1 & Hs1 & Hws1).
  destruct (with_hours b (skip_spaces s1)) as [r|] eqn:Ew.
  - injection Ha as ->. apply with_hours_spec in Ew as (ws2 & Hg & Hws2 & _ & Hs).
    exists ws1, ws2. split; [done|]. split; [done|]. split; [done|].
    rewrite token_app. rewrite Hs1 at 1. by rewrite Hs.
  - apply without_hours_spec in Ha as (ws2 & Hg & Hws2 & _ & Hs).
    exists ws1, ws2. split; [done|]. split; [done|]. split; [done|].
    rewrite token_app. rewrite Hs1 at 1. by rewrite Hs.
Qed.

(** Whatever is matched is a token of one of the four forms. *)
Lemma match_here_spec s g rest :
  match_here s = Some (g, rest) →
  ∃ b ws1 ws2, token_groups g ∧ spaces ws1 ∧ spaces ws2
               ∧ s = token b ws1 g ws2 ++ rest.
Proof.
  unfold match_here. destruct (alternative Square s) as [r|] eqn:Esq.
  - intros [= ->]. exists Square. by apply alternative_spec.
  - intros Hr. exists Round. by apply alternative_spec.
Qed.

(** *** The pattern and its determinised form agree *)

Lemma repeat_digits {R} lo hi s (k : jsstring → option R) :
  (∀ c s', is_digit c = true → k (c :: s') = None) →
  repeat_class is_digit lo (Some hi) s k
  = let '(ds, rest) := take_digits hi s in
    if (lo <=? length ds)%nat then k rest else None.
Proof.
  intros Hk. revert lo hi.
  induction s as [|c s IH]; intros lo hi.
  - destruct hi, lo; done.
  - destruct hi as [|hi].
    + simpl. rewrite andb_false_r. by destruct lo.
    + simpl. destruct (is_digit c) eqn:Hc; simpl; [|by destruct lo].
      rewrite IH. destruct (take_digits hi s) as [ds rest]. simpl.
      destruct lo as [|lo]; simpl.
      * destruct (k rest); [done|]. by apply Hk.
      * destruct (lo <=? length ds)%nat; [by destruct (k rest)|done].
Qed.

Lemma repeat_spaces {R} s (k : jsstring → option R) :
  (∀ c s', is_space c = true → k (c :: s') = None) →
  repeat_class is_space 0 None s k = k (skip_spaces s).
Proof.
  intros Hk. induction s as [|c s IH]; [done|].
  simpl. destruct (is_space c) eqn:Hc; simpl; [|done].
  rewrite IH. destruct (k (skip_spaces s)) eqn:Hks; [done|].
  by apply Hk.
Qed.

Lemma take_captured (ds rest : jsstring) :
  take (length (ds ++ rest) - length rest) (ds ++ rest) = ds.
Proof.
  rewrite length_app.
  replace (length ds + length rest - length rest)%nat with (length ds) by lia.
  by rewrite take_app_length.
Qed.

(** A capturing group of digits, when nothing that starts with a digit can
    follow. *)
Lemma run_digits_group {R} n hi s caps (k : jsstring → Captures → option R) :
  (∀ c s' caps', is_digit c = true → k (c :: s') caps' = None) →
  run (Cap n (digits_upto hi)) s caps k
  = match digits hi s with
    | Some (ds, rest) => k rest (capture n ds caps)
    | None => None
    end.
Proof.
  intros Hk. simpl. rewrite repeat_digits by (intros; by apply Hk).
  unfold digits. destruct (take_digits hi s) as [ds rest] eqn:Ht.
  apply take_digits_spec in Ht as (_ & _ & ->).
  destruct ds as [|d ds]; [done|]. simpl (_ <=? _)%nat. cbv iota.
  by rewrite take_captured.
Qed.

(** White space, when nothing that starts with white space can follow. *)
Lemma run_spaces {R} s caps (k : jsstring → Captures → option R) :
  (∀ c s' caps', is_space c = true → k (c :: s') caps' = None) →
  run spaces_star s caps k = k (skip_spaces s) caps.
Proof. intros Hk. simpl. rewrite repeat_spaces; [done|]. intros; by apply Hk. Qed.

Lemma run_chr {R} c s caps (k : jsstring → Captures → option R) :
  run (Chr c) s caps k
  = match expect c s with Some s' => k s' caps | None => None end.
Proof. destruct s as [|c' s]; [done|]. simpl. by destruct (c' =? c)%N. Qed.

(** The end of an alternative: white space and the closing bracket. *)
Lemma run_closing {R} b s caps (k : jsstring → Captures → option R) :
  run (Cat spaces_star (Chr (closing b))) s caps k
  = match expect (closing b) (skip_spaces s) with
    | Some s' => k s' caps
    | None => None
    end.
Proof.
  change (run (Cat spaces_star (Chr (closing b))) s caps k)
    with (run spaces_star s caps (λ s' caps', run (Chr (closing b)) s' caps' k)).
  rewrite run_spaces; [apply run_chr|].
  intros c s' caps' Hc. simpl.
  destruct (c =? closing b)%N eqn:Heq; [|done].
  apply N.eqb_eq in Heq as ->. by rewrite closing_not_space in Hc.
Qed.

Lemma run_closing_digit {R} b c s caps (k : jsstring → Captures → option R) :
  is_digit c = true →
  run (Cat spaces_star (Chr (closing b))) (c :: s) caps k = None.
Proof.
  intros Hc. rewrite run_closing. simpl.
  rewrite (is_digit_not_space c Hc). simpl.
  destruct (c =? closing b)%N eqn:Heq; [|done].
  apply N.eqb_eq in Heq as ->. by rewrite closing_not_digit in Hc.
Qed.

Lemma run_minutes_on {R} b g2 g3 s caps (k : jsstring → Captures → option R) :
  run (minutes_on b g2 g3) s caps k
  = match digits 3 s with
    | Some (m, s1) =>
        match expect colon s1 with
        | Some s2 =>
            match digits 2 s2 with
            | Some (sec, s3) =>
                match expect (closing b) (skip_spaces s3) with
                | Some s4 => k s4 (capture g3 sec (capture g2 m caps))
                | None => None
                end
            | None => None
            end
        | None => None
        end
    | None => None
    end.
Proof.
  unfold minutes_on.
  change (run (Cat (Cap g2 (digits_upto 3)) ?r) s caps k)
    with (run (Cap g2 (digits_upto 3)) s caps (λ s' caps', run r s' caps' k)).
  rewrite run_digits_group.
  - destruct (digits 3 s) as [[m s1]|]; [|done].
    change (run (Cat (Chr colon) ?r) s1 ?c k)
      with (run (Chr colon) s1 c (λ s' caps', run r s' caps' k)).
    rewrite run_chr. destruct (expect colon s1) as [s2|]; [|done].
    change (run (Cat (Cap g3 (digits_upto 2)) ?r) s2 ?c k)
      with (run (Cap g3 (digits_upto 2)) s2 c (λ s' caps', run r s' caps' k)).
    rewrite run_digits_group by (intros; by apply run_closing_digit).
    destruct (digits 2 s2) as [[sec s3]|]; [|done].
    apply run_closing.
  - intros c s' caps' Hc. simpl. by rewrite (is_digit_not_colon c Hc).
Qed.

Lemma run_minutes_on_space {R} b g2 g3 c s caps (k : jsstring → Captures → option R) :
  is_space c = true → run (minutes_on b g2 g3) (c :: s) caps k = None.
Proof.
  intros Hc. rewrite run_minutes_on. unfold digits. simpl.
  by rewrite (is_space_not_digit c Hc).
Qed.

(** [(?:(\d{1,2}):)?] and the rest of the alternative. *)
Lemma run_hours_on {R} b g1 g2 g3 s caps (k : jsstring → Captures → option R) :
  run (Cat (Opt (Cat (Cap g1 (digits_upto 2)) (Chr colon))) (minutes_on b g2 g3))
    s caps k
  = match
      match digits 2 s with
      | Some (h, s1) =>
          match expect colon s1 with
          | Some s2 => run (minutes_on b g2 g3) s2 (capture g1 h caps) k
          | None => None
          end
      | None => None
      end
    with
    | Some x => Some x
    | None => run (minutes_on b g2 g3) s caps k
    end.
Proof.
  change (run (Cat (Opt (Cat (Cap g1 (digits_upto 2)) (Chr colon))) ?r) s caps k)
    with (match run (Cap g1 (digits_upto 2)) s caps
                  (λ s' caps', run (Chr colon) s' caps'
                                 (λ s'' caps'', run r s'' caps'' k)) with
          | Some x => Some x
          | None => run r s caps k
          end).
  rewrite run_digits_group.
  - destruct (digits 2 s) as [[h s1]|]; [|done]. by rewrite run_chr.
  - intros c s' caps' Hc. simpl. by rewrite (is_digit_not_colon c Hc).
Qed.

Lemma run_hours_on_space {R} b g1 g2 g3 c s caps (k : jsstring → Captures → option R) :
  is_space c = true →
  run (Cat (Opt (Cat (Cap g1 (digits_upto 2)) (Chr colon))) (minutes_on b g2 g3))
    (c :: s) caps k = None.
Proof.
  intros Hc. rewrite run_hours_on, run_minutes_on_space by done.
  unfold digits. simpl. by rewrite (is_space_not_digit c Hc).
Qed.

#[local] Arguments run : simpl never.

(** One alternative of the pattern is its determinised form. *)
Lemma run_bracketed b g1 g2 g3 s :
  (g1, g2, g3) = (1, 2, 3)%nat ∨ (g1, g2, g3) = (4, 5, 6)%nat →
  run (bracketed (opening b) (closing b) g1 g2 g3) s no_captures
    (λ rest caps, Some (groups_of caps, rest))
  = alternative b s.
Proof.
  intros Hg. unfold bracketed, alternative.
  fold (minutes_on b g2 g3).
  change (run (Cat (Chr (opening b)) ?r) s ?c ?k)
    with (run (Chr (opening b)) s c (λ s' caps', run r s' caps' k)).
  rewrite run_chr. destruct (expect (opening b) s) as [s1|]; [|done]. simpl mbind.
  change (run (Cat spaces_star ?r) s1 ?c ?k)
    with (run spaces_star s1 c (λ s' caps', run r s' caps' k)).
  rewrite run_spaces by (intros; by apply run_hours_on_space).
  rewrite run_hours_on.
  assert (∀ caps t,
            run (minutes_on b g2 g3) t caps (λ rest caps', Some (groups_of caps', rest))
            = match digits 3 t with
              | Some (m, t1) =>
                  match expect colon t1 with
                  | Some t2 =>
                      match digits 2 t2 with
                      | Some (sec, t3) =>
                          match expect (closing b) (skip_spaces t3) with
                          | Some t4 =>
                              Some (groups_of (capture g3 sec (capture g2 m caps)), t4)
                          | None => None
                          end
                      | None => None
                      end
                  | None => None
                  end
              | None => None
              end) as Hmin by (intros; apply run_minutes_on).
  unfold with_hours, without_hours.
  destruct (digits 2 (skip_spaces s1)) as [[h t1]|]; simpl;
    [destruct (expect colon t1) as [t2|]; simpl|];
    rewrite ?Hmin;
    repeat (match goal with
            | |- context [digits ?n ?x] => destruct (digits n x) as [[? ?]|]
            | |- context [expect ?c ?x] => destruct (expect c x)
            end; simpl);
    try done; by destruct Hg as [[= -> -> ->]|[= -> -> ->]].
Qed.

(** The pattern of [renderAnswer] matches what its determinised form
    matches, with the same groups. *)
Lemma exec_here_match_here s : exec_here s = match_here s.
Proof.
  unfold exec_here, match_here, pattern.
  change (run (Alt ?r1 ?r2) s ?c ?k)
    with (match run r1 s c k with Some x => Some x | None => run r2 s c k end).
  change 91%N with (opening Square). change 93%N with (closing Square).
  change 40%N with (opening Round). change 41%N with (closing Round).
  rewrite !run_bracketed by (done || auto). done.
Qed.

Lemma totalSeconds_formula g :
  totalSeconds g = H g * 3600 + M g * 60 + S_ g.
Proof.
  unfold totalSeconds, clock_of, H, M, S_.
  pose proof (Z.div_mod (parseInt (minutesRaw g)) 60 ltac:(lia)) as Hdm.
  destruct (hoursRaw g) as [[|c h]|]; simpl; try case_bool_decide; simpl;
    change (parseInt []) with 0; lia.
Qed.

Lemma label_carry g :
  hoursRaw g = None → 60 ≤ M g →
  label g = "[" +:+ JS.toString (M g `div` 60) +:+ ":"
            +:+ pad2 (M g `mod` 60) +:+ ":" +:+ pad2 (S_ g) +:+ "]".
Proof.
  unfold label, clock_of, M, S_. intros -> Hm. simpl.
  rewrite bool_decide_eq_true_2 by done.
  rewrite bool_decide_eq_true_2; [done|].
  apply Z.div_str_pos. lia.
Qed.

Lemma parseInt_nonneg ds :
  Forall (λ c, is_digit c = true) ds → 0 ≤ parseInt ds.
Proof.
  unfold parseInt. intros Hds.
  assert (∀ acc, 0 ≤ acc →
            0 ≤ foldl (λ acc c, acc * 10 + (Z.of_N c - 48)) acc ds) as Hacc.
  { induction Hds as [|c ds Hc _ IH]; intros acc Hacc; simpl; [done|].
    apply IH. unfold is_digit in Hc. unbool. lia. }
  by apply Hacc.
Qed.

Lemma flush_no_link pending i secs lbl : Link i secs lbl ∉ flush pending.
Proof.
  destruct pending; simpl; [apply not_elem_of_nil|].
  rewrite list_elem_of_singleton. done.
Qed.

(** Every span the loop pushes is a match of the pattern at the position
    the span is keyed with. *)
Lemma scan_links s index inside pending i secs lbl :
  Link i secs lbl ∈ scan s index inside pending →
  ∃ k g rest, i = (index + k)%nat
              ∧ match_here (drop k s) = Some (g, rest)
              ∧ secs = totalSeconds g ∧ lbl = label g.
Proof.
  revert index inside pending.
  induction s as [|c s IH]; intros index inside pending; simpl.
  - intros Hin. by apply flush_no_link in Hin.
  - destruct inside as [|inside].
    + rewrite exec_here_match_here.
      destruct (match_here (c :: s)) as [[g rest]|] eqn:Hm.
      * rewrite elem_of_app, elem_of_cons. intros [Hin|[Heq|Hin]].
        -- by apply flush_no_link in Hin.
        -- injection Heq as -> -> ->. exists 0%nat, g, rest.
           split; [lia|]. done.
        -- apply IH in Hin as (k & g' & rest' & -> & Hk & -> & ->).
           exists (S k), g', rest'. split; [lia|]. done.
      * intros Hin. apply IH in Hin as (k & g' & rest' & -> & Hk & -> & ->).
        exists (S k), g', rest'. split; [lia|]. done.
    + intros Hin. apply IH in Hin as (k & g' & rest' & -> & Hk & -> & ->).
      exists (S k), g', rest'. split; [lia|]. done.
Qed.

Lemma scan_inside s index inside pending :
  (length s ≤ inside)%nat → scan s index inside pending = flush pending.
Proof.
  revert index inside. induction s as [|c s IH]; intros index inside; [done|].
  simpl. destruct inside as [|inside]; [lia|]. intros. apply IH. lia.
Qed.

(** An answer that is one token renders as one span. *)
Lemma renderAnswer_token b ws1 g ws2 :
  token_groups g → spaces ws1 → spaces ws2 →
  renderAnswer (token b ws1 g ws2) = [Link 0 (totalSeconds g) (label g)].
Proof.
  intros Hg Hw1 Hw2. unfold renderAnswer.
  pose proof (match_here_token b ws1 g ws2 [] Hg Hw1 Hw2) as Hm.
  rewrite app_nil_r in Hm. unfold token in *. simpl.
  rewrite exec_here_match_here. simpl in Hm. rewrite Hm. simpl. f_equal.
  apply scan_inside. lia.
Qed.

Lemma lt0_of_Z z : JS.lt0 (JS.of_Z z) = bool_decide (z < 0).
Proof.
  unfold JS.lt0, JS.of_Z. apply bool_decide_ext.
  unfold Qclt. simpl. rewrite Qred_correct.
  unfold Qlt. simpl. lia.
Qed.

(** C10. Every span [renderAnswer] builds stands on a token of one of
    the four forms and seeks to H*3600 + M*60 + S, the numbers of that
    token (no hours part being zero hours); every such token is matched;
    with no hours part and at least sixty minutes the label shows
    M div 60 hours and M mod 60 minutes; and [jumpToTimestamp] does
    nothing at all, so does not seek, on a negative timestamp or NaN. *)
Theorem timestamp_links_seek_position :
  (∀ text i secs lbl,
      Link i secs lbl ∈ renderAnswer text →
      ∃ b ws1 g ws2 rest,
        drop i text = token b ws1 g ws2 ++ rest
        ∧ token_groups g ∧ spaces ws1 ∧ spaces ws2
        ∧ secs = H g * 3600 + M g * 60 + S_ g
        ∧ lbl = label g
        ∧ ∀ playerReady playerRef,
            seeks (click playerReady playerRef (Link i secs lbl))
            ⊆ [JS.of_Z (H g * 3600 + M g * 60 + S_ g)])
  ∧ (∀ b ws1 g ws2 rest,
      token_groups g → spaces ws1 → spaces ws2 →
      exec_here (token b ws1 g ws2 ++ rest) = Some (g, rest)
      ∧ totalSeconds g = H g * 3600 + M g * 60 + S_ g
      ∧ renderAnswer (token b ws1 g ws2)
        = [Link 0 (H g * 3600 + M g * 60 + S_ g) (label g)]
      ∧ seeks (click true (Player false)
                 (Link 0 (H g * 3600 + M g * 60 + S_ g) (label g)))
        = [JS.of_Z (H g * 3600 + M g * 60 + S_ g)])
  ∧ (∀ g,
      hoursRaw g = None → 60 ≤ M g →
      label g = "[" +:+ JS.toString (M g `div` 60) +:+ ":"
                +:+ pad2 (M g `mod` 60) +:+ ":" +:+ pad2 (S_ g) +:+ "]")
  ∧ (∀ playerReady playerRef timestamp,
      JS.lt0 timestamp = true ∨ JS.isNaN timestamp = true →
      jumpToTimestamp playerReady playerRef timestamp = []
      ∧ seeks (jumpToTimestamp playerReady playerRef timestamp) = []).
Proof.
  split; [|split; [|split]].
  - intros text i secs lbl Hin.
    apply scan_links in Hin as (k & g & rest & -> & Hm & -> & ->).
    simpl. apply match_here_spec in Hm as (b & ws1 & ws2 & Hg & Hw1 & Hw2 & Hd).
    exists b, ws1, g, ws2, rest. rewrite <- totalSeconds_formula.
    split; [done|]. do 5 (split; [done|]).
    intros playerReady playerRef. simpl. unfold jumpToTimestamp.
    destruct (JS.lt0 _ || JS.isNaN _); [apply list_subseteq_nil|].
    destruct playerReady, playerRef as [|[]]; simpl;
      try apply list_subseteq_nil; set_solver.
  - intros b ws1 g ws2 rest Hg Hw1 Hw2.
    rewrite <- totalSeconds_formula.
    split; [rewrite exec_here_match_here; by apply match_here_token|].
    split; [done|].
    split; [by apply renderAnswer_token|].
    simpl. unfold jumpToTimestamp. rewrite lt0_of_Z.
    rewrite bool_decide_eq_false_2; [done|].
    rewrite totalSeconds_formula. destruct Hg as (Hh & [Hm _] & [Hs _]).
    apply parseInt_nonneg in Hm, Hs.
    assert (0 ≤ H g); [|unfold M, S_; lia].
    unfold H. destruct (hoursRaw g) as [h|]; simpl; [|done].
    destruct Hh as [Hh _]. by apply parseInt_nonneg.
  - apply label_carry.
  - intros playerReady playerRef timestamp Hneg.
    unfold jumpToTimestamp.
    replace (JS.lt0 timestamp || JS.isNaN timestamp) with true; [done|].
    symmetry. apply orb_true_iff. done.
Qed.

(** The answer [(75:10)]: one span, labelled [[1:15:10]], seeking to
    second 4510. *)
Lemma timestamp_links_seek_position_witness :
  (∃ g, 4510 = H g * 3600 + M g * 60 + S_ g
        ∧ drop 0 [40; 55; 53; 58; 49; 48; 41]%N
          = token Round [] g [] ++ [])
  ∧ label {| hoursRaw := None; minutesRaw := [55; 53]%N;
             secondsRaw := [49; 48]%N |} = "[1:15:10]"
  ∧ jumpToTimestamp true (Player false) JS.NaN = []
  ∧ jumpToTimestamp true (Player false) (JS.of_Z (-1)) = [].
Proof.
  split; [|split; [|split]].
  - destruct (proj1 timestamp_links_seek_position
                [40; 55; 53; 58; 49; 48; 41]%N 0%nat 4510 "[1:15:10]")
      as (b & ws1 & g & ws2 & rest & Hd & Hg & Hw1 & Hw2 & Hsecs & Hl & _).
    { vm_compute. constructor. }
    exists g. split; [done|].
    pose proof (match_here_token b ws1 g ws2 rest Hg Hw1 Hw2) as Hm.
    rewrite <- Hd in Hm. vm_compute in Hm. injection Hm as <- <-.
    destruct b, ws1 as [|? [|? ?]], ws2 as [|? [|? ?]];
      vm_compute in Hd; try discriminate; try done;
      injection Hd; intros; subst; try discriminate;
      inversion Hw1; inversion Hw2; discriminate.
  - rewrite (proj1 (proj2 (proj2 timestamp_links_seek_position))).
    + reflexivity.
    + reflexivity.
    + vm_compute. discriminate.
  - apply (proj2 (proj2 (proj2 timestamp_links_seek_position))).
    right. reflexivity.
  - apply (proj2 (proj2 (proj2 timestamp_links_seek_position))).
    left. reflexivity.
Defined.

End Timestamps.

(* ===================================================================== *)
(** * What the workspace pages ask of the API                              *)
(* ===================================================================== *)

Section Requests.
Import Api Store Page.

(** Unfolds a handler into its trace once its inputs are known. *)
Ltac run_handler :=
  cbv beta iota zeta delta
      [Workspace.handleChatSubmit Client.handleChatSubmit
       Workspace.factCheckResponse Workspace.processTranscriptForRAG
       Client.processTranscriptForRAG
       mbind mret M_bind M_ret Eff.bind Eff.ret Eff.emit Eff.throw
       Eff.try_catch Eff.finally Eff.await Eff.trace Eff.result Eff.returns
       act toast fst snd];
  simpl.

Lemma Workspace_handleChatSubmit_calls trim net videoId chatInput workspace c :
  c ∈ calls (Eff.trace (Workspace.handleChatSubmit trim net videoId chatInput workspace)) →
  c = GenerateResponse videoId (Workspace.generateRequest (trim chatInput))
  ∨ ∃ r, generateResponse net videoId (Workspace.generateRequest (trim chatInput))
         = Eff.Resolved r
         ∧ gen_success r = true ∧ answer r ≠ ""
         ∧ c = VerifyClaims (Workspace.factCheckRequest videoId (answer r) r).
Proof.
  run_handler.
  destruct (bool_decide (trim chatInput = "") || negb (ragReady workspace));
    [by intros ?%elem_of_nil|].
  destruct (generateResponse net videoId _) as [r|e] eqn:Hr; simpl.
  - destruct (gen_success r) eqn:Hs; simpl.
    + case_bool_decide as Ha; simpl.
      * rewrite list_elem_of_singleton. by left.
      * destruct (verifyClaims net _) as [v|e];
          [destruct (fv_success v && _)|]; simpl;
          rewrite !elem_of_cons; intros [->|[->|[]%elem_of_nil]];
          (by left) || (right; by exists r).
    + rewrite list_elem_of_singleton. by left.
  - rewrite list_elem_of_singleton. by left.
Qed.

Lemma Client_handleChatSubmit_calls trim net videoId chatInput workspace c :
  c ∈ calls (Eff.trace (Client.handleChatSubmit trim net videoId chatInput workspace)) →
  c = GenerateResponse videoId (Client.generateRequest (trim chatInput)).
Proof.
  run_handler.
  destruct (bool_decide (trim chatInput = "") || negb (ragReady workspace)
            || isProcessing workspace);
    [by intros ?%elem_of_nil|].
  destruct (generateResponse net videoId _) as [r|e]; simpl;
    [destruct (gen_success r); simpl|];
    by rewrite list_elem_of_singleton.
Qed.

(** C7. Every generate call the two workspace pages issue passes
    [top_k = 100], which is at least 1; and a submitted question does issue
    that call. *)
Theorem generate_calls_pass_top_k_100 :
  ∀ trim net videoId chatInput workspace,
    (∀ vid req,
        GenerateResponse vid req
        ∈ calls (Eff.trace (Workspace.handleChatSubmit trim net videoId chatInput workspace))
          ++ calls (Eff.trace (Client.handleChatSubmit trim net videoId chatInput workspace)) →
        top_k req = 100 ∧ 1 ≤ top_k req)
    ∧ (trim chatInput ≠ "" → ragReady workspace = true →
        GenerateResponse videoId {| query := trim chatInput; top_k := 100 |}
        ∈ calls (Eff.trace (Workspace.handleChatSubmit trim net videoId chatInput workspace)))
    ∧ (trim chatInput ≠ "" → ragReady workspace = true →
       isProcessing workspace = false →
        GenerateResponse videoId {| query := trim chatInput; top_k := 100 |}
        ∈ calls (Eff.trace (Client.handleChatSubmit trim net videoId chatInput workspace))).
Proof.
  intros trim net videoId chatInput workspace. split; [|split].
  - intros vid req [Hin|Hin]%elem_of_app.
    + apply Workspace_handleChatSubmit_calls in Hin as [Heq|(r & _ & _ & _ & Heq)];
        [|done]. by injection Heq as -> ->.
    + apply Client_handleChatSubmit_calls in Hin. by injection Hin as -> ->.
  - intros Hq Hr. run_handler.
    rewrite bool_decide_eq_false_2, Hr by done. simpl.
    destruct (generateResponse net videoId _) as [r|e]; simpl;
      [destruct (gen_success r); simpl;
       [case_bool_decide; simpl;
        [|destruct (verifyClaims net _) as [v|?];
          [destruct (fv_success v && _)|]; simpl]|]|];
      apply list_elem_of_here.
  - intros Hq Hr Hp. run_handler.
    rewrite bool_decide_eq_false_2, Hr, Hp by done. simpl.
    destruct (generateResponse net videoId _) as [r|e]; simpl;
      [destruct (gen_success r); simpl|]; apply list_elem_of_here.
Qed.

Lemma generate_calls_pass_top_k_100_witness :
  GenerateResponse "v1" {| query := "why?"; top_k := 100 |}
  ∈ calls (Eff.trace (Workspace.handleChatSubmit (λ s, s) offline "v1" "why?"
                        (with_ragReady initialWorkspaceState true)))
  ∧ top_k {| query := "why?"; top_k := 100 |} = 100.
Proof.
  pose proof (generate_calls_pass_top_k_100 (λ s, s) offline "v1" "why?"
                (with_ragReady initialWorkspaceState true)) as (Hall & Hw & _).
  assert (GenerateResponse "v1" {| query := "why?"; top_k := 100 |}
          ∈ calls (Eff.trace (Workspace.handleChatSubmit (λ s, s) offline "v1"
                                "why?" (with_ragReady initialWorkspaceState true))))
    as Hin by (apply Hw; [discriminate | reflexivity]).
  split; [exact Hin|].
  apply (Hall "v1"). apply elem_of_app. left. exact Hin.
Defined.









End Requests.

(* ===================================================================== *)
(** * Processing and generation, end to end                                *)
(* ===================================================================== *)

Section EndToEnd.
Import Api Store Page.

Ltac run_handler :=
  cbv beta iota zeta delta
      [Workspace.handleChatSubmit Client.handleChatSubmit
       Workspace.factCheckResponse Workspace.processTranscriptForRAG
       Client.processTranscriptForRAG
       mbind mret M_bind M_ret Eff.bind Eff.ret Eff.emit Eff.throw
       Eff.try_catch Eff.finally Eff.await Eff.trace Eff.result Eff.returns
       act toast fst snd];
  simpl.

(** Both pages take an answer to [processTranscript] as "ready" when it
    says [success], and also when it does not but its [error] mentions
    that the video was already processed. *)
Lemma Workspace_process_ready net videoId tr seg segs resp :
  getTranscript net videoId = Eff.Resolved tr →
  tr_success tr = true →
  segments tr = Some (seg :: segs) →
  processTranscript net videoId {| overwrite := false |} = Eff.Resolved resp →
  proc_success resp = true
  ∨ opt_includes "already processed" (proc_error resp) = true →
  Eff.result (Workspace.processTranscriptForRAG net videoId) = Eff.Ok tt
  ∧ actions (Eff.trace (Workspace.processTranscriptForRAG net videoId))
    = [SetIsProcessing true; SetTranscript (seg :: segs); SetRagReady true;
       SetIsProcessed true; SetIsProcessing false].
Proof.
  intros Ht Hs Hsegs Hp Hok. run_handler.
  rewrite Ht; simpl. rewrite Hs, Hsegs; simpl. rewrite Hp; simpl.
  destruct (proc_success resp); simpl; [done|].
  destruct Hok as [?| ->]; done.
Qed.

Lemma Client_process_ready net videoId tr seg segs resp :
  getTranscript net videoId = Eff.Resolved tr →
  tr_success tr = true →
  segments tr = Some (seg :: segs) →
  processTranscript net videoId {| overwrite := false |} = Eff.Resolved resp →
  proc_success resp = true
  ∨ opt_includes "Video already processed" (proc_error resp) = true →
  Eff.result (Client.processTranscriptForRAG net videoId) = Eff.Ok tt
  ∧ actions (Eff.trace (Client.processTranscriptForRAG net videoId))
    = [SetIsProcessing true; SetTranscript (seg :: segs); SetRagReady true;
       SetIsProcessed true; SetIsProcessing false].
Proof.
  intros Ht Hs Hsegs Hp Hok. run_handler.
  rewrite Ht; simpl. rewrite Hs, Hsegs; simpl. rewrite Hp; simpl.
  destruct (proc_success resp); simpl; [done|].
  destruct Hok as [?| ->]; done.
Qed.

Lemma ready_store clock (t : list Event) (st : AppState) seg segs :
  actions t = [SetIsProcessing true; SetTranscript (seg :: segs);
               SetRagReady true; SetIsProcessed true; SetIsProcessing false] →
  let st' := run_store clock t st in
  ragReady (workspace st') = true
  ∧ isProcessed (workspace st') = true
  ∧ isProcessing (workspace st') = false
  ∧ chatMessages (workspace st') = chatMessages (workspace st)
  ∧ savedInsights st' = savedInsights st.
Proof. intros Ha. unfold run_store. rewrite Ha. done. Qed.

Section Rag.
Variable Embedding : Type.
Variable embed : string → option Embedding.

(** C1. On a video that has a collection, [process] with
    [overwrite = false] gives back the index it was given and the
    "already processed" outcome, which goes to the caller with
    [success = true] and no [error]; and the pages, given that answer,
    end with the chat ready and nothing thrown. *)
Theorem already_processed_is_success :
  ∀ now index video_id chunks,
    is_Some (index !! Backend.collection_of video_id) →
    Backend.process Embedding embed now index video_id chunks false
    = (index, Backend.AlreadyProcessed)
    ∧ (∀ chunks_of,
        let answer :=
          Backend.process_endpoint Embedding embed now index chunks_of
            video_id {| overwrite := false |} in
        answer.1 = index
        ∧ proc_success answer.2 = true
        ∧ proc_error answer.2 = None
        ∧ ∀ tr seg segs generate verify clock st,
            tr_success tr = true →
            segments tr = Some (seg :: segs) →
            let net := served tr (λ _ _, answer.2) generate verify in
            Eff.result (Workspace.processTranscriptForRAG net video_id) = Eff.Ok tt
            ∧ Eff.result (Client.processTranscriptForRAG net video_id) = Eff.Ok tt
            ∧ ragReady (workspace (run_store clock
                 (Eff.trace (Workspace.processTranscriptForRAG net video_id)) st))
              = true
            ∧ ragReady (workspace (run_store clock
                 (Eff.trace (Client.processTranscriptForRAG net video_id)) st))
              = true).
Proof.
  intros now index video_id chunks [c Hc].
  assert (∀ chunks, Backend.process Embedding embed now index video_id chunks false
                    = (index, Backend.AlreadyProcessed)) as Hproc.
  { intros. unfold Backend.process. by rewrite Hc. }
  split; [apply Hproc|]. intros chunks_of answer. subst answer.
  unfold Backend.process_endpoint. rewrite Hproc. simpl.
  do 3 (split; [done|]).
  intros tr seg segs generate verify clock st Hs Hsegs.
  set (net := served tr _ generate verify).
  destruct (Workspace_process_ready net video_id tr seg segs
              (Backend.process_response video_id Backend.AlreadyProcessed))
    as [Hw1 Hw2]; try done; [by left|].
  destruct (Client_process_ready net video_id tr seg segs
              (Backend.process_response video_id Backend.AlreadyProcessed))
    as [Hc1 Hc2]; try done; [by left|].
  split; [done|]. split; [done|].
  split; eapply ready_store; eassumption.
Qed.

(** The pages are ready as well when the signal arrives the other way:
    [success] false and an [error] that says so. *)
Lemma already_processed_error_is_taken_as_ready tr seg segs generate verify :
  tr_success tr = true →
  segments tr = Some (seg :: segs) →
  let resp := {| proc_success := false; proc_video_id := "v1";
                 chunks_stored := None; collection_name := None;
                 proc_error := Some "Video already processed. Use overwrite=True to reprocess." |} in
  let net := served tr (λ _ _, resp) generate verify in
  Eff.result (Workspace.processTranscriptForRAG net "v1") = Eff.Ok tt
  ∧ Eff.result (Client.processTranscriptForRAG net "v1") = Eff.Ok tt
  ∧ Act (SetRagReady true) ∈ Eff.trace (Workspace.processTranscriptForRAG net "v1")
  ∧ Act (SetRagReady true) ∈ Eff.trace (Client.processTranscriptForRAG net "v1").
Proof.
  intros Hs Hsegs resp net. run_handler. rewrite Hs, Hsegs. simpl.
  repeat split; repeat first [apply list_elem_of_here | apply list_elem_of_further].
Qed.

Variable search : gmap string (Backend.VideoCollection Embedding)
                  → string → string → Z → Backend.Retrieval.
Variable build_prompt : string → list RAGSearchResult → string.
Variable fallback_answer : list RAGSearchResult → string.

#[local] Abbreviation generate :=
  (Backend.generate Embedding search build_prompt fallback_answer).
#[local] Abbreviation generate_endpoint :=
  (Backend.generate_endpoint Embedding search build_prompt fallback_answer).

Lemma Client_chat_answered trim net videoId chatInput workspace r :
  trim chatInput ≠ "" → ragReady workspace = true →
  isProcessing workspace = false →
  generateResponse net videoId (Client.generateRequest (trim chatInput))
  = Eff.Resolved r →
  gen_success r = true →
  Eff.trace (Client.handleChatSubmit trim net videoId chatInput workspace)
  = [ SetChatInput "";
      Act (AddChatMessage {| nm_type := user; nm_content := trim chatInput;
                             nm_sources := None; nm_factCheck := None;
                             nm_isTyping := None |});
      Act (AddChatMessage {| nm_type := assistant; nm_content := "";
                             nm_sources := None; nm_factCheck := None;
                             nm_isTyping := Some true |});
      Call (GenerateResponse videoId (Client.generateRequest (trim chatInput)));
      Act (answered r) ].
Proof.
  intros Hq Hr Hp Hg Hs. run_handler.
  rewrite bool_decide_eq_false_2, Hr, Hp by done. simpl.
  rewrite Hg. simpl. by rewrite Hs.
Qed.

Lemma Workspace_chat_answered trim net videoId chatInput workspace r :
  trim chatInput ≠ "" → ragReady workspace = true →
  generateResponse net videoId (Workspace.generateRequest (trim chatInput))
  = Eff.Resolved r →
  gen_success r = true →
  ∃ fact_check,
    Eff.trace (Workspace.handleChatSubmit trim net videoId chatInput workspace)
    = [ SetChatInput "";
        Act (AddChatMessage {| nm_type := user; nm_content := trim chatInput;
                               nm_sources := None; nm_factCheck := None;
                               nm_isTyping := None |});
        Act (AddChatMessage {| nm_type := assistant; nm_content := "";
                               nm_sources := None; nm_factCheck := None;
                               nm_isTyping := Some true |});
        Call (GenerateResponse videoId (Workspace.generateRequest (trim chatInput)));
        Act (answered r) ] ++ fact_check
    ∧ fact_check
      = Eff.trace (if bool_decide (answer r = "") then mret tt
                   else Workspace.factCheckResponse net videoId (answer r) r)
    ∧ ∀ msg, Toast error msg ∉ fact_check.
Proof.
  intros Hq Hr Hg Hs. eexists. split; [|split; [reflexivity|]].
  - run_handler. rewrite bool_decide_eq_false_2, Hr by done. simpl.
    rewrite Hg. simpl. rewrite Hs. simpl.
    case_bool_decide; simpl; [done|].
    destruct (verifyClaims net _) as [v|?];
      [destruct (fv_success v && _)|]; done.
  - intros msg. run_handler. case_bool_decide; simpl; [apply not_elem_of_nil|].
    destruct (verifyClaims net _) as [v|?];
      [destruct (fv_success v && _)|]; simpl;
      rewrite ?elem_of_cons, ?elem_of_nil; intros Hin;
      repeat (destruct Hin as [Hin|Hin]; [discriminate|]); done.
Qed.

(** C2. When retrieval finds results, [generate] answers with
    [success = true], the retriever's results as [sources] and no
    [error], whatever the generative backend does; when that backend is
    absent, errors or times out, the answer has [retrieval_only = true]
    and carries the fallback text; and the pages write that answer into
    the chat instead of the apology for a failed request. *)
Theorem generation_failure_degrades :
  ∀ llm index video_id query top_k rs,
    search index video_id query top_k = Backend.Found rs →
    let r := generate llm index video_id query top_k in
    gen_success r = true ∧ sources r = rs ∧ gen_error r = None
    ∧ (Backend.generation_down llm (build_prompt query rs) = true →
       retrieval_only r = true ∧ answer r = fallback_answer rs)
    ∧ (∀ trim tr process verify chatInput workspace,
         trim chatInput = query → query ≠ "" → top_k = 100 →
         ragReady workspace = true → isProcessing workspace = false →
         let net := served tr process (generate_endpoint llm index) verify in
         Act (answered r)
         ∈ Eff.trace (Client.handleChatSubmit trim net video_id chatInput workspace)
         ∧ Act (answered r)
           ∈ Eff.trace (Workspace.handleChatSubmit trim net video_id chatInput workspace)
         ∧ (∀ msg, Toast error msg
              ∉ Eff.trace (Client.handleChatSubmit trim net video_id chatInput workspace))
         ∧ (∀ msg, Toast error msg
              ∉ Eff.trace (Workspace.handleChatSubmit trim net video_id chatInput workspace))).
Proof.
  intros llm index video_id query top_k rs Hfound r.
  assert (gen_success r = true ∧ sources r = rs ∧ gen_error r = None) as (Hs & Hsrc & He).
  { subst r. unfold Backend.generate. rewrite Hfound.
    destruct llm as [ask|]; [destruct (ask _)|]; done. }
  do 3 (split; [done|]). split.
  - subst r. unfold Backend.generate, Backend.generation_down. rewrite Hfound.
    destruct llm as [ask|]; [destruct (ask _)|]; done.
  - intros trim tr process verify chatInput workspace Hq Hne -> Hr Hp net.
    assert (generateResponse net video_id (Client.generateRequest (trim chatInput))
            = Eff.Resolved r) as Hg by (by rewrite Hq).
    pose proof (Client_chat_answered trim net video_id chatInput workspace r
                  ltac:(by rewrite Hq) Hr Hp Hg Hs) as Hc.
    destruct (Workspace_chat_answered trim net video_id chatInput workspace r
                ltac:(by rewrite Hq) Hr Hg Hs) as (fc & Hw & _ & Hfc).
    rewrite Hc, Hw. split; [|split; [|split]].
    + do 4 apply list_elem_of_further. apply list_elem_of_here.
    + apply elem_of_app. left.
      do 4 apply list_elem_of_further. apply list_elem_of_here.
    + intros msg Hin. rewrite !elem_of_cons, elem_of_nil in Hin.
      repeat (destruct Hin as [Hin|Hin]; [discriminate|]). done.
    + intros msg [Hin|Hin]%elem_of_app; [|by apply Hfc in Hin].
      rewrite !elem_of_cons, elem_of_nil in Hin.
      repeat (destruct Hin as [Hin|Hin]; [discriminate|]). done.
Qed.
End Rag.

Lemma already_processed_is_success_witness :
  Backend.process nat (λ s, Some (String.length s)) 0
    {[ Backend.collection_of "v1" :=
         {| Backend.entries := []; Backend.last_updated := 0 |} ]}
    "v1"
    [ {| Backend.chunk_text := "AI safety is important.";
         Backend.start_timestamp := JS.of_Z 0;
         Backend.source_segment_index := 0 |} ]
    false
  = ({[ Backend.collection_of "v1" :=
          {| Backend.entries := []; Backend.last_updated := 0 |} ]},
     Backend.AlreadyProcessed).
Proof.
  assert (is_Some (({[ Backend.collection_of "v1" :=
                         {| Backend.entries := []; Backend.last_updated := 0 |} ]}
                    : gmap string (Backend.VideoCollection nat))
                   !! Backend.collection_of "v1")) as Hsome
    by (rewrite lookup_singleton_eq; by eexists).
  exact (proj1 (already_processed_is_success _ _ _ _ _ _ Hsome)).
Defined.

Lemma generation_failure_degrades_witness :
  let rs := [ {| text := "Sam Altman discussed risk mitigation.";
                 timestamp := Some (JS.of_Z 12); segment_index := JS.of_Z 0;
                 relevance_score := JS.Fin (Q2Qc (9 # 10));
                 metadata := [] |} ] in
  let r := Backend.generate nat (λ _ _ _ _, Backend.Found rs)
             (λ q _, q) (λ rs, String.concat " " (text <$> rs))
             (Some (λ _, Backend.Timeout)) ∅ "v1" "risk mitigation" 100 in
  gen_success r = true ∧ retrieval_only r = true ∧ sources r = rs.
Proof.
  intros rs r.
  destruct (generation_failure_degrades nat (λ _ _ _ _, Backend.Found rs)
              (λ q _, q) (λ rs, String.concat " " (text <$> rs))
              (Some (λ _, Backend.Timeout)) ∅ "v1" "risk mitigation" 100 rs
              eq_refl) as (Hs & Hsrc & _ & Hdown & _).
  destruct (Hdown eq_refl) as [Hro _]. done.
Defined.

End EndToEnd.

(* ===================================================================== *)
(** * Verdicts                                                             *)
(* ===================================================================== *)

Section Verdicts.
Import Api.





(** The badge of the client page knows the verdicts [Supported] and
    [Contradicted]; each of the four literals of [VerificationStatus] falls
    into its last branch. *)
Lemma client_badge_of_status (v : VerificationStatus) :
  Client.verdictBadgeClass (VerificationStatus_literal v) = "fact-check-unclear".
Proof. by destruct v. Qed.

Lemma clamp01_range (q : Qc) : (0 ≤ Backend.clamp01 q ≤ 1)%Qc.
Proof.
  unfold Backend.clamp01. repeat case_bool_decide; split; try done.
  - by apply Qcnot_lt_le.
  - by apply Qcnot_lt_le.
Qed.

(** On the model the confidence of a verdict is in [0,1] as soon as the
    fixed floor is. *)
Lemma confidence_of_range threshold unclear_floor confidence_formula evidence :
  (0 ≤ unclear_floor ≤ 1)%Qc →
  (0 ≤ Backend.confidence_of threshold unclear_floor confidence_formula evidence ≤ 1)%Qc.
Proof.
  intros Hfloor. unfold Backend.confidence_of.
  destruct (Backend.usable evidence); [done|]. apply clamp01_range.
Qed.








End Verdicts.

(* ===================================================================== *)
(** * The store: slices, persistence and the algebra of its actions        *)
(* ===================================================================== *)

Section StoreAlgebra.
Import Api Store StoreRest.

(** X1. Every action rewrites the one top-level key it hands to [set] and
    leaves the three others as they were; what [persist] stores can only
    change through [setTheme] and the three saved-insight actions. *)
Theorem actions_keep_other_slices (a : StoreAction) (st : AppState) :
  (slice_of a ≠ SearchSlice → search (dispatch a st) = search st)
  ∧ (slice_of a ≠ WorkspaceSlice → workspace (dispatch a st) = workspace st)
  ∧ (slice_of a ≠ UiSlice → ui (dispatch a st) = ui st)
  ∧ (slice_of a ≠ SavedSlice → savedInsights (dispatch a st) = savedInsights st)
  ∧ (slice_of a ≠ SavedSlice → (∀ t, a ≠ SetTheme t) →
     partialize (dispatch a st) = partialize st).
Proof.
  destruct a; simpl; repeat split; try done; intros; try done.
  by destruct (H0 t).
Qed.

Lemma actions_keep_other_slices_witness :
  partialize
    (dispatch (AddChatMessage
                 {| nm_type := user; nm_content := "hi"; nm_sources := None;
                    nm_factCheck := None; nm_isTyping := None |} 1 2)
       initialState)
  = partialize initialState.
Proof.
  apply (actions_keep_other_slices
           (AddChatMessage
              {| nm_type := user; nm_content := "hi"; nm_sources := None;
                 nm_factCheck := None; nm_isTyping := None |} 1 2)
           initialState); [discriminate | discriminate].
Defined.

Lemma merge_message_merge (m : ChatMessage) (u1 u2 : MessageUpdates) :
  merge_message (merge_message m u1) u2 = merge_message m (merge_updates u1 u2).
Proof.
  destruct m, u1 as [? ? ? ? ? ? ?], u2 as [[?|] [?|] [?|] [?|] [?|] [?|] [?|]];
    reflexivity.
Qed.

Lemma snoc_or_nil {A} (l : list A) : l = [] ∨ ∃ init lastm, l = init ++ [lastm].
Proof.
  induction l as [|x l IH] using rev_ind; [by left|]. right. by exists l, x.
Qed.

(** X2. Two [updateLastMessage] in a row are one, with the second object
    spread over the first; and the empty object changes nothing. *)
Theorem updateLastMessage_composes (u1 u2 : MessageUpdates) (st : AppState) :
  updateLastMessage u2 (updateLastMessage u1 st)
  = updateLastMessage (merge_updates u1 u2) st
  ∧ updateLastMessage no_updates st = st.
Proof.
  destruct (snoc_or_nil (chatMessages (workspace st))) as [Hnil|(init & lastm & Hm)].
  - by rewrite !(updateLastMessage_empty _ st) by done.
  - rewrite (updateLastMessage_snoc u1 st init lastm Hm).
    rewrite (updateLastMessage_snoc (merge_updates u1 u2) st init lastm Hm).
    rewrite (updateLastMessage_snoc no_updates st init lastm Hm).
    rewrite (updateLastMessage_snoc u2 _ init (merge_message lastm u1)) by done.
    rewrite merge_message_merge, merge_no_updates. split; [done|].
    unfold set_workspace. simpl. rewrite <- Hm, with_chatMessages_id.
    by destruct st.
Qed.

(** [updateLastMessage] right after [addChatMessage] rewrites the message
    just added and nothing else. *)
Lemma update_after_add (message : NewMessage) (now date : JS.Date)
    (updates : MessageUpdates) (st : AppState) :
  chatMessages (workspace (updateLastMessage updates
                             (addChatMessage message now date st)))
  = chatMessages (workspace st)
    ++ [ merge_message
           {| id := JS.toString now; type := nm_type message;
              content := nm_content message; cm_timestamp := date;
              cm_sources := nm_sources message;
              factCheck := nm_factCheck message;
              isTyping := nm_isTyping message |} updates ].
Proof.
  erewrite (updateLastMessage_snoc updates _ (chatMessages (workspace st)));
    [done|]. reflexivity.
Qed.

(** X3. [removeSavedInsight]: removing an id that no insight has changes
    nothing; afterwards no insight has the id; removing twice is removing
    once; two removals can be swapped; and the list never grows. *)
Theorem removeSavedInsight_algebra (id1 id2 : string) (st : AppState) :
  (id1 ∉ (si_id <$> savedInsights st) → removeSavedInsight id1 st = st)
  ∧ (id1 ∉ (si_id <$> savedInsights (removeSavedInsight id1 st)))
  ∧ removeSavedInsight id1 (removeSavedInsight id1 st) = removeSavedInsight id1 st
  ∧ removeSavedInsight id1 (removeSavedInsight id2 st)
    = removeSavedInsight id2 (removeSavedInsight id1 st)
  ∧ (length (savedInsights (removeSavedInsight id1 st))
     ≤ length (savedInsights st))%nat.
Proof.
  assert (id1 ∉ (si_id <$> savedInsights (removeSavedInsight id1 st))) as Hgone.
  { simpl. rewrite list_elem_of_fmap. intros (x & -> & Hx).
    apply list_elem_of_filter in Hx as [Hne _]. done. }
  split; [|split; [done|split; [|split]]].
  - intros Hid. unfold removeSavedInsight, set_savedInsights.
    rewrite filter_other_ids by done. by destruct st.
  - unfold removeSavedInsight at 1, set_savedInsights.
    rewrite filter_other_ids by done. by destruct st.
  - unfold removeSavedInsight, set_savedInsights. simpl.
    rewrite !list_filter_filter. f_equal. apply list_filter_iff. tauto.
  - simpl. apply length_filter.
Qed.

Lemma removeSavedInsight_algebra_witness :
  removeSavedInsight "42" initialState = initialState.
Proof.
  refine (proj1 (removeSavedInsight_algebra "42" "42" initialState) _).
  simpl. apply not_elem_of_nil.
Defined.

End StoreAlgebra.


(* ===================================================================== *)
(** * The handlers of the workspace pages                                 *)
(* ===================================================================== *)

Section PageFacts.
Import Api Store StoreRest Page PageRest.

Ltac run_page :=
  cbv beta iota zeta delta
      [Workspace.handleChatSubmit Client.handleChatSubmit
       Workspace.factCheckResponse Workspace.processTranscriptForRAG
       Client.processTranscriptForRAG Client.handleVerify
       initializeWorkspace initializeWorkspace_client
       retryTranscriptProcessing manualRetry retry_callback lift
       mbind mret M_bind M_ret Eff.bind Eff.ret Eff.emit Eff.throw
       Eff.try_catch Eff.finally Eff.await Eff.trace Eff.result Eff.returns
       act toast fst snd];
  simpl.

(** X4. [processTranscriptForRAG] of either page: when it is over the store is
    not processing any more; it says [ragReady] and [isProcessed] exactly
    when the handler returned rather than threw, and then the transcript
    it holds is not empty; the chat is as it was; a toast it shows is one
    of success when it returned and one of error when it threw; and the
    API was asked at most for the transcript and then for processing with
    [overwrite = false], of this video. *)
Theorem processTranscriptForRAG_outcome (net : Net) (videoId : string)
    (clock : nat → JS.Date) (st : AppState) :
  Forall (λ m : Eff.M Event unit,
    let st' := run_store clock (Eff.trace m) st in
    isProcessing (workspace st') = false
    ∧ ragReady (workspace st') = Eff.returns m
    ∧ isProcessed (workspace st') = Eff.returns m
    ∧ (if Eff.returns m then
         transcript (workspace st') ≠ []
         ∧ ∃ tr, getTranscript net videoId = Eff.Resolved tr
                 ∧ segments tr = Some (transcript (workspace st'))
       else True)
    ∧ chatMessages (workspace st') = chatMessages (workspace st)
    ∧ Forall (λ t, t.1 = if Eff.returns m then success else Page.error)
        (toasts (Eff.trace m))
    ∧ calls (Eff.trace m)
      `prefix_of` [GetTranscript videoId;
                   ProcessTranscript videoId {| overwrite := false |}])
  [Workspace.processTranscriptForRAG net videoId;
   Client.processTranscriptForRAG net videoId].
Proof.
  repeat first [apply Forall_cons_2 | apply Forall_nil_2]; run_page;
    (destruct (getTranscript net videoId) as [tr|e] eqn:Ht; simpl;
     [destruct (tr_success tr) eqn:Hs; simpl;
      [destruct (segments tr) as [[|seg segs]|] eqn:Hsegs; simpl;
       [| destruct (processTranscript net videoId _) as [resp|e] eqn:Hp; simpl;
          [destruct (proc_success resp) eqn:Hok; simpl;
           [|destruct (opt_includes _ (proc_error resp)) eqn:Hin; simpl] |] |] |] |]);
    repeat (first [ case_bool_decide
                  | match goal with
                    | |- context [includes ?a ?b] => destruct (includes a b)
                    end ]; simpl);
    repeat split; try done; try (by eexists); eauto;
    by repeat constructor.
Qed.

Lemma updateLastMessage_chat (u : MessageUpdates) (s1 s2 : AppState) :
  chatMessages (workspace s1) = chatMessages (workspace s2) →
  chatMessages (workspace (updateLastMessage u s1))
  = chatMessages (workspace (updateLastMessage u s2)).
Proof.
  intros Heq.
  destruct (snoc_or_nil (chatMessages (workspace s2))) as [Hnil|(init & lastm & Hm)].
  - rewrite !updateLastMessage_empty; congruence.
  - rewrite (updateLastMessage_snoc u s1 init lastm) by congruence.
    by rewrite (updateLastMessage_snoc u s2 init lastm).
Qed.

Lemma updateLastMessage_other (u : MessageUpdates) (st : AppState) :
  let st' := updateLastMessage u st in
  length (chatMessages (workspace st')) = length (chatMessages (workspace st))
  ∧ with_chatMessages (workspace st') [] = with_chatMessages (workspace st) []
  ∧ search st' = search st ∧ ui st' = ui st
  ∧ savedInsights st' = savedInsights st.
Proof.
  destruct (snoc_or_nil (chatMessages (workspace st))) as [Hnil|(init & lastm & Hm)];
    cbv zeta.
  - by rewrite !updateLastMessage_empty.
  - rewrite (updateLastMessage_snoc u st init lastm) by done. simpl.
    rewrite Hm, !length_app. done.
Qed.

Lemma chat_kept (l : list StoreAction) (st : AppState) :
  Forall (λ a, keeps_chat a = true) l →
  chatMessages (workspace (foldl (λ st a, dispatch a st) st l))
  = chatMessages (workspace st).
Proof.
  revert st. induction l as [|a l IH]; intros st Hl; [done|].
  apply Forall_cons in Hl as [Ha Hl]. simpl. rewrite IH by done.
  by destruct a.
Qed.

#[local] Opaque updateLastMessage.

Ltac chat_now Hq :=
  solve [ repeat (progress (simpl; rewrite ?chat_kept by apply Hq));
          reflexivity ].

Ltac last_message Hq :=
  unfold run_store, run_store_during; simpl;
  repeat match goal with
         | |- context [updateLastMessage ?u ?s] =>
             erewrite (updateLastMessage_snoc u s) by chat_now Hq;
             simpl
         end;
  repeat (progress (simpl; rewrite ?chat_kept by apply Hq));
  unfold merge_message; simpl.

Ltac answered :=
  first [by left | right; eauto 10].

Ltac new_messages Hq :=
  last_message Hq; do 3 eexists;
  split; [rewrite <- ?app_assoc; reflexivity|];
  first [ split; [answered | done] | answered ].

Ltac submitted :=
  split; [done|];
  split; [new_messages I|];
  split; [let Hq := fresh "Hquiet" in intros ? Hq; new_messages Hq
         |intros ? ? ? ? ? ?; new_messages I].

(** X5. [handleChatSubmit] of either page never throws, and stopped by
    its guard it does nothing at all.  Otherwise, with nothing else
    touching the store meanwhile, the chat ends two messages longer: the
    question as typed and trimmed, and one assistant message that is not
    typing any more and carries either the answer and its sources, or the
    apology and no sources; [ragReady], the transcript and the saved
    insights are as before.  The chat ends the same way when other
    handlers dispatch store actions while this one awaits the API, as
    long as none of them adds to, rewrites or clears the chat.  The form
    stays enabled while the answer is awaited: when two messages are
    added to the chat meanwhile, as a second submit does with its
    question and its placeholder, the answer or the apology of this run
    is written into the last of them, and the placeholder of this run
    stays as it was, empty and typing.  The handler is that of a
    render showing the store as it is, and [clock] gives the four
    readings the two [addChatMessage] make. *)
Theorem handleChatSubmit_settles (trim : string → string) (net : Net)
    (videoId chatInput : string) (clock : nat → JS.Date) (st : AppState) :
  let question :=
    {| id := JS.toString (clock 0%nat); type := user;
       content := trim chatInput; cm_timestamp := clock 1%nat;
       cm_sources := None; factCheck := None; isTyping := None |} in
  let placeholder :=
    {| id := JS.toString (clock 2%nat); type := assistant; content := "";
       cm_timestamp := clock 3%nat; cm_sources := None; factCheck := None;
       isTyping := Some true |} in
  let apology :=
    "Sorry, I encountered an error while processing your question. Please try again." in
  let answer_of reply cited :=
    ∃ r, generateResponse net videoId {| query := trim chatInput; top_k := 100 |}
         = Eff.Resolved r
         ∧ gen_success r = true ∧ reply = answer r ∧ cited = Some (sources r) in
  let settles (m : Eff.M Event unit) (stopped : bool) :=
    Eff.returns m = true
    ∧ if stopped then Eff.trace m = []
      else
        (let st' := run_store clock (Eff.trace m) st in
         ∃ reply cited checked,
           chatMessages (workspace st')
           = chatMessages (workspace st)
             ++ [ question;
                  {| id := JS.toString (clock 2%nat); type := assistant;
                     content := reply; cm_timestamp := clock 3%nat;
                     cm_sources := cited; factCheck := checked;
                     isTyping := Some false |} ]
           ∧ (reply = apology ∧ cited = None ∧ checked = None
              ∨ answer_of reply cited)
           ∧ ragReady (workspace st') = ragReady (workspace st)
           ∧ transcript (workspace st') = transcript (workspace st)
           ∧ savedInsights st' = savedInsights st)
        ∧ (∀ during,
             (∀ c, Forall (λ a, keeps_chat a = true) (during c)) →
             ∃ reply cited checked,
               chatMessages
                 (workspace (run_store_during clock during (Eff.trace m) st))
               = chatMessages (workspace st)
                 ++ [ question;
                      {| id := JS.toString (clock 2%nat); type := assistant;
                         content := reply; cm_timestamp := clock 3%nat;
                         cm_sources := cited; factCheck := checked;
                         isTyping := Some false |} ]
               ∧ (reply = apology ∧ cited = None ∧ checked = None
                  ∨ answer_of reply cited))
        ∧ (∀ first now1 date1 other now date,
             ∃ reply cited checked,
               chatMessages
                 (workspace
                    (run_store_during clock
                       (λ c, match c with
                             | GenerateResponse _ _ =>
                                 [StoreRest.AddChatMessage first now1 date1;
                                  StoreRest.AddChatMessage other now date]
                             | _ => []
                             end)
                       (Eff.trace m) st))
               = chatMessages (workspace st)
                 ++ [ question; placeholder;
                      {| id := JS.toString now1; type := nm_type first;
                         content := nm_content first; cm_timestamp := date1;
                         cm_sources := nm_sources first;
                         factCheck := nm_factCheck first;
                         isTyping := nm_isTyping first |};
                      {| id := JS.toString now; type := nm_type other;
                         content := reply; cm_timestamp := date;
                         cm_sources := cited; factCheck := checked;
                         isTyping := Some false |} ]
               ∧ (reply = apology ∧ cited = nm_sources other
                  ∧ checked = nm_factCheck other
                  ∨ answer_of reply cited)) in
  settles (Workspace.handleChatSubmit trim net videoId chatInput (workspace st))
          (bool_decide (trim chatInput = "") || negb (ragReady (workspace st)))
  ∧ settles (Client.handleChatSubmit trim net videoId chatInput (workspace st))
            (bool_decide (trim chatInput = "") || negb (ragReady (workspace st))
             || isProcessing (workspace st)).
Proof.
  split; run_page.
  - destruct (bool_decide (trim chatInput = "") || negb (ragReady (workspace st)));
      simpl; [done|].
    unfold Workspace.generateRequest.
    destruct (generateResponse net videoId _) as [r|e] eqn:Hg; simpl;
      [destruct (gen_success r) eqn:Hs; simpl;
       [case_bool_decide; simpl;
        [|destruct (verifyClaims net _) as [v|?]; simpl;
          [destruct (fv_success v && _); simpl|]] |] |];
      submitted.
  - destruct (bool_decide (trim chatInput = "") || negb (ragReady (workspace st))
              || isProcessing (workspace st)); simpl; [done|].
    unfold Client.generateRequest.
    destruct (generateResponse net videoId _) as [r|e] eqn:Hg; simpl;
      [destruct (gen_success r) eqn:Hs; simpl|]; submitted.
Qed.

(** X6. [factCheckResponse] never throws and never shows a toast, asks the
    verification service once, and leaves [factChecking] off.  Either the
    chat and [currentFactCheck] are as before, or the service answered
    with success and at least one verification, which is then both
    [currentFactCheck] and the [factCheck] of the last message. *)
Theorem factCheckResponse_quiet (net : Net) (videoId answer : string)
    (ragResponse : RAGGenerateResponse) (clock : nat → JS.Date) (st : AppState) :
  let m := Workspace.factCheckResponse net videoId answer ragResponse in
  let req := Workspace.factCheckRequest videoId answer ragResponse in
  let st' := run_store clock (Eff.trace m) st in
  Eff.returns m = true
  ∧ factChecking (workspace st') = false
  ∧ (∀ k msg, Toast k msg ∉ Eff.trace m)
  ∧ calls (Eff.trace m) = [VerifyClaims req]
  ∧ (chatMessages (workspace st') = chatMessages (workspace st)
     ∧ currentFactCheck (workspace st') = currentFactCheck (workspace st)
     ∨ ∃ v, verifyClaims net req = Eff.Resolved v
            ∧ fv_success v = true ∧ verifications v ≠ []
            ∧ currentFactCheck (workspace st') = Some (verifications v)
            ∧ chatMessages (workspace st')
              = chatMessages (workspace
                  (updateLastMessage
                     {| u_id := None; u_type := None; u_content := None;
                        u_timestamp := None; u_sources := None;
                        u_factCheck := Some (Some (verifications v));
                        u_isTyping := None |} st)))
  ∧ ragReady (workspace st') = ragReady (workspace st)
  ∧ length (chatMessages (workspace st')) = length (chatMessages (workspace st)).
Proof.
  run_page.
  destruct (verifyClaims net _) as [v|e] eqn:Hv; simpl;
    [destruct (fv_success v) eqn:Hs; simpl;
     [destruct (verifications v) as [|c cs] eqn:Hvs; simpl|] |];
    unfold run_store; simpl.
  all: split; [done|].
  all: try match goal with
           | |- context [updateLastMessage ?u ?s] =>
               destruct (updateLastMessage_other u s) as (Hlen & Hw & _);
               pose proof (updateLastMessage_chat u s st eq_refl) as Hchat;
               pose proof (f_equal ragReady Hw) as Hr;
               pose proof (f_equal currentFactCheck Hw) as Hc;
               simpl in Hlen, Hr, Hc
           end.
  all: split; [done|]; split;
    [intros k msg; rewrite ?elem_of_cons, ?elem_of_nil; intros Hin;
     repeat (destruct Hin as [Hin|Hin]; [discriminate|]); done|].
  all: split; [done|]; split; [|by split].
  all: first [by left | right; exists v; rewrite Hvs; by repeat split].
Qed.

Transparent updateLastMessage.

Lemma fetchVideoData_id (videoId : string) (recent : Recent) :
  ∀ video, fetchVideoData videoId recent = Some video → yv_id video = videoId.
Proof.
  destruct recent as [| |results]; simpl; intros video Hv; [by simplify_eq|done|].
  destruct (list_find _ results) as [[i found]|] eqn:Hfind; simplify_eq; [|done].
  by apply list_find_Some in Hfind as (_ & Hid & _).
Qed.

Lemma fetchVideoData_null (videoId : string) (recent : Recent) :
  fetchVideoData videoId recent = None → recent = Unreadable.
Proof.
  destruct recent as [| |results]; simpl; [done|done|].
  by destruct (list_find _ results) as [[i found]|].
Qed.

(** X7. [fetchVideoData] answers [null] only when reading the stored search
    results throws.  Otherwise the video it returns has the id of the
    page: it is the first stored result with that id when there is one,
    and the placeholder when there is none. *)
Theorem fetchVideoData_video (videoId : string) (recent : Recent) :
  match fetchVideoData videoId recent with
  | None => recent = Unreadable
  | Some video =>
      yv_id video = videoId
      ∧ match recent with
        | Results results =>
            (∃ i, results !! i = Some video
                  ∧ ∀ j other, results !! j = Some other → (j < i)%nat →
                               yv_id other ≠ videoId)
            ∨ (video = placeholder videoId
               ∧ ∀ other, other ∈ results → yv_id other ≠ videoId)
        | _ => video = placeholder videoId
        end
  end.
Proof.
  destruct recent as [| |results]; simpl; [done|done|].
  destruct (list_find _ results) as [[i video]|] eqn:Hfind; simpl.
  - apply list_find_Some in Hfind as (Hi & Hid & Hfirst).
    split; [done|]. left. exists i. split; [done|]. eauto.
  - split; [done|]. right. split; [done|].
    intros other Hin. eapply list_find_None in Hfind.
    rewrite Forall_forall in Hfind. by apply Hfind.
Qed.

(** X8. [initializeWorkspace] of podsearch-frontend never throws; called while
    an initialisation is under way it does nothing.  Otherwise the page
    ends neither initialising nor loading, and not processing unless the
    stored search results could not be read; the chat and the saved
    insights are as before, and either the store holds a video with
    the id of the page, a transcript that is not empty and says ready and
    processed, or it holds no video, says neither, and the failure toast
    was shown. *)
Theorem initializeWorkspace_outcome (net : Net) (videoId : string)
    (recent : Recent) (clock : nat → JS.Date) (v : View) :
  let m := initializeWorkspace net videoId recent (isInitializing v) in
  let v' := run_view clock (Eff.trace m) v in
  let w' := workspace (store v') in
  Eff.returns m = true
  ∧ if isInitializing v then Eff.trace m = []
    else
      isInitializing v' = false ∧ isLoading v' = false
      ∧ (recent = Unreadable ∨ isProcessing w' = false)
      ∧ chatMessages w' = chatMessages (workspace (store v))
      ∧ savedInsights (store v') = savedInsights (store v)
      ∧ ((∃ video, currentVideo w' = Some video ∧ yv_id video = videoId)
         ∧ transcript w' ≠ [] ∧ ragReady w' = true ∧ isProcessed w' = true
         ∨ currentVideo w' = None ∧ ragReady w' = false ∧ isProcessed w' = false
           ∧ Ev (Toast error "Failed to initialize workspace") ∈ Eff.trace m).
Proof.
  pose proof (fetchVideoData_id videoId recent) as Hid.
  pose proof (fetchVideoData_null videoId recent) as Hnone.
  run_page. destruct (isInitializing v); simpl; [done|].
  destruct (fetchVideoData videoId recent) as [video|]; simpl.
  2: { split; [done|]. repeat split; try done; [left; by apply Hnone|].
       right. repeat split; try done. repeat constructor. }
  run_page.
  destruct (getTranscript net videoId) as [tr|e] eqn:Ht; simpl;
    [destruct (tr_success tr) eqn:Hs; simpl;
     [destruct (segments tr) as [[|seg segs]|] eqn:Hsegs; simpl;
      [| destruct (processTranscript net videoId _) as [resp|e] eqn:Hp; simpl;
         [destruct (proc_success resp) eqn:Hok; simpl;
          [|destruct (opt_includes _ (proc_error resp)) eqn:Hin; simpl] |] |] |] |];
    repeat (first [ case_bool_decide
                  | match goal with
                    | |- context [includes ?a ?b] => destruct (includes a b)
                    end ]; simpl);
    (split; [done|]); repeat split; try done; try (by right);
    first [ left; repeat split; eauto; done
          | right; repeat split; try done; repeat constructor ].
Qed.

(** X9. [initializeWorkspace] of the client never throws; called while an
    initialisation is under way it does nothing.  Otherwise the page ends
    neither initialising nor loading and marked as initialised.  When the
    stored results cannot be read the error shown is that of the failed
    fetch, the video of the store is as before and no timer is set.
    Otherwise there is no error, the store holds the video, it says ready
    exactly when processing the transcript returned, and one retry is
    scheduled, after 2000 ms times the number of the attempt, exactly when
    processing threw and fewer than three retries were made.  The handler
    is that of a render showing the view as it is. *)
Theorem initializeWorkspace_client_outcome (net later : Net) (videoId : string)
    (recent : Recent) (clock : nat → JS.Date) (v : View) :
  let m := initializeWorkspace_client net later videoId recent
             (isInitializing v) (retryAttempts v) (workspace (store v)) in
  let v' := run_view clock (Eff.trace m) v in
  let w' := workspace (store v') in
  let processed := Eff.returns (Client.processTranscriptForRAG net videoId) in
  Eff.returns m = true
  ∧ if isInitializing v then Eff.trace m = []
    else
      isInitializing v' = false ∧ isLoading v' = false
      ∧ hasInitialized v' = true
      ∧ chatMessages w' = chatMessages (workspace (store v))
      ∧ match fetchVideoData videoId recent with
        | None =>
            initializationError v' = Some "Failed to fetch video data"
            ∧ currentVideo w' = currentVideo (workspace (store v))
            ∧ ragReady w' = false ∧ isProcessed w' = false
            ∧ timers (Eff.trace m) = []
        | Some video =>
            initializationError v' = None
            ∧ currentVideo w' = Some video
            ∧ ragReady w' = processed ∧ isProcessed w' = processed
            ∧ isProcessing w' = false
            ∧ retryAttempts v' = (if processed then 0 else retryAttempts v)
            ∧ timers (Eff.trace m)
              = if processed || negb (bool_decide (retryAttempts v < 3)) then []
                else [(2000 * (retryAttempts v + 1),
                       retry_callback later videoId (workspace (store v)))]
        end.
Proof.
  run_page. destruct (isInitializing v); simpl; [done|].
  destruct (fetchVideoData videoId recent) as [video|]; simpl; [|done].
  run_page.
  destruct (getTranscript net videoId) as [tr|e] eqn:Ht; simpl;
    [destruct (tr_success tr) eqn:Hs; simpl;
     [destruct (segments tr) as [[|seg segs]|] eqn:Hsegs; simpl;
      [| destruct (processTranscript net videoId _) as [resp|e] eqn:Hp; simpl;
         [destruct (proc_success resp) eqn:Hok; simpl;
          [|destruct (opt_includes _ (proc_error resp)) eqn:Hin; simpl] |] |] |] |];
    repeat (case_bool_decide; simpl); done.
Qed.

(** X10. The retries of the client.  [manualRetry] never throws and leaves the
    retry counter at 0 whether processing returns or throws.  The callback
    of the retry timer does nothing when the store it captured was ready
    or processing; otherwise it processes the transcript again, and the
    counter ends at 0 when that returns and one higher when it throws.
    Either way the store says ready exactly when processing returned, and
    no further timer is set. *)
Theorem retries_settle (net : Net) (videoId : string) (captured : WorkspaceState)
    (clock : nat → JS.Date) (v : View) :
  let manual := manualRetry net videoId in
  let fired := retry_callback net videoId captured in
  let processed := Eff.returns (Client.processTranscriptForRAG net videoId) in
  let after_manual := run_view clock (Eff.trace manual) v in
  let after_timer := run_view clock fired v in
  Eff.returns manual = true
  ∧ retryAttempts after_manual = 0
  ∧ ragReady (workspace (store after_manual)) = processed
  ∧ timers (Eff.trace manual) = [] ∧ timers fired = []
  ∧ if negb (ragReady captured) && negb (isProcessing captured) then
      retryAttempts after_timer
      = (if processed then 0 else retryAttempts v + 1)
      ∧ ragReady (workspace (store after_timer)) = processed
      ∧ isProcessing (workspace (store after_timer)) = false
    else fired = [].
Proof.
  run_page.
  destruct (negb (ragReady captured) && negb (isProcessing captured)); simpl;
    (destruct (getTranscript net videoId) as [tr|e] eqn:Ht; simpl;
     [destruct (tr_success tr) eqn:Hs; simpl;
      [destruct (segments tr) as [[|seg segs]|] eqn:Hsegs; simpl;
       [| destruct (processTranscript net videoId _) as [resp|e] eqn:Hp; simpl;
          [destruct (proc_success resp) eqn:Hok; simpl;
           [|destruct (opt_includes _ (proc_error resp)) eqn:Hin; simpl] |] |] |] |]);
    done.
Qed.

(** X11. A click on a timestamp before the player is ready seeks nothing, not
    even when its 500 ms timer fires, and leaves the position pending.
    [onReady] then marks the player ready and clears the pending position;
    it seeks to it, once, when the player object is there, and drops it
    when it is not. *)
Theorem pending_seek_replayed (playerRef atReady : Client.PlayerRef)
    (timestamp : JS.number) (clock : nat → JS.Date) (v : View) :
  JS.lt0 timestamp = false → JS.isNaN timestamp = false →
  playerReady v = false →
  let click := Client.jumpToTimestamp (playerReady v) playerRef timestamp in
  let clicked := run_view clock (Ev <$> click) v in
  let ready := run_view clock (onReady (pendingSeek clicked) atReady) clicked in
  Client.seeks click = []
  ∧ seeked clicked = seeked v
  ∧ pendingSeek clicked = Some timestamp
  ∧ playerReady ready = true
  ∧ pendingSeek ready = None
  ∧ seeked ready
    = seeked v ++ match atReady with
                  | Client.Player _ => [timestamp]
                  | Client.NoPlayer => []
                  end
  ∧ store ready = store v.
Proof.
  intros Hlt Hnan Hready. unfold Client.jumpToTimestamp.
  rewrite Hlt, Hnan, Hready. simpl.
  destruct atReady; simpl; repeat split; try done.
  - by rewrite app_nil_r.
Qed.

Lemma pending_seek_replayed_witness :
  seeked (run_view (λ _, 0)
            (onReady (Some (JS.of_Z 75)) (Client.Player false))
            (run_view (λ _, 0)
               (Ev <$> Client.jumpToTimestamp false Client.NoPlayer (JS.of_Z 75))
               {| store := initialState; reads := 0; isInitializing := false;
                  isLoading := false; initializationError := None;
                  hasInitialized := true; retryAttempts := 0;
                  pendingSeek := None; playerReady := false; seeked := [] |}))
  = [JS.of_Z 75].
Proof.
  apply (pending_seek_replayed Client.NoPlayer (Client.Player false)
           (JS.of_Z 75) (λ _, 0)
           {| store := initialState; reads := 0; isInitializing := false;
              isLoading := false; initializationError := None;
              hasInitialized := true; retryAttempts := 0;
              pendingSeek := None; playerReady := false; seeked := [] |});
    reflexivity.
Defined.


(** X13. Selecting text in an answer and verifying it.  A selection that is
    blank once trimmed changes nothing.  Any other selection replaces the
    entry of its message by the trimmed text, not verifying and without a
    result, whatever the entry was, so that [handleVerify] then asks the
    service about exactly that text; the entries of other messages stay.
    After [Clear] the message has no entry and [handleVerify] does
    nothing. *)
Theorem select_then_verify (trim : string → string) (net : Net)
    (sel messageId : string) (selections : Selections) :
  let selected := onMouseUp trim sel messageId selections in
  let cleared := clearSelection messageId selected in
  (if bool_decide (trim sel = "") then selected = selections
   else
     selected !! messageId
     = Some {| e_text := Some (trim sel); e_verifying := false;
               e_result := None |}
     ∧ calls (Eff.trace (Client.handleVerify net messageId
                           (selection_of selected messageId)))
       = [VerifyClaim (Client.verifyRequest (trim sel))])
  ∧ (∀ other, other ≠ messageId →
              selected !! other = selections !! other
              ∧ cleared !! other = selections !! other)
  ∧ cleared !! messageId = None
  ∧ Eff.trace (Client.handleVerify net messageId
                 (selection_of cleared messageId)) = [].
Proof.
  unfold onMouseUp, clearSelection, selection_of. cbv zeta.
  split; [|split; [|split]].
  - case_bool_decide as Hsel; [done|].
    rewrite lookup_insert_eq. split; [done|]. cbn [fmap option_fmap option_map].
    run_page. rewrite bool_decide_eq_false_2 by done. simpl.
    by destruct (verifyClaim net _) as [res|e];
      [destruct (ClientApi.vr_success res)|].
  - intros other Hother. rewrite lookup_delete_ne by done.
    case_bool_decide; [done|]. by rewrite lookup_insert_ne by done.
  - by rewrite lookup_delete_eq.
  - by rewrite lookup_delete_eq.
Qed.

End PageFacts.


(* ===================================================================== *)
(** * Searching, filtering and sorting                                    *)
(* ===================================================================== *)

Section SortFacts.
Import JS.
Context {A : Type} (compare : A → A → number) (key : A → number).
Hypothesis compare_key : ∀ a b, compare a b = Num.sub (key b) (key a).

#[local] Arguments Num.ltb : simpl never.
#[local] Arguments Num.sub : simpl never.

#[local] Abbreviation not_below := (Num.not_below key).

Lemma sort_insert_perm (x : A) (l : list A) : Num.sort_insert compare x l ≡ₚ x :: l.
Proof.
  induction l as [|y l IH]; simpl; [done|].
  destruct (Num.ltb _ _); [|done]. rewrite IH. apply Permutation_swap.
Qed.

Lemma sort_perm (l : list A) : Num.sort compare l ≡ₚ l.
Proof.
  induction l as [|x l IH]; simpl; [done|].
  rewrite sort_insert_perm. by rewrite IH.
Qed.

Lemma same_key_stays (a b : A) :
  key a = key b → Num.ltb (of_Z 0) (compare a b) = false.
Proof.
  intros Hk. rewrite compare_key, Hk. unfold Num.ltb, Num.sub.
  destruct (key b) as [| | |q]; try done.
  apply bool_decide_eq_false_2. unfold Qcminus. rewrite Qcplus_opp_r.
  apply Qcle_not_lt, Qcle_refl.
Qed.

Lemma sort_insert_stable (n : number) (x : A) (l : list A) :
  filter (λ v, key v = n) (Num.sort_insert compare x l)
  = filter (λ v, key v = n) (x :: l).
Proof.
  induction l as [|y l IH]; simpl; [done|].
  destruct (Num.ltb _ _) eqn:Hlt; [|done].
  rewrite !filter_cons in *.
  destruct (decide (key y = n)) as [Hy|Hy], (decide (key x = n)) as [Hx|Hx];
    rewrite ?IH; try done.
  rewrite same_key_stays in Hlt by congruence. done.
Qed.

Lemma sort_stable (n : number) (l : list A) :
  filter (λ v, key v = n) (Num.sort compare l) = filter (λ v, key v = n) l.
Proof.
  induction l as [|x l IH]; simpl; [done|].
  rewrite sort_insert_stable, !filter_cons, IH. done.
Qed.

Lemma behind_is_below (x y : A) :
  Num.finite (key x) → Num.finite (key y) →
  Num.ltb (of_Z 0) (compare x y) = Num.ltb (key x) (key y).
Proof.
  rewrite compare_key. unfold Num.ltb, Num.sub, Num.finite.
  destruct (key x) as [| | |a], (key y) as [| | |b]; try done.
  intros _ _. apply bool_decide_ext. symmetry. apply Qclt_minus_iff.
Qed.

Lemma not_below_trans (a b c : A) :
  Num.finite (key a) → Num.finite (key b) → Num.finite (key c) →
  not_below a b → not_below b c → not_below a c.
Proof.
  unfold Num.not_below, Num.ltb, Num.finite.
  destruct (key a) as [| | |x], (key b) as [| | |y], (key c) as [| | |z];
    try done.
  intros _ _ _ Hab%bool_decide_eq_false Hbc%bool_decide_eq_false.
  apply bool_decide_eq_false.
  apply Qcnot_lt_le in Hab, Hbc. apply Qcle_not_lt. by etrans.
Qed.

Lemma below_not_below (a b : A) :
  Num.finite (key a) → Num.finite (key b) →
  Num.ltb (key a) (key b) = true → not_below b a.
Proof.
  unfold Num.not_below, Num.ltb, Num.finite.
  destruct (key a) as [| | |x], (key b) as [| | |y]; try done.
  intros _ _ Hab%bool_decide_eq_true. apply bool_decide_eq_false.
  apply Qcle_not_lt. by apply Qclt_le_weak.
Qed.

Lemma sort_insert_sorted (x : A) (l : list A) :
  Num.finite (key x) → Forall (λ v, Num.finite (key v)) l →
  StronglySorted not_below l →
  StronglySorted not_below (Num.sort_insert compare x l).
Proof.
  intros Hx Hl Hs. induction Hs as [|y l Hs IH Hy]; simpl.
  - repeat constructor.
  - apply Forall_cons in Hl as [Hfy Hl].
    rewrite behind_is_below by done.
    destruct (Num.ltb (key x) (key y)) eqn:Hlt.
    + constructor; [by apply IH|].
      rewrite sort_insert_perm. constructor; [|done].
      by apply below_not_below.
    + constructor; [by constructor|]. constructor; [done|].
      rewrite Forall_forall in Hy, Hl |- *. intros z Hz.
      apply (not_below_trans x y z); auto.
Qed.

Lemma sort_sorted (l : list A) :
  Forall (λ v, Num.finite (key v)) l →
  StronglySorted not_below (Num.sort compare l).
Proof.
  induction 1 as [|x l Hx Hl IH]; simpl; [constructor|].
  apply sort_insert_sorted; [done| |done].
  by rewrite sort_perm.
Qed.

End SortFacts.


Section SearchFacts.
Import Api Store StoreRest SearchPage.

Ltac run_search :=
  cbv beta iota zeta delta
      [handleSearch handleSearch_home
       mbind mret M_bind M_ret Eff.bind Eff.ret Eff.emit Eff.throw
       Eff.try_catch Eff.finally Eff.await Eff.trace Eff.result Eff.returns
       fst snd];
  simpl.

(** X14. [handleSearch] of the search page never throws and touches the search
    slice only.  A query that is blank once trimmed gets a toast and
    nothing else.  Otherwise the API is asked once, for 20 results; the
    store ends not loading and with the query as typed; a reply replaces
    the results and leaves no error; a failure keeps the results, sets
    the error and shows a toast. *)
Theorem handleSearch_outcome (trim : string → string)
    (searchVideos : string → Z → Eff.Reply YouTubeSearchResponse)
    (query : string) (st : AppState) :
  let m := handleSearch trim searchVideos query in
  let st' := run_store (Eff.trace m) st in
  Eff.returns m = true
  ∧ workspace st' = workspace st ∧ ui st' = ui st
  ∧ savedInsights st' = savedInsights st
  ∧ if bool_decide (trim query = "") then
      st' = st ∧ requests (Eff.trace m) = []
      ∧ toasts (Eff.trace m) = [(Page.error, "Please enter a search query")]
    else
      loading (search st') = false ∧ ss_query (search st') = query
      ∧ requests (Eff.trace m) = [(query, 20)]
      ∧ match searchVideos query 20 with
        | Eff.Resolved reply =>
            results (search st') = sr_results reply
            ∧ ss_error (search st') = None
            ∧ toasts (Eff.trace m) = []
        | Eff.Rejected _ =>
            results (search st') = results (search st)
            ∧ ss_error (search st') = Some "Failed to search. Please try again."
            ∧ toasts (Eff.trace m)
              = [(Page.error, "Search failed. Please try again.")]
        end.
Proof.
  run_search. case_bool_decide; simpl; [done|].
  destruct (searchVideos query 20); done.
Qed.

(** X15. [handleSearch] of the home page never throws and touches the search
    slice only.  A query that is blank once trimmed gets a toast and
    nothing else.  Otherwise the API is asked once, for 10 results; the
    store ends not loading, with the query as typed and with the error it
    had; a reply replaces the results and the page moves to [/search]; a
    failure keeps the results, shows a toast and stays. *)
Theorem handleSearch_home_outcome (trim : string → string)
    (searchVideos : string → Z → Eff.Reply YouTubeSearchResponse)
    (query : string) (st : AppState) :
  let m := handleSearch_home trim searchVideos query in
  let st' := run_store (Eff.trace m) st in
  Eff.returns m = true
  ∧ workspace st' = workspace st ∧ ui st' = ui st
  ∧ savedInsights st' = savedInsights st
  ∧ ss_error (search st') = ss_error (search st)
  ∧ if bool_decide (trim query = "") then
      st' = st ∧ requests (Eff.trace m) = [] ∧ pushes (Eff.trace m) = []
      ∧ toasts (Eff.trace m) = [(Page.error, "Please enter a search query")]
    else
      loading (search st') = false ∧ ss_query (search st') = query
      ∧ requests (Eff.trace m) = [(query, 10)]
      ∧ last (Eff.trace m) = Some (Do (SetSearchLoading false))
      ∧ match searchVideos query 10 with
        | Eff.Resolved reply =>
            results (search st') = sr_results reply
            ∧ pushes (Eff.trace m) = ["/search"]
            ∧ toasts (Eff.trace m) = []
        | Eff.Rejected _ =>
            results (search st') = results (search st)
            ∧ pushes (Eff.trace m) = []
            ∧ toasts (Eff.trace m)
              = [(Page.error, "Failed to search. Please try again.")]
        end.
Proof.
  run_search. case_bool_decide; simpl; [done|].
  destruct (searchVideos query 10); done.
Qed.

Section Results.
Variable Date_getTime : string → JS.number.

#[local] Abbreviation get := (getFilteredAndSortedResults Date_getTime).
#[local] Abbreviation key := (sort_key Date_getTime).

Lemma compare_sort_key (sortBy : string) (a b : YouTubeVideo) :
  compare Date_getTime sortBy a b = Num.sub (key sortBy b) (key sortBy a).
Proof.
  unfold compare, sort_key. repeat case_bool_decide; done.
Qed.

Lemma sort_unordered {A} (compare : A → A → JS.number) (l : list A) :
  (∀ a b, Num.ltb (JS.of_Z 0) (compare a b) = false) →
  Num.sort compare l = l.
Proof.
  intros Hc. unfold Num.sort. induction l as [|x l IH]; [done|].
  cbn [foldr]. rewrite IH.
  destruct l as [|y l]; cbn [Num.sort_insert]; [done|]. by rewrite Hc.
Qed.

Lemma in_relevance_order (results : list YouTubeVideo) (filterBy sortBy : string) :
  sortBy ∉ ["upload_date"; "view_count"; "duration"] →
  get results filterBy sortBy
  = if bool_decide (filterBy = "all") then results
    else filter (λ video, in_duration filterBy video = true) results.
Proof.
  intros Hs. unfold getFilteredAndSortedResults.
  rewrite sort_unordered.
  - repeat case_bool_decide; done.
  - intros a b. unfold compare.
    repeat case_bool_decide; subst; try done; exfalso; apply Hs;
      repeat constructor.
Qed.

(** X16. Sorting shows the videos the filter lets through, each as often as
    before.  With a sort order the page does not know they stay in the
    order of the results.  When the numbers sorted by are finite, no video
    is followed by one with a larger number, and videos with the same
    number stay in the order of the results. *)
Theorem sorted_results (results : list YouTubeVideo) (filterBy sortBy : string) :
  Forall (λ video, Num.finite (key sortBy video)) results →
  let shown := get results filterBy sortBy in
  let unsorted := get results filterBy "relevance" in
  shown ≡ₚ unsorted
  ∧ sublist unsorted results
  ∧ (sortBy ∉ ["upload_date"; "view_count"; "duration"] → shown = unsorted)
  ∧ StronglySorted (Num.not_below (key sortBy)) shown
  ∧ ∀ n, filter (λ video, key sortBy video = n) shown
         = filter (λ video, key sortBy video = n) unsorted.
Proof.
  intros Hfin shown unsorted.
  assert (unsorted = if bool_decide (filterBy = "all") then results
                     else filter (λ video, in_duration filterBy video = true) results)
    as Hun.
  { apply in_relevance_order. rewrite !elem_of_cons, elem_of_nil.
    intros [?|[?|[?|[]]]]; discriminate. }
  assert (shown = Num.sort (compare Date_getTime sortBy) unsorted) as Hshown.
  { rewrite Hun. unfold shown, getFilteredAndSortedResults.
    repeat case_bool_decide; done. }
  assert (sublist unsorted results) as Hsub.
  { rewrite Hun. case_bool_decide; [done|]. apply sublist_filter. }
  split; [|split; [done|split; [|split]]].
  - rewrite Hshown. apply sort_perm.
  - intros Hs. rewrite Hun. by apply in_relevance_order.
  - rewrite Hshown.
    apply (sort_sorted _ _ (compare_sort_key sortBy)).
    rewrite Forall_forall in Hfin |- *. intros video Hin.
    apply Hfin. by eapply elem_of_sublist.
  - intros n. rewrite Hshown.
    apply (sort_stable _ _ (compare_sort_key sortBy)).
Qed.

Lemma filter_every {A} (P : A → Prop) `{!∀ x, Decision (P x)} (l : list A) :
  (∀ x, P x) → filter P l = l.
Proof.
  intros HP. induction l as [|x l IH]; [done|].
  by rewrite filter_cons_True, IH.
Qed.

Lemma three_way {A} (P Q R : A → Prop) `{!∀ x, Decision (P x)}
    `{!∀ x, Decision (Q x)} `{!∀ x, Decision (R x)} (l : list A) :
  (∀ x, (P x ∧ ¬ Q x ∧ ¬ R x) ∨ (¬ P x ∧ Q x ∧ ¬ R x) ∨ (¬ P x ∧ ¬ Q x ∧ R x)) →
  filter P l ++ filter Q l ++ filter R l ≡ₚ l.
Proof.
  intros Hone. induction l as [|x l IH]; [done|].
  rewrite !filter_cons.
  destruct (Hone x) as [(? & ? & ?)|[(? & ? & ?)|(? & ? & ?)]];
    repeat case_decide; try done; simpl.
  - by rewrite IH.
  - rewrite <- Permutation_middle. by rewrite IH.
  - rewrite app_assoc, <- Permutation_middle, <- app_assoc. by rewrite IH.
Qed.

Lemma one_duration (video : YouTubeVideo) :
  let short := in_duration "short" video = true in
  let medium := in_duration "medium" video = true in
  let long := in_duration "long" video = true in
  (short ∧ ¬ medium ∧ ¬ long) ∨ (¬ short ∧ medium ∧ ¬ long)
  ∨ (¬ short ∧ ¬ medium ∧ long).
Proof.
  unfold in_duration. simpl.
  destruct (yv_duration video) as [[| | |q]|]; simpl; try (left; by repeat split);
    try (right; right; by repeat split).
  assert ((q < Q2Qc (inject_Z 600))%Qc → (q < Q2Qc (inject_Z 1800))%Qc) as Himp.
  { intros Hq. by etrans. }
  repeat case_bool_decide; simpl; try (exfalso; by auto);
    first [ left; by repeat split
          | right; left; by repeat split
          | right; right; by repeat split ].
Qed.

(** X17. The duration filters: [all], and any filter the page does not know,
    show every result; [short], [medium] and [long] together show every
    result exactly once, whatever its duration is; and a video without a
    duration, or with one that is not a number, counts as short. *)
Theorem duration_filters_partition (results : list YouTubeVideo) :
  let shown filterBy := get results filterBy "relevance" in
  shown "all" = results
  ∧ (∀ filterBy, filterBy ∉ ["short"; "medium"; "long"] →
                 shown filterBy = results)
  ∧ shown "short" ++ shown "medium" ++ shown "long" ≡ₚ results
  ∧ ∀ video, yv_duration video = None ∨ yv_duration video = Some JS.NaN →
             video ∈ results → video ∈ shown "short".
Proof.
  assert (∀ f, get results f "relevance"
               = if bool_decide (f = "all") then results
                 else filter (λ video, in_duration f video = true) results) as Hget.
  { intros f. apply in_relevance_order. rewrite !elem_of_cons, elem_of_nil.
    intros [?|[?|[?|[]]]]; discriminate. }
  cbv beta zeta. rewrite !Hget. simpl. split; [done|split; [|split]].
  - intros f Hf. rewrite Hget. case_bool_decide; [done|].
    apply filter_every. intros video. unfold in_duration.
    repeat case_bool_decide; subst; try done; exfalso; apply Hf;
      repeat constructor.
  - apply three_way. intros video. apply (one_duration video).
  - intros video Hd Hin. apply list_elem_of_filter. split; [|done].
    unfold in_duration. simpl. by destruct Hd as [-> | ->].
Qed.

End Results.

Lemma sorted_results_witness :
  getFilteredAndSortedResults (λ _, JS.NaN)
    [PageRest.placeholder "a"; PageRest.placeholder "b"] "short" "duration"
  ≡ₚ getFilteredAndSortedResults (λ _, JS.NaN)
       [PageRest.placeholder "a"; PageRest.placeholder "b"] "short" "relevance".
Proof.
  apply (sorted_results (λ _, JS.NaN)
           [PageRest.placeholder "a"; PageRest.placeholder "b"]
           "short" "duration").
  repeat constructor.
Defined.

End SearchFacts.


(* ===================================================================== *)
(** * The page of saved insights                                          *)
(* ===================================================================== *)

Section SavedFacts.
Import Api Store SavedPage.

(** X18. [formatTimeAgo] counts whole minutes below an hour, whole hours from
    an hour to a day, and whole days from a day on; the number shown is
    the elapsed time rounded down to the unit, below 60 for minutes and
    from 1 to 23 for hours.  A date in the future is shown in minutes,
    with a negative number. *)
Theorem formatTimeAgo_units (now date : JS.Date) :
  let diff := now - date in
  ∃ n unit,
    formatTimeAgo now date = JS.toString n +:+ unit
    ∧ (unit = "m ago" ∧ diff < 3600000 ∧ n < 60
       ∧ 60000 * n ≤ diff < 60000 * (n + 1)
       ∨ unit = "h ago" ∧ 3600000 ≤ diff < 86400000 ∧ 1 ≤ n < 24
         ∧ 3600000 * n ≤ diff < 3600000 * (n + 1)
       ∨ unit = "d ago" ∧ 86400000 ≤ diff ∧ 1 ≤ n
         ∧ 86400000 * n ≤ diff < 86400000 * (n + 1))
    ∧ (diff < 0 → unit = "m ago" ∧ n < 0).
Proof.
  intros diff. unfold formatTimeAgo. fold diff.
  pose proof (Z.div_mod diff 60000 ltac:(lia)) as Hm.
  pose proof (Z.mod_pos_bound diff 60000 ltac:(lia)) as Hm'.
  pose proof (Z.div_mod diff 3600000 ltac:(lia)) as Hh.
  pose proof (Z.mod_pos_bound diff 3600000 ltac:(lia)) as Hh'.
  pose proof (Z.div_mod diff 86400000 ltac:(lia)) as Hd.
  pose proof (Z.mod_pos_bound diff 86400000 ltac:(lia)) as Hd'.
  repeat case_bool_decide.
  - exists (diff `div` 60000), "m ago". split; [done|].
    split; [left; repeat split; (done || lia) | intros ?; split; [done|lia]].
  - exists (diff `div` 3600000), "h ago". split; [done|].
    split; [right; left; repeat split; (done || lia) | intros ?; lia].
  - exists (diff `div` 86400000), "d ago". split; [done|].
    split; [right; right; repeat split; (done || lia) | intros ?; lia].
Qed.

Lemma formatTimeAgo_units_witness :
  ∃ n unit, formatTimeAgo 0 90000 = JS.toString n +:+ unit
            ∧ unit = "m ago" ∧ n < 0.
Proof.
  destruct (formatTimeAgo_units 0 90000) as (n & unit & Heq & _ & Hneg).
  exists n, unit. split; [exact Heq|]. apply Hneg. reflexivity.
Defined.

Section Filter.
Variable toLowerCase : string → string.

#[local] Abbreviation get := (filteredInsights toLowerCase).

Lemma verified_or_not (searchQuery : string) (insight : SavedInsight) :
  shown toLowerCase searchQuery all insight = true →
  (shown toLowerCase searchQuery verified insight = true
   ∧ shown toLowerCase searchQuery unverified insight ≠ true)
  ∨ (shown toLowerCase searchQuery verified insight ≠ true
     ∧ shown toLowerCase searchQuery unverified insight = true).
Proof.
  unfold shown. simpl.
  destruct (negb (bool_decide (searchQuery = "")) && _); [done|]. intros _.
  destruct (si_factCheck insight) as [[|c facts]|]; simpl;
    try (right; by split).
  destruct (bool_decide (status c = Verified) || _); simpl;
    [left|right]; by split.
Qed.

Lemma shown_all (searchQuery : string) (filterBy : FilterBy)
    (insight : SavedInsight) :
  shown toLowerCase searchQuery filterBy insight = true →
  shown toLowerCase searchQuery all insight = true.
Proof.
  unfold shown. simpl.
  by destruct (negb (bool_decide (searchQuery = "")) && _).
Qed.

(** X19. The filters of the saved page.  With no search text and the filter
    [all] every insight is shown.  What is shown is always a selection of
    the saved insights in their order.  For one search text, [verified]
    and [unverified] split what [all] shows: every insight shown by [all]
    is shown by exactly one of them.  An insight shown as verified has a
    fact check with a verified claim; one shown as unverified has none. *)
Theorem filteredInsights_split (savedInsights : list SavedInsight)
    (searchQuery : string) :
  get savedInsights "" all = savedInsights
  ∧ (∀ filterBy, sublist (get savedInsights searchQuery filterBy) savedInsights)
  ∧ get savedInsights searchQuery verified
    ++ get savedInsights searchQuery unverified
    ≡ₚ get savedInsights searchQuery all
  ∧ Forall (λ insight, ∃ facts fact, si_factCheck insight = Some facts
                                     ∧ fact ∈ facts ∧ status fact = Verified)
      (get savedInsights searchQuery verified)
  ∧ Forall (λ insight, ∀ facts fact, si_factCheck insight = Some facts →
                                     fact ∈ facts → status fact ≠ Verified)
      (get savedInsights searchQuery unverified).
Proof.
  unfold filteredInsights. split; [|split; [|split; [|split]]].
  - induction savedInsights as [|i l IH]; [done|].
    by rewrite filter_cons_True, IH.
  - intros filterBy. apply sublist_filter.
  - induction savedInsights as [|i l IH]; [done|].
    rewrite !filter_cons.
    destruct (decide (shown toLowerCase searchQuery all i = true)) as [Hall|Hall].
    + destruct (verified_or_not searchQuery i Hall) as [[Hv Hu]|[Hv Hu]];
        repeat case_decide; try done; simpl.
      * by rewrite IH.
      * rewrite <- Permutation_middle. by rewrite IH.
    + repeat case_decide; try done;
        exfalso; apply Hall; by eapply shown_all.
  - apply Forall_forall. intros insight [Hshown _]%list_elem_of_filter.
    revert Hshown. unfold shown. simpl.
    destruct (negb (bool_decide (searchQuery = "")) && _); [done|].
    destruct (si_factCheck insight) as [[|c facts]|]; [done| |done].
    intros Hex. exists (c :: facts).
    change (existsb (λ fact, bool_decide (status fact = Verified)) (c :: facts)
            = true) in Hex.
    apply existsb_exists in Hex as (fact & Hin & Hst).
    exists fact. split; [done|]. split; [by apply list_elem_of_In|].
    by apply bool_decide_eq_true in Hst.
  - apply Forall_forall. intros insight [Hshown _]%list_elem_of_filter.
    revert Hshown. unfold shown. simpl.
    destruct (negb (bool_decide (searchQuery = "")) && _); [done|].
    intros Hnone facts fact Hf Hin Hst. rewrite Hf in Hnone.
    destruct facts as [|c facts]; [by apply elem_of_nil in Hin|].
    change (negb (existsb (λ fact, bool_decide (status fact = Verified))
                    (c :: facts)) = true) in Hnone.
    apply negb_true_iff in Hnone.
    assert (existsb (λ fact, bool_decide (status fact = Verified)) (c :: facts)
            = true) as Hex; [|congruence].
    apply existsb_exists. exists fact. split; [by apply list_elem_of_In|].
    by apply bool_decide_eq_true.
Qed.

End Filter.
End SavedFacts.


(* ===================================================================== *)
(** * What [renderAnswer] returns                                         *)
(* ===================================================================== *)

Section RenderFacts.
Import Client PageRest.

Lemma no_bracket_no_match (c : N) (s : jsstring) :
  c ≠ opening Square → c ≠ opening Round → exec_here (c :: s) = None.
Proof.
  intros Hsq Hrd. rewrite exec_here_match_here.
  unfold match_here, alternative, expect. simpl.
  apply N.eqb_neq in Hsq, Hrd. simpl in Hsq, Hrd. by rewrite Hsq, Hrd.
Qed.

Lemma scan_plain (s : jsstring) (index : nat) (pending : jsstring) :
  opening Square ∉ s → opening Round ∉ s →
  scan s index 0 pending = flush (reverse s ++ pending).
Proof.
  revert index pending. induction s as [|c s IH]; intros index pending Hsq Hrd.
  - done.
  - apply not_elem_of_cons in Hsq as [Hsq Hsq'], Hrd as [Hrd Hrd'].
    cbn [scan]. rewrite no_bracket_no_match by done.
    rewrite IH by done. by rewrite reverse_cons, <- app_assoc.
Qed.

(** X20. An answer without an opening square or round bracket is rendered as
    it is: one slice holding the whole text, and nothing for the empty
    text. *)
Theorem plain_text_unchanged (text : jsstring) :
  opening Square ∉ text → opening Round ∉ text →
  renderAnswer text = match text with [] => [] | _ => [Text text] end
  ∧ link_starts (renderAnswer text) = [].
Proof.
  intros Hsq Hrd. unfold renderAnswer. rewrite scan_plain by done.
  rewrite app_nil_r. destruct text as [|c text]; [done|].
  unfold flush. destruct (reverse (c :: text)) as [|x l] eqn:Hrev.
  - apply (f_equal reverse) in Hrev. by rewrite reverse_involutive in Hrev.
  - by rewrite <- Hrev, reverse_involutive.
Qed.

Lemma plain_text_unchanged_witness :
  renderAnswer [104; 105]%N = [Text [104; 105]%N]
  ∧ link_starts (renderAnswer [104; 105]%N) = [].
Proof.
  apply (plain_text_unchanged [104; 105]%N);
    rewrite !not_elem_of_cons; repeat split; try discriminate;
    apply not_elem_of_nil.
Defined.

Lemma flush_starts (pending : jsstring) : link_starts (flush pending) = [].
Proof. by destruct pending. Qed.

Lemma link_starts_app (l1 l2 : list Part) :
  link_starts (l1 ++ l2) = link_starts l1 ++ link_starts l2.
Proof. apply omap_app. Qed.

Lemma scan_starts (s : jsstring) (index inside : nat) (pending : jsstring) :
  StronglySorted lt (link_starts (scan s index inside pending))
  ∧ Forall (λ i, index ≤ i < index + length s)%nat
      (link_starts (scan s index inside pending)).
Proof.
  revert index inside pending.
  induction s as [|c s IH]; intros index inside pending; cbn [scan].
  - rewrite flush_starts. split; constructor.
  - assert (∀ inside' pending',
              StronglySorted lt (link_starts (scan s (S index) inside' pending'))
              ∧ Forall (λ i, index ≤ i < index + length (c :: s))%nat
                  (link_starts (scan s (S index) inside' pending'))) as Hrest.
    { intros inside' pending'.
      destruct (IH (S index) inside' pending') as [Hs Hb]. split; [done|].
      eapply Forall_impl; [exact Hb|]. simpl. intros i ?. lia. }
    destruct inside as [|inside]; [|apply Hrest].
    destruct (exec_here (c :: s)) as [[g rest]|]; [|apply Hrest].
    rewrite link_starts_app, flush_starts. simpl.
    destruct (IH (S index) (S (length s) - length rest - 1)%nat []) as [Hs Hb].
    split.
    + constructor; [done|]. eapply Forall_impl; [exact Hb|]. simpl. lia.
    + constructor; [simpl; lia|].
      eapply Forall_impl; [exact Hb|]. simpl. intros i ?. lia.
Qed.

Lemma flush_no_empty (pending : jsstring) : Text [] ∉ flush pending.
Proof.
  destruct pending as [|c pending]; simpl; [apply not_elem_of_nil|].
  rewrite list_elem_of_singleton. intros [= Hrev].
  symmetry in Hrev. apply (f_equal reverse) in Hrev.
  by rewrite reverse_involutive in Hrev.
Qed.

Lemma scan_no_empty (s : jsstring) (index inside : nat) (pending : jsstring) :
  Text [] ∉ scan s index inside pending.
Proof.
  revert index inside pending.
  induction s as [|c s IH]; intros index inside pending; cbn [scan].
  - apply flush_no_empty.
  - destruct inside as [|inside]; [|apply IH].
    destruct (exec_here (c :: s)) as [[g rest]|]; [|apply IH].
    rewrite elem_of_app, elem_of_cons.
    intros [Hin|[?|Hin]]; [by apply flush_no_empty in Hin|done|by apply IH in Hin].
Qed.

(** X21. The spans of an answer come in the order of the text: their start
    positions increase strictly, so the keys of the spans differ, and
    every one of them lies inside the text.  No slice of text between
    them is empty. *)
Theorem links_in_text_order (text : jsstring) :
  StronglySorted lt (link_starts (renderAnswer text))
  ∧ NoDup (link_starts (renderAnswer text))
  ∧ Forall (λ i, i < length text)%nat (link_starts (renderAnswer text))
  ∧ Text [] ∉ renderAnswer text.
Proof.
  destruct (scan_starts text 0 0 []) as [Hs Hb]. fold (renderAnswer text) in *.
  split; [done|]. split; [|split; [|apply scan_no_empty]].
  - clear Hb. induction Hs as [|i l Hs IH Hi]; constructor; [|done].
    intros Hin. rewrite Forall_forall in Hi. apply Hi in Hin. lia.
  - eapply Forall_impl; [exact Hb|]. simpl. lia.
Qed.

Lemma parseInt_snoc (ds : jsstring) (c : N) :
  parseInt (ds ++ [c]) = parseInt ds * 10 + (Z.of_N c - 48).
Proof. unfold parseInt. by rewrite foldl_app. Qed.

Lemma parseInt_bound (ds : jsstring) :
  Forall (λ c, is_digit c = true) ds →
  0 ≤ parseInt ds < 10 ^ Z.of_nat (length ds).
Proof.
  induction ds as [|c ds IH] using rev_ind; intros Hds.
  - change (parseInt []) with 0. simpl. lia.
  - apply Forall_app in Hds as [Hds Hc]. apply Forall_cons in Hc as [Hc _].
    specialize (IH Hds). rewrite parseInt_snoc, length_app. simpl.
    rewrite Nat2Z.inj_add, Z.pow_add_r by lia. change (10 ^ Z.of_nat 1) with 10.
    unfold is_digit in Hc. apply andb_true_iff in Hc as [?%N.leb_le ?%N.leb_le].
    lia.
Qed.

Lemma digit_run_bound (lo hi : nat) (ds : jsstring) :
  digit_run lo hi ds → 0 ≤ parseInt ds < 10 ^ Z.of_nat hi.
Proof.
  intros [Hds [_ Hlen]]. pose proof (parseInt_bound ds Hds) as [H0 H1].
  split; [done|]. eapply Z.lt_le_trans; [done|].
  apply Z.pow_le_mono_r; lia.
Qed.

Lemma clock_of_bounds (g : Groups) :
  token_groups g →
  let '(hours, minutes, seconds) := clock_of g in
  0 ≤ hours < 100 ∧ 0 ≤ minutes < 1000 ∧ 0 ≤ seconds < 100
  ∧ (hours = 0 → minutes * 60 + seconds = totalSeconds g).
Proof.
  intros (Hh & Hm%digit_run_bound & Hs%digit_run_bound).
  unfold totalSeconds, clock_of. simpl in Hm, Hs.
  pose proof (Z.div_mod (parseInt (minutesRaw g)) 60 ltac:(lia)) as Hdm.
  pose proof (Z.mod_pos_bound (parseInt (minutesRaw g)) 60 ltac:(lia)) as Hmod.
  destruct (hoursRaw g) as [[|c h]|]; simpl;
    try apply digit_run_bound in Hh; simpl in Hh;
    try case_bool_decide; simpl; change (parseInt []) with 0 in *; lia.
Qed.

(** X22. Every span of an answer seeks to a second from 0 to 416439, and a
    click on it is never ignored: it asks the player to seek there, or
    leaves the position pending. *)
Theorem span_click_seeks_or_waits (text : jsstring) (i : nat) (secs : Z)
    (lbl : string) :
  Link i secs lbl ∈ renderAnswer text →
  0 ≤ secs ≤ 416439
  ∧ ∀ playerReady playerRef,
      let clicked := click playerReady playerRef (Link i secs lbl) in
      Page.SeekTo (JS.of_Z secs) ∈ clicked
      ∨ Page.SetPendingSeek (Some (JS.of_Z secs)) ∈ clicked.
Proof.
  intros Hin.
  apply scan_links in Hin as (k & g & rest & -> & Hm & -> & ->).
  apply match_here_spec in Hm as (b & ws1 & ws2 & Hg & _).
  pose proof (clock_of_bounds g Hg) as Hb.
  assert (0 ≤ totalSeconds g ≤ 416439) as Hsecs.
  { unfold totalSeconds. destruct (clock_of g) as [[hours minutes] seconds]. lia. }
  split; [done|]. intros playerReady playerRef. simpl.
  unfold jumpToTimestamp. rewrite lt0_of_Z.
  rewrite bool_decide_eq_false_2 by lia. simpl.
  destruct playerReady, playerRef as [|[]]; simpl;
    rewrite ?elem_of_cons; auto.
Qed.

Lemma span_click_seeks_or_waits_witness :
  0 ≤ 4510 ≤ 416439.
Proof.
  apply (span_click_seeks_or_waits [40; 55; 53; 58; 49; 48; 41]%N 0 4510
           "[1:15:10]").
  vm_compute. constructor.
Defined.

Lemma code_units_app (s1 s2 : string) :
  code_units (s1 +:+ s2) = code_units s1 ++ code_units s2.
Proof.
  induction s1 as [|a s1 IH]; [done|].
  change (code_units (String a s1 +:+ s2))
    with (Ascii.N_of_ascii a :: code_units (s1 +:+ s2)).
  change (code_units (String a s1)) with (Ascii.N_of_ascii a :: code_units s1).
  by rewrite IH.
Qed.

Lemma small_numbers_print_back (n : Z) :
  0 ≤ n < 1000 → prints_back n = true.
Proof.
  intros Hn.
  assert (forallb prints_back (seqZ 0 1000) = true) as Hall
    by (vm_compute; reflexivity).
  rewrite forallb_forall in Hall. apply Hall.
  apply list_elem_of_In, elem_of_seqZ. lia.
Qed.

Lemma printed (n : Z) (hi : nat) :
  0 ≤ n < 1000 → (n < 100 ∨ hi = 3%nat) → (2 ≤ hi ≤ 3)%nat →
  digit_run 1 hi (code_units (JS.toString n))
  ∧ digit_run 1 hi (code_units (pad2 n))
  ∧ parseInt (code_units (JS.toString n)) = n
  ∧ parseInt (code_units (pad2 n)) = n.
Proof.
  intros Hn Hhi Hhi'. pose proof (small_numbers_print_back n Hn) as Hp.
  unfold prints_back in Hp. cbv zeta in Hp.
  apply andb_true_iff in Hp as [Hp Hlen].
  apply andb_true_iff in Hp as [Hp Hl2%bool_decide_eq_true].
  apply andb_true_iff in Hp as [Hp Hl1%bool_decide_eq_true].
  apply andb_true_iff in Hp as [Hp Hp2%bool_decide_eq_true].
  apply andb_true_iff in Hp as [Hp Hp1%bool_decide_eq_true].
  apply andb_true_iff in Hp as [Hd1 Hd2].
  assert (∀ l, forallb is_digit l = true → Forall (λ c, is_digit c = true) l)
    as Hdigits.
  { intros l Hl. apply Forall_forall. intros c Hc.
    rewrite forallb_forall in Hl. by apply Hl, list_elem_of_In. }
  apply Hdigits in Hd1, Hd2.
  assert ((length (code_units (JS.toString n)) ≤ hi)%nat
          ∧ (length (code_units (pad2 n)) ≤ hi)%nat) as [? ?].
  { apply orb_true_iff in Hlen as [Hlen%bool_decide_eq_true|Hlen]; [lia|].
    apply andb_true_iff in Hlen as [?%bool_decide_eq_true ?%bool_decide_eq_true].
    lia. }
  unfold digit_run. repeat split; try done; lia.
Qed.

(** X23. The label of a span reads back as the position the span seeks to:
    rendering the label gives one span, for the same second. *)
Theorem label_reads_back (g : Groups) :
  token_groups g →
  ∃ lbl, renderAnswer (code_units (label g)) = [Link 0 (totalSeconds g) lbl].
Proof.
  intros Hg. pose proof (clock_of_bounds g Hg) as Hb.
  unfold label, totalSeconds in *.
  destruct (clock_of g) as [[hours minutes] seconds].
  destruct Hb as (Hh & Hm & Hs & Hzero).
  destruct (printed hours 2 ltac:(lia) ltac:(lia) ltac:(lia)) as (Hh1 & _ & Hh2 & _).
  destruct (printed minutes 3 ltac:(lia) ltac:(lia) ltac:(lia)) as (Hm1 & Hm1' & Hm2 & Hm2').
  destruct (printed seconds 2 ltac:(lia) ltac:(lia) ltac:(lia)) as (_ & Hs1 & _ & Hs2).
  case_bool_decide as Hpos.
  - set (g' := {| hoursRaw := Some (code_units (JS.toString hours));
                  minutesRaw := code_units (pad2 minutes);
                  secondsRaw := code_units (pad2 seconds) |}).
    exists (label g').
    replace (code_units _) with (token Square [] g' []).
    + rewrite renderAnswer_token; [|done|constructor|constructor].
      rewrite totalSeconds_formula. unfold H, M, S_. simpl.
      by rewrite Hh2, Hm2', Hs2.
    + unfold token, hours_part. simpl. rewrite !code_units_app. simpl.
      by rewrite <- !app_assoc.
  - set (g' := {| hoursRaw := None;
                  minutesRaw := code_units (JS.toString minutes);
                  secondsRaw := code_units (pad2 seconds) |}).
    exists (label g').
    replace (code_units _) with (token Square [] g' []).
    + rewrite renderAnswer_token; [|done|constructor|constructor].
      rewrite totalSeconds_formula. unfold H, M, S_. simpl.
      assert (hours = 0) as -> by lia. by rewrite Hm2, Hs2.
    + unfold token, hours_part. simpl. rewrite !code_units_app. simpl.
      by rewrite <- ?app_assoc.
Qed.

Lemma label_reads_back_witness :
  ∃ lbl,
    renderAnswer
      (code_units (label {| hoursRaw := None; minutesRaw := [55; 53]%N;
                            secondsRaw := [49; 48]%N |}))
    = [Link 0 (totalSeconds {| hoursRaw := None; minutesRaw := [55; 53]%N;
                               secondsRaw := [49; 48]%N |}) lbl].
Proof.
  apply (label_reads_back {| hoursRaw := None; minutesRaw := [55; 53]%N;
                             secondsRaw := [49; 48]%N |}).
  unfold token_groups, digit_run. simpl. repeat split; repeat constructor.
Defined.

End RenderFacts.
